(** * HL_Tools: the studio model entity and renderer core

    A shallow embedding of [src/tools/hlam/entity/StudioModelEntity.cpp] and of
    the shadow, chrome and lighting parts of
    [src/tools/hlam/engine/renderer/studiomodel/StudioModelRenderer.cpp].

    Conventions.
    - C++ [int] is a [Z]; signed overflow and a float-to-int cast of a value that
      does not fit are undefined behaviour and are reported as [Undefined].
    - [float] and [double] are the two carriers of an arithmetic interface
      [Arith].  Two instances are given: exact rational arithmetic ([exactQ]),
      in which the algebraic statements are proved, and IEEE-754 binary32 and
      binary64 ([ieee]), built on the standard library's [SpecFloat], on which
      concrete runs are evaluated bit for bit.  Where a statement over the
      rationals depends on a quotient or a product that binary32 would round,
      it is kept to inputs on which binary32 does not ([FRAME_LIMIT],
      [RANGE_LIMIT], whole degrees), or widened to what binary32 keeps, and a
      binary32 run stands beside it.
    - A null pointer is [None]; dereferencing it is [Undefined NullDereference].
    - C arrays and [std::vector]s are lists; an access past the end is
      [Undefined OutOfBounds].  Loop counters over a vector are not checked
      for overflow: vectors are shorter than [2^31]. *)

From Stdlib Require Import String.
From Stdlib Require Import ZArith QArith Qround Lia Lqa List Bool.
From Stdlib Require Import Floats.SpecFloat.
Import ListNotations.
Open Scope Z_scope.

(** ** Outcomes of a C++ computation *)

Inductive fault := NullDereference | OutOfBounds | IntegerOverflow | BadCast.

Inductive result (A : Type) : Type :=
| Done (a : A)
| Undefined (why : fault).
Arguments Done {A} a.
Arguments Undefined {A} why.

Definition bind {A B} (r : result A) (k : A -> result B) : result B :=
  match r with
  | Done a => k a
  | Undefined w => Undefined w
  end.

Notation "x <- r ;; k" := (bind r (fun x => k))
  (at level 61, r at next level, right associativity).
Notation "' p <- r ;; k" := (bind r (fun x => let 'p := x in k))
  (at level 61, p pattern, r at next level, right associativity).

(** ** Machine integers *)

Definition INT_MIN : Z := -2147483648.
Definition INT_MAX : Z := 2147483647.

Definition fits_int (z : Z) : bool := (INT_MIN <=? z) && (z <=? INT_MAX).

(** The value of an [int] expression whose mathematical value is [z]. *)
Definition as_int (z : Z) : result Z :=
  if fits_int z then Done z else Undefined IntegerOverflow.

Definition isub (a b : Z) : result Z := as_int (a - b).
Definition imul (a b : Z) : result Z := as_int (a * b).

(** Conversion of an [int] to [std::size_t] (64-bit), as in [int >= v.size()]:
    a negative [int] wraps around. *)
Definition to_size_t (i : Z) : Z := if i <? 0 then i + 2 ^ 64 else i.

(** [i >= v.size()] for an [int i]. *)
Definition size_le {T} (v : list T) (i : Z) : bool :=
  Z.of_nat (length v) <=? to_size_t i.

(** [i < v.size()] for an [int i]. *)
Definition lt_size {T} (i : Z) (v : list T) : bool :=
  to_size_t i <? Z.of_nat (length v).

(** [std::clamp(v, lo, hi)]. *)
Definition clamp (v lo hi : Z) : Z :=
  if v <? lo then lo else if hi <? v then hi else v.

(** [v[i]] for an index already converted to a natural number. *)
Definition at_index {T} (v : list T) (i : Z) : result T :=
  if i <? 0 then Undefined OutOfBounds
  else match nth_error v (Z.to_nat i) with
       | Some x => Done x
       | None => Undefined OutOfBounds
       end.

Fixpoint replace_nth {T} (v : list T) (n : nat) (x : T) : list T :=
  match v, n with
  | [], _ => []
  | _ :: tl, O => x :: tl
  | y :: tl, S n' => y :: replace_nth tl n' x
  end.

(** [v[i] = x]. *)
Definition store_at {T} (v : list T) (i : Z) (x : T) : result (list T) :=
  if (i <? 0) || (Z.of_nat (length v) <=? i) then Undefined OutOfBounds
  else Done (replace_nth v (Z.to_nat i) x).

(** ** The arithmetic interface *)

Class Arith : Type := {
  float : Type;
  double : Type;
  (* binary operators on float *)
  fadd : float -> float -> float;
  fsub : float -> float -> float;
  fmul : float -> float -> float;
  fdiv : float -> float -> float;
  fneg : float -> float;
  feqb : float -> float -> bool;
  fltb : float -> float -> bool;
  fleb : float -> float -> bool;
  (* binary operators on double *)
  dadd : double -> double -> double;
  dsub : double -> double -> double;
  dmul : double -> double -> double;
  ddiv : double -> double -> double;
  deqb : double -> double -> bool;
  dltb : double -> double -> bool;
  dleb : double -> double -> bool;
  (* conversions *)
  f2d : float -> double;
  d2f : double -> float;
  i2f : Z -> float;
  i2d : Z -> double;
  (* truncation towards zero; the mathematical integer, or nothing for an
     infinity or a NaN *)
  ftrunc : float -> option Z;
  dtrunc : double -> option Z
}.

Section Casts.
Context {A : Arith}.

Definition cast_to (lo hi : Z) (t : option Z) : result Z :=
  match t with
  | Some z => if (lo <=? z) && (z <=? hi) then Done z else Undefined BadCast
  | None => Undefined BadCast
  end.

(** [(int)x] for a float and for a double. *)
Definition f2i (x : float) : result Z := cast_to INT_MIN INT_MAX (ftrunc x).
Definition d2i (x : double) : result Z := cast_to INT_MIN INT_MAX (dtrunc x).

(** [static_cast<std::uint8_t>(x)] for a double. *)
Definition d2u8 (x : double) : result Z := cast_to 0 255 (dtrunc x).

(** [std::min(a, b)]: [b] when [b < a], else [a]. *)
Definition fmin (a b : float) : float := if fltb b a then b else a.
End Casts.

(** *** Exact rational arithmetic *)

Definition Qtrunc (q : Q) : Z := Z.quot (Qnum q) (Z.pos (Qden q)).

Definition Qeqb (x y : Q) : bool := Qeq_bool x y.
Definition Qltb (x y : Q) : bool := negb (Qle_bool y x).
Definition Qleb (x y : Q) : bool := Qle_bool x y.

Definition exactQ : Arith := {|
  float := Q;
  double := Q;
  fadd := Qplus; fsub := Qminus; fmul := Qmult; fdiv := Qdiv; fneg := Qopp;
  feqb := Qeqb; fltb := Qltb; fleb := Qleb;
  dadd := Qplus; dsub := Qminus; dmul := Qmult; ddiv := Qdiv;
  deqb := Qeqb; dltb := Qltb; dleb := Qleb;
  f2d := fun x => x;
  d2f := fun x => x;
  i2f := inject_Z;
  i2d := inject_Z;
  ftrunc := fun x => Some (Qtrunc x);
  dtrunc := fun x => Some (Qtrunc x)
|}.

(** *** IEEE-754 binary32 and binary64 *)

Module IEEE.
Definition prec32 : Z := 24.
Definition emax32 : Z := 128.
Definition prec64 : Z := 53.
Definition emax64 : Z := 1024.

(** Rounding of a float of any format to the format [(prec, emax)]. *)
Definition round_to (prec emax : Z) (x : spec_float) : spec_float :=
  match x with
  | S754_finite s m e => binary_round prec emax s m e
  | _ => x
  end.

Definition of_Z (prec emax : Z) (z : Z) : spec_float :=
  binary_normalize prec emax z 0 false.

Definition trunc (x : spec_float) : option Z :=
  match x with
  | S754_zero _ => Some 0
  | S754_finite s m e =>
      let a := match e with
               | Z.neg p => Z.pos m / 2 ^ Z.pos p
               | _ => Z.pos m * 2 ^ e
               end in
      Some (if s then - a else a)
  | _ => None
  end.
End IEEE.

Definition ieee : Arith := {|
  float := spec_float;
  double := spec_float;
  fadd := SFadd IEEE.prec32 IEEE.emax32;
  fsub := SFsub IEEE.prec32 IEEE.emax32;
  fmul := SFmul IEEE.prec32 IEEE.emax32;
  fdiv := SFdiv IEEE.prec32 IEEE.emax32;
  fneg := SFopp;
  feqb := SFeqb; fltb := SFltb; fleb := SFleb;
  dadd := SFadd IEEE.prec64 IEEE.emax64;
  dsub := SFsub IEEE.prec64 IEEE.emax64;
  dmul := SFmul IEEE.prec64 IEEE.emax64;
  ddiv := SFdiv IEEE.prec64 IEEE.emax64;
  deqb := SFeqb; dltb := SFltb; dleb := SFleb;
  f2d := IEEE.round_to IEEE.prec64 IEEE.emax64;
  d2f := IEEE.round_to IEEE.prec32 IEEE.emax32;
  i2f := IEEE.of_Z IEEE.prec32 IEEE.emax32;
  i2d := IEEE.of_Z IEEE.prec64 IEEE.emax64;
  ftrunc := IEEE.trunc;
  dtrunc := IEEE.trunc
|}.

(** ** Constants of the studio model file format

    [StudioModelFileFormat.hpp] is not among the sources; its constants are
    taken as parameters.  [goldsrc] gives them the values of the GoldSource
    format for the concrete runs. *)

Class StudioConstants : Type := {
  STUDIO_XR : Z;
  STUDIO_YR : Z;
  STUDIO_ZR : Z;
  STUDIO_LOOPING : Z;
  EVENT_CLIENT : Z;
  STUDIO_MOUTH_CONTROLLER : Z;
  STUDIO_TOTAL_CONTROLLERS : Z;
  STUDIO_MAX_BLENDERS : Z;
  SequenceBlendXIndex : Z;
  SequenceBlendYIndex : Z;
  EF_NOSHADELIGHT : Z
}.

Definition goldsrc : StudioConstants := {|
  STUDIO_XR := 8;
  STUDIO_YR := 16;
  STUDIO_ZR := 32;
  STUDIO_LOOPING := 1;
  EVENT_CLIENT := 5000;
  STUDIO_MOUTH_CONTROLLER := 4;
  STUDIO_TOTAL_CONTROLLERS := 5;
  STUDIO_MAX_BLENDERS := 2;
  SequenceBlendXIndex := 0;
  SequenceBlendYIndex := 1;
  EF_NOSHADELIGHT := 256
|}.

(** ** Model data, as the entity and the renderer read it

    [EditableStudioModel.hpp] and [StudioModelEntity.hpp] are not among the
    sources: the records carry the fields that the two [.cpp] files read, with
    the types their uses show.  The frame of an event is an [int], as in the
    file format; [_animTime] holds what the world clock returns, a [double];
    a vector of which only the size is read ([SkinFamilies]) is its size. *)

Section ModelData.
Context {A : Arith}.

(** A bone controller or a blend channel: [Index], [Type], [Start], [End]. *)
Record BoneController : Type := {
  bc_Index : Z;
  bc_Type : Z;
  bc_Start : float;
  bc_End : float
}.

Record BlendData : Type := {
  bd_Type : Z;
  bd_Start : float;
  bd_End : float
}.

Record SequenceEvent : Type := {
  ev_Frame : Z;
  ev_EventId : Z;
  ev_Options : String.string
}.

Record Sequence : Type := {
  seq_FPS : float;
  seq_Flags : Z;
  seq_NumFrames : Z;
  seq_BlendData : list BlendData;
  seq_SortedEvents : list SequenceEvent
}.

Record Vec3 : Type := { vx : float; vy : float; vz : float }.

Record Mesh : Type := {
  mesh_NumTriangles : Z;
  mesh_Triangles : list Z
}.

Record Model : Type := { model_Meshes : list Mesh }.

Record EditableStudioModel : Type := {
  Sequences : list Sequence;
  BoneControllers : list BoneController;
  Bodyparts : list (list Model);
  SkinFamilies : nat;
  Flags : Z
}.

(** The event handed to [HandleAnimEvent]. *)
Record AnimEvent : Type := {
  ae_id : Z;
  ae_options : String.string
}.

Inductive StudioLoopingMode := AlwaysLoop | NeverLoop | UseSequenceSetting.

(** The two blend strategies behind [_blender]. *)
Inductive Blender := StandardBlender | CounterStrikeBlender.

Record StudioModelEntity : Type := {
  _editableModel : option EditableStudioModel;
  _sequence : Z;
  _frame : float;
  _frameRate : float;
  _animTime : double;
  _lastEventCheck : float;
  _loopingMode : StudioLoopingMode;
  _skin : Z;
  _controller : list Z;
  _controllerValues : list float;
  _mouth : Z;
  _mouthValue : float;
  _blending : list Z;
  _blendingValues : list float;
  _blender : Blender
}.

Definition with_frame (e : StudioModelEntity) (frame : float) (animTime : double)
    (lastEventCheck : float) : StudioModelEntity :=
  {| _editableModel := _editableModel e;
     _sequence := _sequence e;
     _frame := frame;
     _frameRate := _frameRate e;
     _animTime := animTime;
     _lastEventCheck := lastEventCheck;
     _loopingMode := _loopingMode e;
     _skin := _skin e;
     _controller := _controller e;
     _controllerValues := _controllerValues e;
     _mouth := _mouth e;
     _mouthValue := _mouthValue e;
     _blending := _blending e;
     _blendingValues := _blendingValues e;
     _blender := _blender e |}.

Definition with_sequence (e : StudioModelEntity) (sequence : Z) (frame : float)
    (lastEventCheck : float) : StudioModelEntity :=
  {| _editableModel := _editableModel e;
     _sequence := sequence;
     _frame := frame;
     _frameRate := _frameRate e;
     _animTime := _animTime e;
     _lastEventCheck := lastEventCheck;
     _loopingMode := _loopingMode e;
     _skin := _skin e;
     _controller := _controller e;
     _controllerValues := _controllerValues e;
     _mouth := _mouth e;
     _mouthValue := _mouthValue e;
     _blending := _blending e;
     _blendingValues := _blendingValues e;
     _blender := _blender e |}.

Definition with_skin (e : StudioModelEntity) (skin : Z) : StudioModelEntity :=
  {| _editableModel := _editableModel e;
     _sequence := _sequence e;
     _frame := _frame e;
     _frameRate := _frameRate e;
     _animTime := _animTime e;
     _lastEventCheck := _lastEventCheck e;
     _loopingMode := _loopingMode e;
     _skin := skin;
     _controller := _controller e;
     _controllerValues := _controllerValues e;
     _mouth := _mouth e;
     _mouthValue := _mouthValue e;
     _blending := _blending e;
     _blendingValues := _blendingValues e;
     _blender := _blender e |}.

Definition with_controller (e : StudioModelEntity) (controller : list Z)
    (controllerValues : list float) : StudioModelEntity :=
  {| _editableModel := _editableModel e;
     _sequence := _sequence e;
     _frame := _frame e;
     _frameRate := _frameRate e;
     _animTime := _animTime e;
     _lastEventCheck := _lastEventCheck e;
     _loopingMode := _loopingMode e;
     _skin := _skin e;
     _controller := controller;
     _controllerValues := controllerValues;
     _mouth := _mouth e;
     _mouthValue := _mouthValue e;
     _blending := _blending e;
     _blendingValues := _blendingValues e;
     _blender := _blender e |}.

Definition with_mouth (e : StudioModelEntity) (mouth : Z) (mouthValue : float)
    : StudioModelEntity :=
  {| _editableModel := _editableModel e;
     _sequence := _sequence e;
     _frame := _frame e;
     _frameRate := _frameRate e;
     _animTime := _animTime e;
     _lastEventCheck := _lastEventCheck e;
     _loopingMode := _loopingMode e;
     _skin := _skin e;
     _controller := _controller e;
     _controllerValues := _controllerValues e;
     _mouth := mouth;
     _mouthValue := mouthValue;
     _blending := _blending e;
     _blendingValues := _blendingValues e;
     _blender := _blender e |}.

Definition with_blending (e : StudioModelEntity) (blending : list Z)
    (blendingValues : list float) : StudioModelEntity :=
  {| _editableModel := _editableModel e;
     _sequence := _sequence e;
     _frame := _frame e;
     _frameRate := _frameRate e;
     _animTime := _animTime e;
     _lastEventCheck := _lastEventCheck e;
     _loopingMode := _loopingMode e;
     _skin := _skin e;
     _controller := _controller e;
     _controllerValues := _controllerValues e;
     _mouth := _mouth e;
     _mouthValue := _mouthValue e;
     _blending := blending;
     _blendingValues := blendingValues;
     _blender := _blender e |}.
End ModelData.

(** ** StudioModelEntity.cpp *)

Section Entity.
Context {A : Arith} {K : StudioConstants}.

(** [_sequence < 0 || _sequence >= _editableModel->Sequences.size()] *)
Definition no_sequence (model : EditableStudioModel) (sequence : Z) : bool :=
  (sequence <? 0) || size_le (Sequences model) sequence.

(** [shouldLoop], the switch over [_loopingMode]. *)
Definition shouldLoop (mode : StudioLoopingMode) (sequenceDescriptor : Sequence) : bool :=
  match mode with
  | AlwaysLoop => true
  | NeverLoop => false
  | UseSequenceSetting =>
      negb (Z.land (seq_Flags sequenceDescriptor) STUDIO_LOOPING =? 0)
  end.

(** [_frame -= (int)(_frame / (NumFrames - 1)) * (NumFrames - 1)], with
    [last] the value of [NumFrames - 1]. *)
Definition wrap_frame (frame : float) (last : Z) : result float :=
  q <- f2i (fdiv frame (i2f last)) ;;
  p <- imul q last ;;
  Done (fsub frame (i2f p)).

(** [AdvanceFrame(deltaTime, maximum)]; [now] is what the world clock
    returns.  The result carries the entity and the returned delta time. *)
Definition AdvanceFrame (now : double) (deltaTime maximum : float)
    (e : StudioModelEntity) : result (StudioModelEntity * float) :=
  match _editableModel e with
  | None => Done (e, i2f 0)
  | Some model =>
    if no_sequence model (_sequence e) then Done (e, i2f 0) else
    sequenceDescriptor <- at_index (Sequences model) (_sequence e) ;;
    let elapsed := d2f (dsub now (_animTime e)) in
    if feqb deltaTime (i2f 0) && dleb (f2d elapsed) (ddiv (i2d 1) (i2d 1000))
    then Done (e, i2f 0) else
    let deltaTime := if feqb deltaTime (i2f 0) then elapsed else deltaTime in
    let deltaTime := if deqb (_animTime e) (i2d 0) then i2f 0 else deltaTime in
    let deltaTime :=
      if negb (feqb maximum (i2f (-1))) then fmin deltaTime maximum else deltaTime in
    let oldFrame := _frame e in
    let loop := shouldLoop (_loopingMode e) sequenceDescriptor in
    let increment := fmul (fmul deltaTime (seq_FPS sequenceDescriptor)) (_frameRate e) in
    last <- isub (seq_NumFrames sequenceDescriptor) 1 ;;
    let frame :=
      if fltb (_frame e) (i2f last) || loop then fadd (_frame e) increment
      else _frame e in
    if seq_NumFrames sequenceDescriptor <=? 1
    then Done (with_frame e (i2f 0) now (_lastEventCheck e), deltaTime)
    else
      frame <- (if loop then wrap_frame frame last
                else if fleb (i2f last) frame then Done (i2f last)
                else Done frame) ;;
      let lastEventCheck :=
        if fltb frame oldFrame then fsub frame increment else _lastEventCheck e in
      Done (with_frame e frame now lastEventCheck, deltaTime)
  end.

(** The condition under which [GetAnimationEvent] returns [candidate]. *)
Definition event_in_window (sequenceDescriptor : Sequence) (start end_ : float)
    (candidate : SequenceEvent) : result bool :=
  if fleb start (i2f (ev_Frame candidate)) && fltb (i2f (ev_Frame candidate)) end_
  then Done true
  else if Z.land (seq_Flags sequenceDescriptor) STUDIO_LOOPING =? 0 then Done false
  else
    last <- isub (seq_NumFrames sequenceDescriptor) 1 ;;
    if fleb (i2f last) end_
    then Done (fltb (i2f (ev_Frame candidate))
                 (fadd (fsub end_ (i2f (seq_NumFrames sequenceDescriptor))) (i2f 1)))
    else Done false.

(** The [for] loop of [GetAnimationEvent] over the events from [index] on. *)
Fixpoint scan_events (sequenceDescriptor : Sequence) (start end_ : float)
    (allowClientEvents : bool) (rest : list SequenceEvent) (index : Z)
    (event : AnimEvent) : result (Z * AnimEvent) :=
  match rest with
  | [] => Done (0, event)
  | candidate :: rest' =>
    if negb allowClientEvents && (EVENT_CLIENT <=? ev_EventId candidate)
    then scan_events sequenceDescriptor start end_ allowClientEvents rest' (index + 1) event
    else
      hit <- event_in_window sequenceDescriptor start end_ candidate ;;
      if hit
      then Done (index + 1,
                 {| ae_id := ev_EventId candidate; ae_options := ev_Options candidate |})
      else scan_events sequenceDescriptor start end_ allowClientEvents rest' (index + 1) event
  end.

Definition GetAnimationEvent (e : StudioModelEntity) (event : AnimEvent)
    (start end_ : float) (index : Z) (allowClientEvents : bool)
    : result (Z * AnimEvent) :=
  match _editableModel e with
  | None => Done (0, event)
  | Some model =>
    if no_sequence model (_sequence e) then Done (0, event) else
    sequenceDescriptor <- at_index (Sequences model) (_sequence e) ;;
    if size_le (seq_SortedEvents sequenceDescriptor) index then Done (0, event) else
    let single := seq_NumFrames sequenceDescriptor <=? 1 in
    let start := if single then i2f 0 else start in
    let end_ := if single then i2f 1 else end_ in
    scan_events sequenceDescriptor start end_ allowClientEvents
      (skipn (Z.to_nat index) (seq_SortedEvents sequenceDescriptor)) index event
  end.

(** The [while] loop of [DispatchAnimEvents]; [handled] collects, oldest
    first, the events passed to [HandleAnimEvent]. *)
Fixpoint dispatch_loop (fuel : nat) (e : StudioModelEntity) (event : AnimEvent)
    (start end_ : float) (index : Z) (allowClientEvents : bool)
    (handled : list AnimEvent) : result (list AnimEvent) :=
  match fuel with
  | O => Done handled
  | S fuel' =>
    '(index', event') <- GetAnimationEvent e event start end_ index allowClientEvents ;;
    if index' =? 0 then Done handled
    else dispatch_loop fuel' e event' start end_ index' allowClientEvents
           (handled ++ [event'])
  end.

(** The number of events of the current sequence: every turn of the loop
    but the last moves [index] forward, so one turn more than this is
    enough. *)
Definition event_count (e : StudioModelEntity) : nat :=
  match _editableModel e with
  | None => O
  | Some model =>
    match nth_error (Sequences model) (Z.to_nat (_sequence e)) with
    | Some sequenceDescriptor => length (seq_SortedEvents sequenceDescriptor)
    | None => O
    end
  end.

Definition DispatchAnimEvents (allowClientEvents : bool) (e : StudioModelEntity)
    : result (StudioModelEntity * list AnimEvent) :=
  match _editableModel e with
  | None => Done (e, [])
  | Some _ =>
    let start := _lastEventCheck e in
    let end_ := _frame e in
    let e' := with_frame e (_frame e) (_animTime e) (_frame e) in
    handled <- dispatch_loop (S (event_count e)) e'
                 {| ae_id := 0; ae_options := String.EmptyString |}
                 start end_ 0 allowClientEvents [] ;;
    Done (e', handled)
  end.

Definition SetFrame (now : double) (frame : float) (e : StudioModelEntity)
    : result StudioModelEntity :=
  if feqb frame (i2f (-1)) then Done e else
  match _editableModel e with
  | None => Done e
  | Some model =>
    if no_sequence model (_sequence e) then Done e else
    sequenceDescriptor <- at_index (Sequences model) (_sequence e) ;;
    if seq_NumFrames sequenceDescriptor <=? 1
    then Done (with_frame e (i2f 0) now (_lastEventCheck e))
    else
      last <- isub (seq_NumFrames sequenceDescriptor) 1 ;;
      frame' <- wrap_frame frame last ;;
      Done (with_frame e frame' now (_lastEventCheck e))
  end.

Definition GetNumFrames (e : StudioModelEntity) : result Z :=
  match _editableModel e with
  | None =>
    if _sequence e <? 0 then Done 0 else Undefined NullDereference
  | Some model =>
    if no_sequence model (_sequence e) then Done 0 else
    sequenceDescriptor <- at_index (Sequences model) (_sequence e) ;;
    Done (seq_NumFrames sequenceDescriptor)
  end.

Definition SetSequence (sequence : Z) (e : StudioModelEntity)
    : result StudioModelEntity :=
  match _editableModel e with
  | None => Undefined NullDereference
  | Some model =>
    match Sequences model with
    | [] => Done (with_sequence e (-1) (i2f 0) (i2f 0))
    | _ :: _ =>
      if negb (sequence =? -1)
         && ((sequence <? -1) || size_le (Sequences model) sequence)
      then Done e
      else Done (with_sequence e sequence (i2f 0) (i2f 0))
    end
  end.

Definition SetSkin (skin : Z) (e : StudioModelEntity) : StudioModelEntity :=
  match _editableModel e with
  | None => e
  | Some model =>
    if (0 <=? skin) && (to_size_t skin <? Z.of_nat (SkinFamilies model))
    then with_skin e skin else e
  end.
End Entity.

(** ** The controller, mouth and blend codec of StudioModelEntity.cpp *)

Section Codec.
Context {A : Arith} {K : StudioConstants}.

(** The search loop of [SetController] and [SetMouth]: the first [i] whose
    controller has the wanted [Index], or the size of the vector. *)
Fixpoint find_controller (controllers : list BoneController) (controller : Z)
    (i : Z) : Z :=
  match controllers with
  | [] => i
  | boneController :: rest =>
    if bc_Index boneController =? controller then i
    else find_controller rest controller (i + 1)
  end.

(** [Type & (STUDIO_XR | STUDIO_YR | STUDIO_ZR)] *)
Definition rotational (type : Z) : bool :=
  negb (Z.land type (Z.lor (Z.lor STUDIO_XR STUDIO_YR) STUDIO_ZR) =? 0).

Definition SetController (controller : Z) (value : float) (e : StudioModelEntity)
    : result StudioModelEntity :=
  match _editableModel e with
  | None => Done e
  | Some model =>
    let i := find_controller (BoneControllers model) controller 0 in
    if size_le (BoneControllers model) i then Done e else
    controllerValues <- store_at (_controllerValues e) controller value ;;
    boneController <- at_index (BoneControllers model) i ;;
    let Start := bc_Start boneController in
    let End_ := bc_End boneController in
    value <-
      (if rotational (bc_Type boneController) then
         let value := if fltb End_ Start then fneg value else value in
         if dleb (f2d End_) (dadd (f2d Start) (i2d 359)) then
           let middle := ddiv (dadd (f2d Start) (f2d End_)) (i2d 2) in
           let value :=
             if dltb (dadd middle (i2d 180)) (f2d value)
             then fsub value (i2f 360) else value in
           let value :=
             if dltb (f2d value) (dsub middle (i2d 180))
             then fadd value (i2f 360) else value in
           Done value
         else if fltb (i2f 360) value then
           turns <- d2i (ddiv (f2d value) (i2d 360)) ;;
           Done (d2f (dsub (f2d value) (dmul (i2d turns) (i2d 360))))
         else if fltb value (i2f 0) then
           turns <- d2i (dadd (ddiv (f2d value) (i2d (-360))) (i2d 1)) ;;
           Done (d2f (dadd (f2d value) (dmul (i2d turns) (i2d 360))))
         else Done value
       else Done value) ;;
    setting <- f2i (fdiv (fmul (i2f 255) (fsub value Start)) (fsub End_ Start)) ;;
    let setting := clamp setting 0 255 in
    controllers <- store_at (_controller e) controller setting ;;
    Done (with_controller e controllers controllerValues)
  end.

Definition SetMouth (value : float) (e : StudioModelEntity)
    : result StudioModelEntity :=
  match _editableModel e with
  | None => Done e
  | Some model =>
    let i := find_controller (BoneControllers model) STUDIO_MOUTH_CONTROLLER 0 in
    if size_le (BoneControllers model) i then Done e else
    let mouthValue := value in
    boneController <- at_index (BoneControllers model) i ;;
    let Start := bc_Start boneController in
    let End_ := bc_End boneController in
    value <-
      (if rotational (bc_Type boneController) then
         let value := if fltb End_ Start then fneg value else value in
         if dleb (f2d End_) (dadd (f2d Start) (i2d 359)) then
           let middle := ddiv (dadd (f2d Start) (f2d End_)) (i2d 2) in
           let value :=
             if dltb (dadd middle (i2d 180)) (f2d value)
             then fsub value (i2f 360) else value in
           let value :=
             if dltb (f2d value) (dsub middle (i2d 180))
             then fadd value (i2f 360) else value in
           Done value
         else if fltb (i2f 360) value then
           turns <- d2i (ddiv (f2d value) (i2d 360)) ;;
           Done (d2f (dsub (f2d value) (dmul (i2d turns) (i2d 360))))
         else if fltb value (i2f 0) then
           turns <- d2i (dadd (ddiv (f2d value) (i2d (-360))) (i2d 1)) ;;
           Done (d2f (dadd (f2d value) (dmul (i2d turns) (i2d 360))))
         else Done value
       else Done value) ;;
    setting <- f2i (fdiv (fmul (i2f 64) (fsub value Start)) (fsub End_ Start)) ;;
    let setting := clamp setting 0 64 in
    Done (with_mouth e setting mouthValue)
  end.

(** [StandardBlender::CalculateBlend]; [None] is the empty [std::optional]. *)
Definition StandardBlender_CalculateBlend (sequenceDescriptor : Sequence)
    (blender : Z) (value : float) : result (option Z) :=
  blendData <- at_index (seq_BlendData sequenceDescriptor) blender ;;
  if bd_Type blendData =? 0 then Done None else
  let Start := bd_Start blendData in
  let End_ := bd_End blendData in
  let value :=
    if rotational (bd_Type blendData) then
      let value := if fltb End_ Start then fneg value else value in
      if dleb (f2d End_) (dadd (f2d Start) (i2d 359)) then
        let middle := ddiv (dadd (f2d Start) (f2d End_)) (i2d 2) in
        let value :=
          if dltb (dadd middle (i2d 180)) (f2d value)
          then fsub value (i2f 360) else value in
        let value :=
          if dltb (f2d value) (dsub middle (i2d 180))
          then fadd value (i2f 360) else value in
        value
      else value
    else value in
  setting <- f2i (fdiv (fmul (i2f 255) (fsub value Start)) (fsub End_ Start)) ;;
  let setting := clamp setting 0 255 in
  Done (Some setting).

(** [CounterStrikeBlender::CalculateBlend]; the descriptor is not read.  The
    [default] case is the one behind [assert(!"Invalid blend index")]. *)
Definition CounterStrikeBlender_CalculateBlend (sequenceDescriptor : Sequence)
    (blender : Z) (value : float) : result (option Z) :=
  if blender =? SequenceBlendXIndex then
    setting <- d2u8 (dmul (ddiv (dadd (i2d 180) (f2d value)) (i2d 360)) (i2d 255)) ;;
    Done (Some setting)
  else if blender =? SequenceBlendYIndex then
    setting <- d2u8 (dmul (ddiv (f2d (fadd (i2f 45) value)) (i2d 90)) (i2d 255)) ;;
    Done (Some setting)
  else Done None.

(** [_blender->CalculateBlend(...)] *)
Definition CalculateBlend (blenderKind : Blender) (sequenceDescriptor : Sequence)
    (blender : Z) (value : float) : result (option Z) :=
  match blenderKind with
  | StandardBlender => StandardBlender_CalculateBlend sequenceDescriptor blender value
  | CounterStrikeBlender =>
      CounterStrikeBlender_CalculateBlend sequenceDescriptor blender value
  end.

Definition SetBlending (blender : Z) (value : float) (e : StudioModelEntity)
    : result StudioModelEntity :=
  match _editableModel e with
  | None => Done e
  | Some model =>
    if (blender <? 0) || (STUDIO_MAX_BLENDERS <=? blender) then Done e else
    if no_sequence model (_sequence e) then Done e else
    sequenceDescriptor <- at_index (Sequences model) (_sequence e) ;;
    setting <- CalculateBlend (_blender e) sequenceDescriptor blender value ;;
    match setting with
    | Some byte =>
      blending <- store_at (_blending e) blender byte ;;
      blendingValues <- store_at (_blendingValues e) blender value ;;
      Done (with_blending e blending blendingValues)
    | None => Done e
    end
  end.
End Codec.

(** ** StudioModelRenderer.cpp: render info, OpenGL calls, renderer state *)

Section RendererData.
Context {A : Arith}.

Record Vec2 : Type := { s_coord : float; t_coord : float }.
Record Vec4 : Type := { x4 : float; y4 : float; z4 : float; w4 : float }.

(** A [glm::mat4]: four columns. *)
Record Mat4 : Type := { col0 : Vec4; col1 : Vec4; col2 : Vec4; col3 : Vec4 }.

(** [ModelRenderInfo.hpp] *)
Record ModelRenderInfo : Type := {
  Origin : Vec3;
  Angles : Vec3;
  Scale : Vec3;
  Model_ : option EditableStudioModel;
  Transparency : float;
  Sequence_ : Z;
  Frame : float;
  Bodygroup : Z;
  Skin : Z;
  Blender_ : list Z;
  Controller : list Z;
  Mouth : Z
}.

Inductive GLCap := GL_TEXTURE_2D | GL_BLEND.
Inductive GLPrimitive := GL_TRIANGLE_FAN | GL_TRIANGLE_STRIP.
Inductive GLDepthFunc := GL_LESS | GL_LEQUAL.

Inductive GLCall :=
| glDepthMask (flag : bool)
| glDisable (cap : GLCap)
| glEnable (cap : GLCap)
| glBlendFunc_SRC_ALPHA_ONE_MINUS_SRC_ALPHA
| glColor4f (r g b a : float)
| glDepthFunc (func : GLDepthFunc)
| glBegin (mode : GLPrimitive)
| glVertex3fv (v : Vec3)
| glEnd.

(** The part of the OpenGL context the renderer reads back, and the calls
    issued so far, oldest first. *)
Record GLContext : Type := {
  GL_DEPTH_WRITEMASK : bool;
  texture_2d_enabled : bool;
  calls : list GLCall
}.

Definition gl (c : GLCall) (ctx : GLContext) : GLContext :=
  {| GL_DEPTH_WRITEMASK :=
       match c with
       | glDepthMask flag => flag
       | _ => GL_DEPTH_WRITEMASK ctx
       end;
     texture_2d_enabled :=
       match c with
       | glDisable GL_TEXTURE_2D => false
       | glEnable GL_TEXTURE_2D => true
       | _ => texture_2d_enabled ctx
       end;
     calls := calls ctx ++ [c] |}.

Record StudioModelRenderer : Type := {
  _logger : list String.string;
  _glContext : GLContext;
  _renderInfo : option ModelRenderInfo;
  _studioModel : option EditableStudioModel;
  _model : option Model;
  _modelsDrawnCount : Z;
  _drawnPolygonsCount : Z;
  _viewerOrigin : Vec3;
  _viewerRight : Vec3;
  _lightvec : Vec3;
  _wireframeColor : Vec3;
  _bonetransform : list Mat4;
  _xformverts : list Vec3;
  _chromeage : list Z;
  _chromeup : list Vec3;
  _chromeright : list Vec3
}.

Definition with_gl (r : StudioModelRenderer) (ctx : GLContext) : StudioModelRenderer :=
  {| _logger := _logger r;
     _glContext := ctx;
     _renderInfo := _renderInfo r;
     _studioModel := _studioModel r;
     _model := _model r;
     _modelsDrawnCount := _modelsDrawnCount r;
     _drawnPolygonsCount := _drawnPolygonsCount r;
     _viewerOrigin := _viewerOrigin r;
     _viewerRight := _viewerRight r;
     _lightvec := _lightvec r;
     _wireframeColor := _wireframeColor r;
     _bonetransform := _bonetransform r;
     _xformverts := _xformverts r;
     _chromeage := _chromeage r;
     _chromeup := _chromeup r;
     _chromeright := _chromeright r |}.

Definition with_chrome (r : StudioModelRenderer) (chromeage : list Z)
    (chromeup chromeright : list Vec3) : StudioModelRenderer :=
  {| _logger := _logger r;
     _glContext := _glContext r;
     _renderInfo := _renderInfo r;
     _studioModel := _studioModel r;
     _model := _model r;
     _modelsDrawnCount := _modelsDrawnCount r;
     _drawnPolygonsCount := _drawnPolygonsCount r;
     _viewerOrigin := _viewerOrigin r;
     _viewerRight := _viewerRight r;
     _lightvec := _lightvec r;
     _wireframeColor := _wireframeColor r;
     _bonetransform := _bonetransform r;
     _xformverts := _xformverts r;
     _chromeage := chromeage;
     _chromeup := chromeup;
     _chromeright := chromeright |}.

(** The viewer moves: [_viewerOrigin] is assigned. *)
Definition with_viewerOrigin (r : StudioModelRenderer) (viewerOrigin : Vec3)
    : StudioModelRenderer :=
  {| _logger := _logger r;
     _glContext := _glContext r;
     _renderInfo := _renderInfo r;
     _studioModel := _studioModel r;
     _model := _model r;
     _modelsDrawnCount := _modelsDrawnCount r;
     _drawnPolygonsCount := _drawnPolygonsCount r;
     _viewerOrigin := viewerOrigin;
     _viewerRight := _viewerRight r;
     _lightvec := _lightvec r;
     _wireframeColor := _wireframeColor r;
     _bonetransform := _bonetransform r;
     _xformverts := _xformverts r;
     _chromeage := _chromeage r;
     _chromeup := _chromeup r;
     _chromeright := _chromeright r |}.

(** The head of [DrawModel]: [_renderInfo], [_studioModel] and the cache
    cookie [_modelsDrawnCount], an [unsigned int]. *)
Definition begin_draw (r : StudioModelRenderer) (renderInfo : ModelRenderInfo)
    (studioModel : EditableStudioModel) : StudioModelRenderer :=
  {| _logger := _logger r;
     _glContext := _glContext r;
     _renderInfo := Some renderInfo;
     _studioModel := Some studioModel;
     _model := _model r;
     _modelsDrawnCount := (_modelsDrawnCount r + 1) mod 2 ^ 32;
     _drawnPolygonsCount := _drawnPolygonsCount r;
     _viewerOrigin := _viewerOrigin r;
     _viewerRight := _viewerRight r;
     _lightvec := _lightvec r;
     _wireframeColor := _wireframeColor r;
     _bonetransform := _bonetransform r;
     _xformverts := _xformverts r;
     _chromeage := _chromeage r;
     _chromeup := _chromeup r;
     _chromeright := _chromeright r |}.

(** The null-model exit of [DrawModel]: [_renderInfo] is set and the error
    is logged. *)
Definition refuse_draw (r : StudioModelRenderer) (renderInfo : ModelRenderInfo)
    : StudioModelRenderer :=
  {| _logger := _logger r ++ ["Called with null model!"%string];
     _glContext := _glContext r;
     _renderInfo := Some renderInfo;
     _studioModel := _studioModel r;
     _model := _model r;
     _modelsDrawnCount := _modelsDrawnCount r;
     _drawnPolygonsCount := _drawnPolygonsCount r;
     _viewerOrigin := _viewerOrigin r;
     _viewerRight := _viewerRight r;
     _lightvec := _lightvec r;
     _wireframeColor := _wireframeColor r;
     _bonetransform := _bonetransform r;
     _xformverts := _xformverts r;
     _chromeage := _chromeage r;
     _chromeup := _chromeup r;
     _chromeright := _chromeright r |}.

(** [_drawnPolygonsCount += uiDrawnPolys] *)
Definition count_polygons (r : StudioModelRenderer) (uiDrawnPolys : Z)
    : StudioModelRenderer :=
  {| _logger := _logger r;
     _glContext := _glContext r;
     _renderInfo := _renderInfo r;
     _studioModel := _studioModel r;
     _model := _model r;
     _modelsDrawnCount := _modelsDrawnCount r;
     _drawnPolygonsCount := (_drawnPolygonsCount r + uiDrawnPolys) mod 2 ^ 32;
     _viewerOrigin := _viewerOrigin r;
     _viewerRight := _viewerRight r;
     _lightvec := _lightvec r;
     _wireframeColor := _wireframeColor r;
     _bonetransform := _bonetransform r;
     _xformverts := _xformverts r;
     _chromeage := _chromeage r;
     _chromeup := _chromeup r;
     _chromeright := _chromeright r |}.
End RendererData.

(** ** StudioModelRenderer.cpp: chrome, shadows, DrawModel *)

Section Renderer.
Context {A : Arith} {K : StudioConstants}.

(** [glm::normalize] on vectors and [glm::inverse] on matrices need a square
    root and a determinant; GLM is a library outside the sources and the
    two are taken as parameters. *)
Variable glm_normalize : Vec3 -> Vec3.
Variable glm_inverse : Mat4 -> Mat4.

(** [v * s], [a + b], [-v], [glm::cross], [glm::dot], componentwise as GLM
    defines them. *)
Definition vec3_scale (v : Vec3) (s : float) : Vec3 :=
  {| vx := fmul (vx v) s; vy := fmul (vy v) s; vz := fmul (vz v) s |}.

Definition vec3_add (a b : Vec3) : Vec3 :=
  {| vx := fadd (vx a) (vx b); vy := fadd (vy a) (vy b); vz := fadd (vz a) (vz b) |}.

Definition vec3_neg (v : Vec3) : Vec3 :=
  {| vx := fneg (vx v); vy := fneg (vy v); vz := fneg (vz v) |}.

Definition glm_cross (a b : Vec3) : Vec3 :=
  {| vx := fsub (fmul (vy a) (vz b)) (fmul (vy b) (vz a));
     vy := fsub (fmul (vz a) (vx b)) (fmul (vz b) (vx a));
     vz := fsub (fmul (vx a) (vy b)) (fmul (vx b) (vy a)) |}.

Definition glm_dot (a b : Vec3) : float :=
  fadd (fadd (fmul (vx a) (vx b)) (fmul (vy a) (vy b))) (fmul (vz a) (vz b)).

Definition vec4_scale (v : Vec4) (s : float) : Vec4 :=
  {| x4 := fmul (x4 v) s; y4 := fmul (y4 v) s; z4 := fmul (z4 v) s; w4 := fmul (w4 v) s |}.

Definition vec4_add (a b : Vec4) : Vec4 :=
  {| x4 := fadd (x4 a) (x4 b); y4 := fadd (y4 a) (y4 b);
     z4 := fadd (z4 a) (z4 b); w4 := fadd (w4 a) (w4 b) |}.

(** [glm::vec3{matrix * glm::vec4{v, 1}}] *)
Definition transform (matrix : Mat4) (v : Vec3) : Vec3 :=
  let r := vec4_add
             (vec4_add (vec4_scale (col0 matrix) (vx v)) (vec4_scale (col1 matrix) (vy v)))
             (vec4_add (vec4_scale (col2 matrix) (vz v)) (vec4_scale (col3 matrix) (i2f 1))) in
  {| vx := x4 r; vy := y4 r; vz := z4 r |}.

(** [matrix[3] = glm::vec4{0, 0, 0, 1}] *)
Definition without_translation (matrix : Mat4) : Mat4 :=
  {| col0 := col0 matrix; col1 := col1 matrix; col2 := col2 matrix;
     col3 := {| x4 := i2f 0; y4 := i2f 0; z4 := i2f 0; w4 := i2f 1 |} |}.

(** [glm::vec3{matrix[3]}] *)
Definition translation (matrix : Mat4) : Vec3 :=
  {| vx := x4 (col3 matrix); vy := y4 (col3 matrix); vz := z4 (col3 matrix) |}.

(** The body of the [if] of [Chrome]: the pair [(_chromeup[bone],
    _chromeright[bone])] computed from the viewer and the bone transform. *)
Definition chrome_basis (viewerOrigin viewerRight : Vec3) (boneTransform : Mat4)
    : Vec3 * Vec3 :=
  let tmp := vec3_scale viewerOrigin (i2f (-1)) in
  let tmp := vec3_add tmp (translation boneTransform) in
  let tmp := glm_normalize tmp in
  let chromeupvec := glm_cross tmp viewerRight in
  let chromeupvec := glm_normalize chromeupvec in
  let chromerightvec := glm_cross tmp chromeupvec in
  let chromerightvec := glm_normalize chromerightvec in
  let matrix := glm_inverse (without_translation boneTransform) in
  (transform matrix (vec3_neg chromeupvec), transform matrix chromerightvec).

(** [(n + 1.0) * 0.5], stored in a float. *)
Definition chrome_coord (n : float) : float :=
  d2f (dmul (dadd (f2d n) (i2d 1)) (ddiv (i2d 1) (i2d 2))).

(** [Chrome(chrome, bone, normal)]; the result carries the renderer and the
    two coordinates written to [chrome]. *)
Definition Chrome (bone : Z) (normal : Vec3) (r : StudioModelRenderer)
    : result (StudioModelRenderer * Vec2) :=
  age <- at_index (_chromeage r) bone ;;
  r <- (if negb (age =? _modelsDrawnCount r) then
          boneTransform <- at_index (_bonetransform r) bone ;;
          let '(upvec, rightvec) :=
            chrome_basis (_viewerOrigin r) (_viewerRight r) boneTransform in
          chromeup <- store_at (_chromeup r) bone upvec ;;
          chromeright <- store_at (_chromeright r) bone rightvec ;;
          chromeage <- store_at (_chromeage r) bone (_modelsDrawnCount r) ;;
          Done (with_chrome r chromeage chromeup chromeright)
        else Done r) ;;
  rightvec <- at_index (_chromeright r) bone ;;
  upvec <- at_index (_chromeup r) bone ;;
  Done (r, {| s_coord := chrome_coord (glm_dot normal rightvec);
              t_coord := chrome_coord (glm_dot normal upvec) |}).

(** The vertex [InternalDrawShadows] hands to [glVertex3fv] for the
    transformed vertex [vertex]. *)
Definition shadow_point (lightvec : Vec3) (lightSampleHeight : float)
    (vertex : Vec3) : Vec3 :=
  let shadowHeight := dadd (f2d lightSampleHeight) (i2d 1) in
  let lightDistance := fsub (vz vertex) lightSampleHeight in
  {| vx := fsub (vx vertex) (fmul (vx lightvec) lightDistance);
     vy := fsub (vy vertex) (fmul (vy lightvec) lightDistance);
     vz := d2f shadowHeight |}.

(** The inner [for (; i > 0; --i, triCmds += 4)] of [InternalDrawShadows]. *)
Fixpoint shadow_run (r : StudioModelRenderer) (lightSampleHeight : float)
    (i : nat) (triCmds : list Z) (ctx : GLContext) : result (list Z * GLContext) :=
  match i with
  | O => Done (triCmds, ctx)
  | S i' =>
    match triCmds with
    | [] => Undefined OutOfBounds
    | index :: _ =>
      vertex <- at_index (_xformverts r) index ;;
      let point := shadow_point (_lightvec r) lightSampleHeight vertex in
      shadow_run r lightSampleHeight i' (skipn 4 triCmds) (gl (glVertex3fv point) ctx)
    end
  end.

(** The loop [for (int i; (i = *triCmds++) != 0;)] over one mesh.  Every turn
    reads at least one command, so [fuel] as large as the stream is
    enough. *)
Fixpoint shadow_commands (fuel : nat) (r : StudioModelRenderer)
    (lightSampleHeight : float) (triCmds : list Z) (ctx : GLContext)
    : result GLContext :=
  match triCmds with
  | [] => Undefined OutOfBounds
  | i :: triCmds =>
    if i =? 0 then Done ctx else
    match fuel with
    | O => Undefined OutOfBounds
    | S fuel' =>
      count <- (if i <? 0 then isub 0 i else Done i) ;;
      let ctx := gl (glBegin (if i <? 0 then GL_TRIANGLE_FAN else GL_TRIANGLE_STRIP)) ctx in
      '(triCmds, ctx) <- shadow_run r lightSampleHeight (Z.to_nat count) triCmds ctx ;;
      shadow_commands fuel' r lightSampleHeight triCmds (gl glEnd ctx)
    end
  end.

(** The loop over [_model->Meshes]; [drawnPolys] is an [unsigned int]. *)
Fixpoint shadow_meshes (r : StudioModelRenderer) (lightSampleHeight : float)
    (meshes : list Mesh) (drawnPolys : Z) (ctx : GLContext)
    : result (Z * GLContext) :=
  match meshes with
  | [] => Done (drawnPolys, ctx)
  | mesh :: meshes' =>
    let drawnPolys := (drawnPolys + mesh_NumTriangles mesh) mod 2 ^ 32 in
    ctx <- shadow_commands (length (mesh_Triangles mesh)) r lightSampleHeight
             (mesh_Triangles mesh) ctx ;;
    shadow_meshes r lightSampleHeight meshes' drawnPolys ctx
  end.

Definition InternalDrawShadows (r : StudioModelRenderer)
    : result (StudioModelRenderer * Z) :=
  match _renderInfo r, _model r with
  | Some renderInfo, Some model =>
    let lightSampleHeight := vz (Origin renderInfo) in
    '(drawnPolys, ctx) <- shadow_meshes r lightSampleHeight (model_Meshes model) 0
                            (_glContext r) ;;
    Done (with_gl r ctx, drawnPolys)
  | _, _ => Undefined NullDereference
  end.

Definition DrawShadows (fixZFighting wireframe : bool) (r : StudioModelRenderer)
    : result (StudioModelRenderer * Z) :=
  match _studioModel r with
  | None => Undefined NullDereference
  | Some studioModel =>
    if Z.land (Flags studioModel) EF_NOSHADELIGHT =? 0 then
      match _renderInfo r with
      | None => Undefined NullDereference
      | Some renderInfo =>
        let oldDepthMask := GL_DEPTH_WRITEMASK (_glContext r) in
        let ctx := gl (glDepthMask (negb fixZFighting)) (_glContext r) in
        let r_blend := Transparency renderInfo in
        let alpha := dmul (ddiv (i2d 1) (i2d 2)) (f2d r_blend) in
        let texture2DWasEnabled := texture_2d_enabled ctx in
        let ctx := gl (glDisable GL_TEXTURE_2D) ctx in
        let ctx := gl glBlendFunc_SRC_ALPHA_ONE_MINUS_SRC_ALPHA ctx in
        let ctx := gl (glEnable GL_BLEND) ctx in
        let ctx :=
          if wireframe
          then gl (glColor4f (vx (_wireframeColor r)) (vy (_wireframeColor r))
                     (vz (_wireframeColor r)) (Transparency renderInfo)) ctx
          else gl (glColor4f (i2f 0) (i2f 0) (i2f 0) (d2f alpha)) ctx in
        let ctx := gl (glDepthFunc GL_LESS) ctx in
        '(r, drawnPolys) <- InternalDrawShadows (with_gl r ctx) ;;
        let ctx := gl (glDepthFunc GL_LEQUAL) (_glContext r) in
        let ctx := if texture2DWasEnabled then gl (glEnable GL_TEXTURE_2D) ctx else ctx in
        let ctx := gl (glDisable GL_BLEND) ctx in
        let ctx := gl (glColor4f (i2f 1) (i2f 1) (i2f 1) (i2f 1)) ctx in
        let ctx := gl (glDepthMask oldDepthMask) ctx in
        Done (with_gl r ctx, drawnPolys)
      end
    else Done (r, 0)
  end.

(** Lines 60 to 148 of [DrawModel] (bone set-up, lighting, the draw passes
    chosen by the flags) run the bone transformer, which is outside the
    sources; they are the parameter [draw_passes], from the renderer to the
    renderer and [uiDrawnPolys]. *)
Variable draw_passes : Z -> StudioModelRenderer -> result (StudioModelRenderer * Z).

Definition DrawModel (renderInfo : ModelRenderInfo) (flags : Z)
    (r : StudioModelRenderer) : result (StudioModelRenderer * Z) :=
  match Model_ renderInfo with
  | None => Done (refuse_draw r renderInfo, 0)
  | Some studioModel =>
    let r := begin_draw r renderInfo studioModel in
    '(r, uiDrawnPolys) <- draw_passes flags r ;;
    Done (count_polygons r uiDrawnPolys, uiDrawnPolys)
  end.
End Renderer.

(** ** The codec by its steps

    The value-to-byte codec as section 4.3 of the specification lists it, one
    definition a step; the three source functions are compared with it. *)

Section CodecSteps.
Context {A : Arith} {K : StudioConstants}.

(** Step 1: if [end < start], negate the input value. *)
Definition codec_negate (Start End_ value : float) : float :=
if fltb End_ Start then fneg value else value.

(** The range does not wrap: [start + 359 >= end]. *)
Definition codec_range_fits (Start End_ : float) : bool :=
dleb (f2d End_) (dadd (f2d Start) (i2d 359)).

(** Step 2: re-center the value about the midpoint by adding or subtracting
    360. *)
Definition codec_recenter (Start End_ value : float) : float :=
let middle := ddiv (dadd (f2d Start) (f2d End_)) (i2d 2) in
let value :=
  if dltb (dadd middle (i2d 180)) (f2d value) then fsub value (i2f 360) else value in
if dltb (f2d value) (dsub middle (i2d 180)) then fadd value (i2f 360) else value.

(** Step 3: normalize the value by whole turns of 360. *)
Definition codec_wrap (value : float) : result float :=
if fltb (i2f 360) value then
  turns <- d2i (ddiv (f2d value) (i2d 360)) ;;
  Done (d2f (dsub (f2d value) (dmul (i2d turns) (i2d 360))))
else if fltb value (i2f 0) then
  turns <- d2i (dadd (ddiv (f2d value) (i2d (-360))) (i2d 1)) ;;
  Done (d2f (dadd (f2d value) (dmul (i2d turns) (i2d 360))))
else Done value.

(** Steps 1 to 3 for a rotational channel; other channels skip them. *)
Definition codec_normalize (type : Z) (Start End_ value : float) : result float :=
if rotational type then
  let value := codec_negate Start End_ value in
  if codec_range_fits Start End_ then Done (codec_recenter Start End_ value)
  else codec_wrap value
else Done value.

(** Step 4: map [(value - start) / (end - start)] linearly into [[0, top]],
    clamped. *)
Definition codec_encode (top : Z) (Start End_ value : float) : result Z :=
setting <- f2i (fdiv (fmul (i2f top) (fsub value Start)) (fsub End_ Start)) ;;
Done (clamp setting 0 top).

(** The codec: steps 1 to 4 with [top] the largest byte produced. *)
Definition codec (top type : Z) (Start End_ value : float) : result Z :=
normalized <- codec_normalize type Start End_ value ;;
codec_encode top Start End_ normalized.
End CodecSteps.

(** ** Vocabulary of the statements *)

Section Vocabulary.
Context {A : Arith}.

(** The entity has a model and its current sequence is [sequenceDescriptor]. *)
Definition current_sequence (e : StudioModelEntity) (sequenceDescriptor : Sequence)
    : Prop :=
  exists model,
    _editableModel e = Some model /\
    at_index (Sequences model) (_sequence e) = Done sequenceDescriptor.

(** The frame an operation leaves behind, when it has a defined outcome. *)
Definition frame_after (r : result StudioModelEntity) : option float :=
match r with
| Done e => Some (_frame e)
| Undefined _ => None
end.

(** The encoded bytes an operation leaves behind: blend and controller. *)
Definition blending_after (r : result StudioModelEntity) : option (list Z) :=
match r with
| Done e => Some (_blending e)
| Undefined _ => None
end.

Definition controller_after (r : result StudioModelEntity) : option (list Z) :=
match r with
| Done e => Some (_controller e)
| Undefined _ => None
end.

(** The shadow of a transformed vertex, in the words of the specification:
    the vertex projected onto the horizontal plane one unit above [originZ],
    its x and y offset by the x and y of the light direction times
    [vertex.z - originZ].  The offset is taken off. *)
Definition ground_shadow (lightvec : Vec3) (originZ : float) (vertex : Vec3) : Vec3 :=
  {| vx := fsub (vx vertex) (fmul (vx lightvec) (fsub (vz vertex) originZ));
     vy := fsub (vy vertex) (fmul (vy lightvec) (fsub (vz vertex) originZ));
     vz := d2f (dadd (f2d originZ) (i2d 1)) |}.

(** The triangle commands of a mesh, decoded: runs, each a fan or a strip
    over its vertices.  A vertex takes four entries of the stream; the first
    is the index of the transformed vertex, the other three are not read by
    the shadow drawing. *)
Record TriangleVertex : Type := {
  tv_vertex : Z;
  tv_skipped : Z * Z * Z
}.

Record TriangleRun : Type := {
  run_fan : bool;
  run_vertices : list TriangleVertex
}.

(** The stream a run is stored as: the number of its vertices, negated for a
    fan, and then the vertices. *)
Definition run_count (run : TriangleRun) : Z :=
  if run_fan run then - Z.of_nat (length (run_vertices run))
  else Z.of_nat (length (run_vertices run)).

Definition stream_entries (v : TriangleVertex) : list Z :=
  let '(a, b, c) := tv_skipped v in [tv_vertex v; a; b; c].

Definition encode_run (run : TriangleRun) : list Z :=
  run_count run :: flat_map stream_entries (run_vertices run).

(** A run that can be stored and drawn: it has a vertex, its count can be
    negated as an [int], and its indices lie within [vertices] transformed
    vertices. *)
Definition run_ok (vertices : Z) (run : TriangleRun) : Prop :=
  run_vertices run <> [] /\
  INT_MIN < run_count run /\
  Forall (fun v => 0 <= tv_vertex v < vertices) (run_vertices run).

(** [triCmds] holds [runs], closed by a 0; what follows the 0 is not read. *)
Definition encodes (vertices : Z) (triCmds : list Z) (runs : list TriangleRun) : Prop :=
  (exists rest, triCmds = flat_map encode_run runs ++ 0 :: rest) /\
  Forall (run_ok vertices) runs.

(** The meshes hold [drawing], a list of runs for each mesh. *)
Definition meshes_encode (vertices : Z) (meshes : list Mesh)
    (drawing : list (list TriangleRun)) : Prop :=
  Forall2 (fun mesh runs => encodes vertices (mesh_Triangles mesh) runs) meshes drawing.

(** The shadow of a run: the primitive is opened, the shadow of each of its
    vertices is submitted in order, and the primitive is closed.  The indices
    of a run that is [run_ok] name a vertex. *)
Definition shadow_vertex (lightvec : Vec3) (originZ : float) (vertices : list Vec3)
    (v : TriangleVertex) : list GLCall :=
  match nth_error vertices (Z.to_nat (tv_vertex v)) with
  | Some vertex => [glVertex3fv (ground_shadow lightvec originZ vertex)]
  | None => []
  end.

Definition shadow_of_run (lightvec : Vec3) (originZ : float) (vertices : list Vec3)
    (run : TriangleRun) : list GLCall :=
  glBegin (if run_fan run then GL_TRIANGLE_FAN else GL_TRIANGLE_STRIP)
  :: flat_map (shadow_vertex lightvec originZ vertices) (run_vertices run)
  ++ [glEnd].

Definition shadow_of_drawing (lightvec : Vec3) (originZ : float) (vertices : list Vec3)
    (drawing : list (list TriangleRun)) : list GLCall :=
  flat_map (flat_map (shadow_of_run lightvec originZ vertices)) drawing.

(** A call that sets state, as opposed to one that draws a primitive. *)
Definition sets_state (c : GLCall) : Prop :=
  match c with
  | glBegin _ | glVertex3fv _ | glEnd => False
  | _ => True
  end.

(** The context after [issued], oldest first, has been issued. *)
Definition issue (issued : list GLCall) (ctx : GLContext) : GLContext :=
  fold_left (fun ctx c => gl c ctx) issued ctx.

(** The state calls [DrawShadows] issues before and after the shadows. *)
Definition shadow_setup (fixZFighting wireframe : bool) (wireframeColor : Vec3)
    (transparency : float) : list GLCall :=
  [glDepthMask (negb fixZFighting);
   glDisable GL_TEXTURE_2D;
   glBlendFunc_SRC_ALPHA_ONE_MINUS_SRC_ALPHA;
   glEnable GL_BLEND;
   (if wireframe
    then glColor4f (vx wireframeColor) (vy wireframeColor) (vz wireframeColor) transparency
    else glColor4f (i2f 0) (i2f 0) (i2f 0)
           (d2f (dmul (ddiv (i2d 1) (i2d 2)) (f2d transparency))));
   glDepthFunc GL_LESS].

Definition shadow_teardown (texture2DWasEnabled oldDepthMask : bool) : list GLCall :=
  glDepthFunc GL_LEQUAL
  :: (if texture2DWasEnabled then [glEnable GL_TEXTURE_2D] else [])
  ++ [glDisable GL_BLEND; glColor4f (i2f 1) (i2f 1) (i2f 1) (i2f 1);
      glDepthMask oldDepthMask].

(** The vertices submitted through [glVertex3fv], oldest first, and with
    them the polygon count a draw returns. *)
Definition submitted_vertices (ctx : GLContext) : list (float * float * float) :=
flat_map (fun c => match c with
                   | glVertex3fv v => [(vx v, vy v, vz v)]
                   | _ => []
                   end) (calls ctx).

Definition drawn (r : result (StudioModelRenderer * Z))
  : option (list (float * float * float) * Z) :=
match r with
| Done (r', polys) => Some (submitted_vertices (_glContext r'), polys)
| Undefined _ => None
end.

(** The time step [AdvanceFrame] starts from: the elapsed time when the
    argument is 0, the argument otherwise. *)
Definition stride (now : double) (deltaTime : float) (e : StudioModelEntity) : float :=
  if feqb deltaTime (i2f 0) then d2f (dsub now (_animTime e)) else deltaTime.
End Vocabulary.

(** ** What a dispatch hands over *)

Section Due.
Context {A : Arith} {K : StudioConstants}.

(** The test of [GetAnimationEvent] on one event, as a boolean: the event lies
    in [[start, end)], or the sequence loops, [end] has reached the last frame
    and the event lies before [end - NumFrames + 1]. *)
Definition in_window (sequenceDescriptor : Sequence) (start end_ : float)
  (candidate : SequenceEvent) : bool :=
(fleb start (i2f (ev_Frame candidate)) && fltb (i2f (ev_Frame candidate)) end_)
|| (negb (Z.land (seq_Flags sequenceDescriptor) STUDIO_LOOPING =? 0)
    && fleb (i2f (seq_NumFrames sequenceDescriptor - 1)) end_
    && fltb (i2f (ev_Frame candidate))
         (fadd (fsub end_ (i2f (seq_NumFrames sequenceDescriptor))) (i2f 1))).

(** Client events pass only when they are allowed. *)
Definition admitted (allowClientEvents : bool) (candidate : SequenceEvent) : bool :=
allowClientEvents || negb (EVENT_CLIENT <=? ev_EventId candidate).

(** The event as [HandleAnimEvent] receives it. *)
Definition handed_over (candidate : SequenceEvent) : AnimEvent :=
{| ae_id := ev_EventId candidate; ae_options := ev_Options candidate |}.

(** The events a scan returns. *)
Definition due (sequenceDescriptor : Sequence) (start end_ : float)
  (allowClientEvents : bool) (candidate : SequenceEvent) : bool :=
admitted allowClientEvents candidate && in_window sequenceDescriptor start end_ candidate.
End Due.

(** The range of the frame for a sequence of [N] frames, over the rationals:
    0 when there is at most one frame, otherwise within [[0, N-1)]. *)
Definition wrapped_into_range (N : Z) (frame : Q) : Prop :=
  (N <= 1 -> frame = 0%Q) /\
  (1 < N -> (0 <= frame)%Q /\ (frame < inject_Z (N - 1))%Q).

(** The statements over the rationals about the wrap are kept to frames up to
    [FRAME_LIMIT], 2^23.  Binary32 holds every whole number up to 2^24, so
    that within the limit the quotient by [N - 1] does not reach the next
    whole number by rounding and its product with [N - 1] is not rounded. *)
Definition FRAME_LIMIT : Z := 8388608.

Section FrameVocabulary.
Context {A : Arith}.

(** The early return of [AdvanceFrame]: no time step was given and at most a
    millisecond has passed since the last update. *)
Definition returns_early (now : double) (deltaTime : float) (e : StudioModelEntity)
    : bool :=
  feqb deltaTime (i2f 0)
  && dleb (f2d (d2f (dsub now (_animTime e)))) (ddiv (i2d 1) (i2d 1000)).

(** Without looping, the frame the time step [dt] leads to before the clamp:
    a frame below the last one moves on by [dt * FPS * rate], a frame that
    has reached it stays. *)
Definition advanced_frame (e : StudioModelEntity) (sequenceDescriptor : Sequence)
    (dt : float) : float :=
  if fltb (_frame e) (i2f (seq_NumFrames sequenceDescriptor - 1))
  then fadd (_frame e) (fmul (fmul dt (seq_FPS sequenceDescriptor)) (_frameRate e))
  else _frame e.

(** Without looping: the frame is 0 when there is at most one frame;
    otherwise it is exactly [N-1] when the advanced frame has reached or
    passed [N-1], and the advanced frame itself when it has not. *)
Definition clamped_to_last (N : Z) (advanced frame : float) : Prop :=
  (N <= 1 -> frame = i2f 0) /\
  (1 < N ->
   (fleb (i2f (N - 1)) advanced = true -> frame = i2f (N - 1)) /\
   (fleb (i2f (N - 1)) advanced = false -> frame = advanced)).
End FrameVocabulary.

(** ** Concrete models for the runs *)

Module Scenario.
Section WithArith.
Context {A : Arith}.

Definition event (frame id : Z) : SequenceEvent :=
  {| ev_Frame := frame; ev_EventId := id; ev_Options := String.EmptyString |}.

(** A bone controller and a blend channel with integral bounds. *)
Definition controller (index type start end_ : Z) : BoneController :=
{| bc_Index := index; bc_Type := type; bc_Start := i2f start; bc_End := i2f end_ |}.

Definition channel (type start end_ : Z) : BlendData :=
{| bd_Type := type; bd_Start := i2f start; bd_End := i2f end_ |}.

(** A sequence of 30 frames played at [fps] frames per second. *)
Definition sequence30 (fps flags : Z) (events : list SequenceEvent) : Sequence :=
  {| seq_FPS := i2f fps;
     seq_Flags := flags;
     seq_NumFrames := 30;
     seq_BlendData := [];
     seq_SortedEvents := events |}.

(** The same at 30 FPS, without events, with the given blend channels. *)
Definition blended30 (blends : list BlendData) : Sequence :=
{| seq_FPS := i2f 30;
   seq_Flags := 1;
   seq_NumFrames := 30;
   seq_BlendData := blends;
   seq_SortedEvents := [] |}.

Definition model_of (sequence : Sequence) (controllers : list BoneController)
    : EditableStudioModel :=
  {| Sequences := [sequence];
     BoneControllers := controllers;
     Bodyparts := [];
     SkinFamilies := 1%nat;
     Flags := 0 |}.

(** An entity playing sequence 0 of [model] at rate 1, last updated at time 5. *)
Definition entity_of (model : option EditableStudioModel) (blender : Blender)
    (frame lastEventCheck : Z) : StudioModelEntity :=
  {| _editableModel := model;
     _sequence := 0;
     _frame := i2f frame;
     _frameRate := i2f 1;
     _animTime := i2d 5;
     _lastEventCheck := i2f lastEventCheck;
     _loopingMode := UseSequenceSetting;
     _skin := 0;
     _controller := [0; 0; 0; 0];
     _controllerValues := [i2f 0; i2f 0; i2f 0; i2f 0; i2f 0];
     _mouth := 0;
     _mouthValue := i2f 0;
     _blending := [0; 0];
     _blendingValues := [i2f 0; i2f 0];
     _blender := blender |}.

(** The looping 30-frame, 30 FPS sequence of the scenario, at frame 0. *)
Definition looping30 : StudioModelEntity :=
  entity_of (Some (model_of (sequence30 30 1 []) [])) StandardBlender 0 0.

(** One update of the entity: [AdvanceFrame(deltaTime, -1)] and then
[DispatchAnimEvents(true)]; the events handled come back with the entity. *)
Definition tick {K : StudioConstants} (now : double) (deltaTime : float)
  (e : StudioModelEntity) : result (StudioModelEntity * list AnimEvent) :=
'(e, _) <- AdvanceFrame now deltaTime (i2f (-1)) e ;;
DispatchAnimEvents true e.

(** [ticks] updates one second apart, starting at time [now]. *)
Fixpoint play {K : StudioConstants} (ticks : nat) (now : Z) (e : StudioModelEntity)
  (handled : list AnimEvent) : result (StudioModelEntity * list AnimEvent) :=
match ticks with
| O => Done (e, handled)
| S ticks' =>
  '(e, events) <- tick (i2d now) (i2f 1) e ;;
  play ticks' (now + 1) e (handled ++ events)
end.

(** The ids of the events handled, the frame and the event marker reached. *)
Definition observed (r : result (StudioModelEntity * list AnimEvent))
  : option (list Z * float * float) :=
match r with
| Done (e, handled) => Some (map ae_id handled, _frame e, _lastEventCheck e)
| Undefined _ => None
end.

(** The events [DispatchAnimEvents] would handle for the window
[[start, end)], by id. *)
Definition dispatched {K : StudioConstants} (e : StudioModelEntity) (start end_ : Z)
  : option (list Z) :=
match dispatch_loop (S (event_count e)) e {| ae_id := 0; ae_options := String.EmptyString |}
        (i2f start) (i2f end_) 0 true [] with
| Done handled => Some (map ae_id handled)
| Undefined _ => None
end.

(** A looping 30-frame sequence at 10 FPS with the given events, at frame 0. *)
Definition looping_with (events : list SequenceEvent) : StudioModelEntity :=
entity_of (Some (model_of (sequence30 10 1 events) [])) StandardBlender 0 0.

Definition vec3 (x y z : Z) : Vec3 := {| vx := i2f x; vy := i2f y; vz := i2f z |}.

Definition vec4 (x y z w : Z) : Vec4 :=
{| x4 := i2f x; y4 := i2f y; z4 := i2f z; w4 := i2f w |}.

(** A bone transform: the identity moved to [(x, y, z)]. *)
Definition bone_at (x y z : Z) : Mat4 :=
{| col0 := vec4 1 0 0 0; col1 := vec4 0 1 0 0; col2 := vec4 0 0 1 0; col3 := vec4 x y z 1 |}.

(** One mesh: a triangle strip over the vertices 0, 1 and 2. *)
Definition strip : Mesh :=
{| mesh_NumTriangles := 1;
   mesh_Triangles := [3; 0; 0; 0; 0; 1; 1; 0; 0; 2; 2; 0; 0; 0] |}.

Definition studio_model (flags : Z) : EditableStudioModel :=
{| Sequences := [sequence30 30 1 []];
   BoneControllers := [];
   Bodyparts := [[ {| model_Meshes := [strip] |} ]];
   SkinFamilies := 1%nat;
   Flags := flags |}.

Definition render_info (model : option EditableStudioModel) : ModelRenderInfo :=
{| Origin := vec3 0 0 10;
   Angles := vec3 0 0 0;
   Scale := vec3 1 1 1;
   Model_ := model;
   Transparency := i2f 1;
   Sequence_ := 0;
   Frame := i2f 0;
   Bodygroup := 0;
   Skin := 0;
   Blender_ := [0; 0];
   Controller := [0; 0; 0; 0];
   Mouth := 0 |}.

(** A renderer in the middle of draw generation 1, set up for a model with
    the given flags: two bones, three transformed vertices, chrome caches
    never filled. *)
Definition renderer (flags : Z) : StudioModelRenderer :=
{| _logger := [];
   _glContext := {| GL_DEPTH_WRITEMASK := true; texture_2d_enabled := true; calls := [] |};
   _renderInfo := Some (render_info (Some (studio_model flags)));
   _studioModel := Some (studio_model flags);
   _model := Some {| model_Meshes := [strip] |};
   _modelsDrawnCount := 1;
   _drawnPolygonsCount := 0;
   _viewerOrigin := vec3 0 (-50) 0;
   _viewerRight := vec3 1 0 0;
   _lightvec := vec3 1 2 (-1);
   _wireframeColor := vec3 1 0 0;
   _bonetransform := [bone_at 0 0 0; bone_at 0 0 20];
   _xformverts := [vec3 0 0 12; vec3 4 0 30; vec3 0 4 10];
   _chromeage := [0; 0];
   _chromeup := [vec3 0 0 0; vec3 0 0 0];
   _chromeright := [vec3 0 0 0; vec3 0 0 0] |}.
End WithArith.
End Scenario.

(** ** StudioModelEntity.cpp: the readers

    Constants of [StudioModelFileFormat.hpp] that only the readers and the
    lighting use. *)

Class HeaderConstants : Type := {
  STUDIO_MAX_CONTROLLERS : Z;
  STUDIO_NF_FLATSHADE : Z;
  STUDIO_NF_FULLBRIGHT : Z
}.

Definition goldsrc_header : HeaderConstants := {|
  STUDIO_MAX_CONTROLLERS := 4;
  STUDIO_NF_FLATSHADE := 1;
  STUDIO_NF_FULLBRIGHT := 4
|}.

Section EntityReaders.
Context {A : Arith} {K : StudioConstants} {HC : HeaderConstants}.

(** The virtual [AlwaysHasBlender] of the two blender classes is declared in
    [StudioModelEntity.hpp]; [LinearMovement], [BBMin] and [BBMax] are fields
    of a sequence that only [GetSequenceInfo] and [ExtractBbox] read, and
    [glm::length] needs a square root.  They are parameters. *)
Variable AlwaysHasBlender : Blender -> bool.
Variable LinearMovement : Sequence -> Vec3.
Variable BBMin : Sequence -> Vec3.
Variable BBMax : Sequence -> Vec3.
Variable glm_length : Vec3 -> float.

(** [_editableModel = model] *)
Definition SetEditableModel (model : option EditableStudioModel)
    (e : StudioModelEntity) : StudioModelEntity :=
  {| _editableModel := model;
     _sequence := _sequence e;
     _frame := _frame e;
     _frameRate := _frameRate e;
     _animTime := _animTime e;
     _lastEventCheck := _lastEventCheck e;
     _loopingMode := _loopingMode e;
     _skin := _skin e;
     _controller := _controller e;
     _controllerValues := _controllerValues e;
     _mouth := _mouth e;
     _mouthValue := _mouthValue e;
     _blending := _blending e;
     _blendingValues := _blendingValues e;
     _blender := _blender e |}.

(** [GetControllerByIndex]; the [assert] guards the array and a failed
    assertion is a fault. *)
Definition GetControllerByIndex (controller : Z) (e : StudioModelEntity) : result Z :=
  if (0 <=? controller) && (controller <? STUDIO_MAX_CONTROLLERS)
  then at_index (_controller e) controller
  else Undefined OutOfBounds.

Definition GetControllerValue (controller : Z) (e : StudioModelEntity) : result float :=
  match _editableModel e with
  | None => Done (i2f 0)
  | Some _ =>
    if (controller <? 0) || (STUDIO_TOTAL_CONTROLLERS <=? controller) then Done (i2f 0)
    else at_index (_controllerValues e) controller
  end.

Definition GetBlendingByIndex (blender : Z) (e : StudioModelEntity) : result Z :=
  if (0 <=? blender) && (blender <? STUDIO_MAX_BLENDERS)
  then at_index (_blending e) blender
  else Undefined OutOfBounds.

Definition GetBlendingValue (blender : Z) (e : StudioModelEntity) : result float :=
  match _editableModel e with
  | None => Done (i2f 0)
  | Some model =>
    if (blender <? 0) || (STUDIO_MAX_BLENDERS <=? blender) then Done (i2f 0) else
    if no_sequence model (_sequence e) then Done (i2f 0) else
    sequenceDescriptor <- at_index (Sequences model) (_sequence e) ;;
    unused <- (if negb (AlwaysHasBlender (_blender e)) then
                 blendData <- at_index (seq_BlendData sequenceDescriptor) blender ;;
                 Done (bd_Type blendData =? 0)
               else Done false) ;;
    if unused then Done (i2f 0) else at_index (_blendingValues e) blender
  end.

(** [GetSequenceInfo(frameRate, groundSpeed)]: the two values written. *)
Definition GetSequenceInfo (e : StudioModelEntity) : result (float * float) :=
  info <-
    (if negb (_sequence e =? -1) then
       match _editableModel e with
       | None => Undefined NullDereference
       | Some model =>
         sequenceDescriptor <- at_index (Sequences model) (_sequence e) ;;
         if 1 <? seq_NumFrames sequenceDescriptor then
           let frameRate := seq_FPS sequenceDescriptor in
           let groundSpeed := glm_length (LinearMovement sequenceDescriptor) in
           last <- isub (seq_NumFrames sequenceDescriptor) 1 ;;
           Done (Some (frameRate,
                       fdiv (fmul groundSpeed (seq_FPS sequenceDescriptor)) (i2f last)))
         else Done None
       end
     else Done None) ;;
  match info with
  | Some written => Done written
  | None => Done (i2f 256, i2f 0)
  end.

(** [ExtractBbox(mins, maxs)]: the two vectors written. *)
Definition ExtractBbox (e : StudioModelEntity) : result (Vec3 * Vec3) :=
  let zero := {| vx := i2f 0; vy := i2f 0; vz := i2f 0 |} in
  if 0 <=? _sequence e then
    match _editableModel e with
    | None => Undefined NullDereference
    | Some model =>
      if lt_size (_sequence e) (Sequences model) then
        sequenceDescriptor <- at_index (Sequences model) (_sequence e) ;;
        Done (BBMin sequenceDescriptor, BBMax sequenceDescriptor)
      else Done (zero, zero)
    end
  else Done (zero, zero).
End EntityReaders.

(** ** StudioModelRenderer.cpp: lighting *)

Section Lighting.
Context {A : Arith} {HC : HeaderConstants}.

(** [std::max(a, b)]: [b] when [a < b], else [a]. *)
Definition fmax (a b : float) : float := if fltb a b then b else a.

(** [v += s], [v -= s] and [a * b] on a [glm::vec3], componentwise. *)
Definition vec3_offset (v : Vec3) (s : float) : Vec3 :=
  {| vx := fadd (vx v) s; vy := fadd (vy v) s; vz := fadd (vz v) s |}.

Definition vec3_reduce (v : Vec3) (s : float) : Vec3 :=
  {| vx := fsub (vx v) s; vy := fsub (vy v) s; vz := fsub (vz v) s |}.

Definition vec3_mul (a b : Vec3) : Vec3 :=
  {| vx := fmul (vx a) (vx b); vy := fmul (vy a) (vy b); vz := fmul (vz a) (vz b) |}.

(** [if (x <= 0) x = 0], on each component. *)
Definition vec3_floor0 (v : Vec3) : Vec3 :=
  {| vx := if fleb (vx v) (i2f 0) then i2f 0 else vx v;
     vy := if fleb (vy v) (i2f 0) then i2f 0 else vy v;
     vz := if fleb (vz v) (i2f 0) then i2f 0 else vz v |}.

(** [Lighting(lv, bone, flags, normal)]: the value written to [lv].  The
    members read are arguments: [_ambientlight], an [int] as its cast shows,
    [_shadelight], [_lambert], [_lightcolor] and the per-bone light vectors
    [_blightvec].  The literals [0.1f] and [0.8f] are the floats nearest to
    1/10 and 4/5. *)
Definition Lighting (ambientlight : Z) (shadelight lambert : float)
    (lightcolor : Vec3) (blightvec : list Vec3)
    (bone flags : Z) (normal : Vec3) : result Vec3 :=
  let ambient := fmax (fdiv (i2f 1) (i2f 10)) (fdiv (i2f ambientlight) (i2f 255)) in
  let shade := fdiv shadelight (i2f 255) in
  let illum := {| vx := ambient; vy := ambient; vz := ambient |} in
  if negb (Z.land flags STUDIO_NF_FULLBRIGHT =? 0) then
    Done {| vx := i2f 1; vy := i2f 1; vz := i2f 1 |}
  else
    illum <-
      (if negb (Z.land flags STUDIO_NF_FLATSHADE =? 0) then
         Done (vec3_offset illum (fmul (fdiv (i2f 4) (i2f 5)) shade))
       else
         lightvec <- at_index blightvec bone ;;
         let lightcos := glm_dot normal lightvec in
         let lightcos := if fltb (i2f 1) lightcos then i2f 1 else lightcos in
         let illum := vec3_offset illum (fdiv shadelight (i2f 255)) in
         let r := lambert in
         let r := if fltb r (i2f 1) then i2f 1 else r in
         let lightcos := fdiv (fadd lightcos (fsub r (i2f 1))) r in
         let illum :=
           if fltb (i2f 0) lightcos then vec3_reduce illum (fmul lightcos shade)
           else illum in
         Done (vec3_floor0 illum)) ;;
    let max := fmax (fmax (vx illum) (vy illum)) (vz illum) in
    let lv := if fltb (i2f 1) max then vec3_scale illum (fdiv (i2f 1) max) else illum in
    Done (vec3_mul lv lightcolor).
End Lighting.

(** ** Vocabulary of the further statements *)

Section MoreVocabulary.
Context {A : Arith}.

(** The sequence index is -1, no sequence, or an index into [Sequences]. *)
Definition sequence_valid (model : EditableStudioModel) (sequence : Z) : Prop :=
  sequence = -1 \/ 0 <= sequence < Z.of_nat (length (Sequences model)).

(** The encoded settings fit the [std::uint8_t] they are stored in. *)
Definition is_byte (b : Z) : Prop := 0 <= b <= 255.

Definition bytes_in_range (e : StudioModelEntity) : Prop :=
  Forall is_byte (_controller e) /\ Forall is_byte (_blending e) /\ is_byte (_mouth e).

(** OpenGL's rule for immediate mode: vertices are submitted between
    [glBegin] and [glEnd] only, state is changed outside only, and every
    [glBegin] is closed.  [bracket inside issued] is whether a primitive is
    open after [issued], or nothing when the rule is broken. *)
Fixpoint bracket (inside : bool) (issued : list GLCall) : option bool :=
  match issued with
  | [] => Some inside
  | c :: rest =>
    match c with
    | glBegin _ => if inside then None else bracket true rest
    | glEnd => if inside then bracket false rest else None
    | glVertex3fv _ => if inside then bracket true rest else None
    | _ => if inside then None else bracket false rest
    end
  end.

Definition well_bracketed (issued : list GLCall) : Prop :=
  bracket false issued = Some false.

(** What a loop of [InternalDrawShadows] does to the context: the depth mask
    and the texture switch stay, and the calls added keep the rule, from
    [inside] to [inside]. *)
Definition adds_primitives (inside : bool) (ctx ctx' : GLContext) : Prop :=
  GL_DEPTH_WRITEMASK ctx' = GL_DEPTH_WRITEMASK ctx /\
  texture_2d_enabled ctx' = texture_2d_enabled ctx /\
  exists issued, calls ctx' = calls ctx ++ issued /\ bracket inside issued = Some inside.

(** A triangle command stream over [vertices] transformed vertices: runs of
    a non-zero length [i] (a fan when negative), each followed by four
    entries a vertex of which the first is the vertex index, closed by 0. *)
Inductive command_stream (vertices : Z) : list Z -> Prop :=
| stream_end (rest : list Z) : command_stream vertices (0 :: rest)
| stream_run (i : Z) (run rest : list Z) :
    i <> 0 -> INT_MIN < i <= INT_MAX ->
    length run = (4 * Z.abs_nat i)%nat ->
    (forall k, (k < Z.abs_nat i)%nat ->
               exists index, nth_error run (4 * k) = Some index /\ 0 <= index < vertices) ->
    command_stream vertices rest ->
    command_stream vertices (i :: run ++ rest).

(** The decoded value of a byte [b] of a linear channel over [[Start, End]]
    with [top] steps. *)
Definition decoded (top : Z) (Start End_ : Q) (b : Z) : Q :=
  (Start + inject_Z b * (End_ - Start) / inject_Z top)%Q.

(** The statements over the rationals about the channels are kept to ranges
    within [RANGE_LIMIT], 2^23, on either side of 0: there the mapping does
    not overflow in binary32, and whole numbers, a full turn added or taken
    off, are binary32 numbers. *)
Definition RANGE_LIMIT : Z := 8388608.

(** The OpenGL state that the calls of [DrawShadows] set: the depth write
    mask, the two switches, the depth function, whether the blend function
    is (SRC_ALPHA, ONE_MINUS_SRC_ALPHA), and the current colour. *)
Record GLState : Type := {
  st_depth_mask : bool;
  st_texture_2d : bool;
  st_blend : bool;
  st_depth_func : GLDepthFunc;
  st_alpha_blend_func : bool;
  st_color : float * float * float * float
}.

Definition set_state (s : GLState) (c : GLCall) : GLState :=
  match c with
  | glDepthMask flag =>
    {| st_depth_mask := flag; st_texture_2d := st_texture_2d s; st_blend := st_blend s;
       st_depth_func := st_depth_func s; st_alpha_blend_func := st_alpha_blend_func s;
       st_color := st_color s |}
  | glDisable GL_TEXTURE_2D =>
    {| st_depth_mask := st_depth_mask s; st_texture_2d := false; st_blend := st_blend s;
       st_depth_func := st_depth_func s; st_alpha_blend_func := st_alpha_blend_func s;
       st_color := st_color s |}
  | glEnable GL_TEXTURE_2D =>
    {| st_depth_mask := st_depth_mask s; st_texture_2d := true; st_blend := st_blend s;
       st_depth_func := st_depth_func s; st_alpha_blend_func := st_alpha_blend_func s;
       st_color := st_color s |}
  | glDisable GL_BLEND =>
    {| st_depth_mask := st_depth_mask s; st_texture_2d := st_texture_2d s;
       st_blend := false;
       st_depth_func := st_depth_func s; st_alpha_blend_func := st_alpha_blend_func s;
       st_color := st_color s |}
  | glEnable GL_BLEND =>
    {| st_depth_mask := st_depth_mask s; st_texture_2d := st_texture_2d s;
       st_blend := true;
       st_depth_func := st_depth_func s; st_alpha_blend_func := st_alpha_blend_func s;
       st_color := st_color s |}
  | glBlendFunc_SRC_ALPHA_ONE_MINUS_SRC_ALPHA =>
    {| st_depth_mask := st_depth_mask s; st_texture_2d := st_texture_2d s;
       st_blend := st_blend s;
       st_depth_func := st_depth_func s; st_alpha_blend_func := true;
       st_color := st_color s |}
  | glColor4f red green blue alpha =>
    {| st_depth_mask := st_depth_mask s; st_texture_2d := st_texture_2d s;
       st_blend := st_blend s;
       st_depth_func := st_depth_func s; st_alpha_blend_func := st_alpha_blend_func s;
       st_color := (red, green, blue, alpha) |}
  | glDepthFunc func =>
    {| st_depth_mask := st_depth_mask s; st_texture_2d := st_texture_2d s;
       st_blend := st_blend s;
       st_depth_func := func; st_alpha_blend_func := st_alpha_blend_func s;
       st_color := st_color s |}
  | glBegin _ | glVertex3fv _ | glEnd => s
  end.

(** The state after [issued], oldest first, starting from [s]. *)
Definition state_after (issued : list GLCall) (s : GLState) : GLState :=
  fold_left set_state issued s.
End MoreVocabulary.

(** * Properties *)

(** ** Outcomes, integers and vectors *)

Lemma bind_Done {T U} (r : result T) (k : T -> result U) (u : U) :
  bind r k = Done u -> exists t, r = Done t /\ k t = Done u.
Proof.
  destruct r as [t|w]; simpl; intros H; [exists t; auto | discriminate].
Qed.

Lemma as_int_fits z : INT_MIN <= z <= INT_MAX -> as_int z = Done z.
Proof.
  intros [H1 H2]. unfold as_int, fits_int.
  apply Z.leb_le in H1. apply Z.leb_le in H2. now rewrite H1, H2.
Qed.

Lemma at_index_Done {T} (v : list T) i x :
  at_index v i = Done x ->
  0 <= i < Z.of_nat (length v) /\ nth_error v (Z.to_nat i) = Some x.
Proof.
  unfold at_index. destruct (i <? 0) eqn:Hneg; [discriminate|].
  apply Z.ltb_ge in Hneg.
  destruct (nth_error v (Z.to_nat i)) eqn:Hn; [|discriminate].
  intros H; inversion H; subst. split; [|reflexivity].
  assert (Hlt : (Z.to_nat i < length v)%nat)
    by (apply nth_error_Some; congruence).
  lia.
Qed.

Lemma at_index_In {T} (v : list T) i x : at_index v i = Done x -> In x v.
Proof.
  intros H. apply at_index_Done in H as [_ H]. eapply nth_error_In; eauto.
Qed.

Lemma size_le_length {T} (v : list T) : size_le v (Z.of_nat (length v)) = true.
Proof.
  unfold size_le, to_size_t.
  destruct (Z.of_nat (length v) <? 0) eqn:Hneg; [apply Z.ltb_lt in Hneg; lia|].
  apply Z.leb_refl.
Qed.

Lemma nth_error_replace_nth {T} (v : list T) n x :
  (n < length v)%nat -> nth_error (replace_nth v n x) n = Some x.
Proof.
  revert n; induction v as [|y v IH]; intros [|n]; simpl; intros H;
    try lia; auto.
  apply IH. lia.
Qed.

Lemma at_index_store_at {T} (v v' : list T) i x :
  store_at v i x = Done v' -> at_index v' i = Done x.
Proof.
  unfold store_at, at_index.
  destruct (i <? 0) eqn:Hneg; simpl; [discriminate|].
  destruct (Z.of_nat (length v) <=? i) eqn:Hlen; [discriminate|].
  intros H; inversion H; subst.
  apply Z.ltb_ge in Hneg. apply Z.leb_gt in Hlen.
  rewrite nth_error_replace_nth by lia. reflexivity.
Qed.

(** ** Exact arithmetic *)

Lemma Qltb_lt (x y : Q) : Qltb x y = true <-> (x < y)%Q.
Proof.
  unfold Qltb. rewrite negb_true_iff. split; intros H.
  - apply Qnot_le_lt. intros Hle. apply Qle_bool_iff in Hle. congruence.
  - destruct (Qle_bool y x) eqn:E; [|reflexivity].
    apply Qle_bool_iff in E. exfalso. apply (Qlt_not_le _ _ H E).
Qed.

Lemma Qltb_ge (x y : Q) : Qltb x y = false <-> (y <= x)%Q.
Proof.
  unfold Qltb. rewrite negb_false_iff. apply Qle_bool_iff.
Qed.

Lemma Qleb_gt (x y : Q) : Qleb x y = false <-> (y < x)%Q.
Proof.
  unfold Qleb. split; intros H.
  - apply Qnot_le_lt. intros Hle. apply Qle_bool_iff in Hle. congruence.
  - destruct (Qle_bool x y) eqn:E; [|reflexivity].
    apply Qle_bool_iff in E. exfalso. apply (Qlt_not_le _ _ H E).
Qed.

Lemma Qeqb_eq (x y : Q) : Qeqb x y = true <-> (x == y)%Q.
Proof. apply Qeq_bool_iff. Qed.

(** Truncation is the floor of a non-negative rational. *)
Lemma Qtrunc_floor (q : Q) : (0 <= q)%Q -> Qtrunc q = Qfloor q.
Proof.
  destruct q as [n d]. unfold Qle, Qtrunc, Qfloor. simpl. intros H.
  apply Z.quot_div_nonneg; lia.
Qed.

Lemma Qtrunc_bounds (q : Q) :
  (0 <= q)%Q -> (inject_Z (Qtrunc q) <= q /\ q < inject_Z (Qtrunc q + 1))%Q.
Proof.
  intros H. rewrite (Qtrunc_floor q H). split; [apply Qfloor_le | apply Qlt_floor].
Qed.

Lemma Qtrunc_nonneg (q : Q) : (0 <= q)%Q -> 0 <= Qtrunc q.
Proof.
  intros H. rewrite (Qtrunc_floor q H).
  change 0 with (Qfloor 0). now apply Qfloor_resp_le.
Qed.

Lemma inject_Z_le_iff (a b : Z) : (inject_Z a <= inject_Z b)%Q <-> a <= b.
Proof. rewrite Zle_Qle. reflexivity. Qed.

Lemma inject_Z_lt_iff (a b : Z) : (inject_Z a < inject_Z b)%Q <-> a < b.
Proof. rewrite Zlt_Qlt. reflexivity. Qed.

(** The quotient and the remainder of the wrap, over the rationals: for a
    non-negative [frame] and a positive [last], [frame - trunc(frame/last) *
    last] lies in [[0, last)]. *)
Lemma Qwrap_bounds (frame : Q) (last : Z) :
  (0 <= frame)%Q -> 0 < last ->
  let q := Qtrunc (frame / inject_Z last) in
  0 <= q /\
  (inject_Z (q * last) <= frame)%Q /\
  (0 <= frame - inject_Z (q * last))%Q /\
  (frame - inject_Z (q * last) < inject_Z last)%Q.
Proof.
  intros Hf Hl q.
  assert (HlQ : (0 < inject_Z last)%Q) by (apply (inject_Z_lt_iff 0 last); exact Hl).
  assert (Hdiv : (0 <= frame / inject_Z last)%Q).
  { apply Qle_shift_div_l; [exact HlQ|]. lra. }
  destruct (Qtrunc_bounds _ Hdiv) as [Hlo Hhi]. fold q in Hlo, Hhi.
  assert (Hq : 0 <= q) by (apply Qtrunc_nonneg; exact Hdiv).
  assert (Hmul : (inject_Z q * inject_Z last <= frame)%Q).
  { apply (Qmult_le_r _ _ (inject_Z last) HlQ) in Hlo.
    assert (E : (frame / inject_Z last * inject_Z last == frame)%Q)
      by (field; lra).
    rewrite E in Hlo. exact Hlo. }
  assert (Hmul' : (frame < inject_Z (q + 1) * inject_Z last)%Q).
  { apply (Qmult_lt_r _ _ (inject_Z last) HlQ) in Hhi.
    assert (E : (frame / inject_Z last * inject_Z last == frame)%Q)
      by (field; lra).
    rewrite E in Hhi. exact Hhi. }
  rewrite inject_Z_plus in Hmul'. rewrite inject_Z_mult.
  change (inject_Z 1) with 1%Q in Hmul'.
  repeat split; [exact Hq | exact Hmul | lra | lra].
Qed.

(** ** The frame wrap *)

Lemma wrap_frame_exact (frame : Q) (last : Z) :
  (0 <= frame)%Q -> (frame <= inject_Z INT_MAX)%Q -> 0 < last ->
  exists r, @wrap_frame exactQ frame last = Done r /\
            (0 <= r)%Q /\ (r < inject_Z last)%Q.
Proof.
  intros Hf Hmax Hl.
  destruct (Qwrap_bounds frame last Hf Hl) as (Hq & Hmul & Hlo & Hhi).
  set (q := Qtrunc (frame / inject_Z last)) in *.
  assert (Hp : q * last <= INT_MAX).
  { apply inject_Z_le_iff. eapply Qle_trans; eauto. }
  assert (Hq' : q <= INT_MAX) by nia.
  exists (frame - inject_Z (q * last))%Q. split; [|split; assumption].
  unfold wrap_frame, f2i, cast_to. cbn [ftrunc fdiv i2f fsub exactQ].
  fold q.
  assert (E1 : (INT_MIN <=? q) && (q <=? INT_MAX) = true).
  { apply andb_true_iff. split; apply Z.leb_le; [unfold INT_MIN; lia | exact Hq']. }
  rewrite E1. cbn [bind]. unfold imul.
  rewrite as_int_fits by (unfold INT_MIN; nia).
  reflexivity.
Qed.

Lemma current_sequence_valid {A : Arith} (model : EditableStudioModel) sequence sd :
  at_index (Sequences model) sequence = Done sd ->
  no_sequence model sequence = false.
Proof.
  intros H. apply at_index_Done in H as [[H0 H1] _].
  unfold no_sequence, size_le, to_size_t.
  destruct (sequence <? 0) eqn:Hneg; [apply Z.ltb_lt in Hneg; lia|].
  simpl. apply Z.leb_gt. exact H1.
Qed.

Lemma isub_one (n : Z) : INT_MIN < n <= INT_MAX -> isub n 1 = Done (n - 1).
Proof. intros H. unfold isub. apply as_int_fits. unfold INT_MIN, INT_MAX in *. lia. Qed.

Section FrameRange.
Context {K : StudioConstants}.
#[local] Existing Instance exactQ.
Variable e : @StudioModelEntity exactQ.
Variable sd : @Sequence exactQ.
Hypothesis Hcurrent : current_sequence e sd.
Hypothesis Hframes : INT_MIN < seq_NumFrames sd <= INT_MAX.

Let N := seq_NumFrames sd.

Lemma within_the_limit (frame : Q) :
  1 < N -> (frame + inject_Z N <= inject_Z FRAME_LIMIT)%Q ->
  (frame <= inject_Z INT_MAX)%Q.
Proof.
  intros HN H.
  assert (H1 : (inject_Z 1 < inject_Z N)%Q) by (apply inject_Z_lt_iff; exact HN).
  assert (H2 : (inject_Z FRAME_LIMIT <= inject_Z INT_MAX)%Q).
  { apply inject_Z_le_iff. unfold FRAME_LIMIT, INT_MAX. lia. }
  change (inject_Z 1) with 1%Q in H1. lra.
Qed.

Lemma SetFrame_in_range (now : double) (frame : float) :
  (0 <= frame)%Q -> (frame + inject_Z N <= inject_Z FRAME_LIMIT)%Q ->
  exists e', SetFrame now frame e = Done e' /\ wrapped_into_range N (_frame e').
Proof.
  intros Hf Hmax. destruct Hcurrent as (model & Hmodel & Hseq).
  unfold SetFrame.
  assert (Hne : feqb frame (i2f (-1)) = false).
  { cbn [feqb i2f exactQ]. destruct (Qeqb frame (inject_Z (-1))) eqn:E; [|reflexivity].
    apply Qeqb_eq in E. rewrite E in Hf. exfalso. revert Hf. apply Qlt_not_le.
    reflexivity. }
  rewrite Hne, Hmodel, (current_sequence_valid _ _ _ Hseq), Hseq. cbn [bind].
  fold N. destruct (N <=? 1) eqn:HN.
  - apply Z.leb_le in HN. eexists; split; [reflexivity|].
    split; [reflexivity | lia].
  - apply Z.leb_gt in HN. rewrite (isub_one N Hframes). cbn [bind].
    destruct (wrap_frame_exact frame (N - 1) Hf) as (r & Hr & H0 & H1);
      [apply within_the_limit; assumption | lia |].
    rewrite Hr. cbn [bind]. eexists; split; [reflexivity|].
    split; [lia | intros _; split; assumption].
Qed.

(** The time step after the three adjustments of [AdvanceFrame]. *)
Lemma step_bounds (now : double) (deltaTime maximum : float) :
  (0 <= deltaTime)%Q ->
  (maximum == inject_Z (-1) \/ 0 <= maximum)%Q ->
  returns_early now deltaTime e = false ->
  let dt0 := if feqb deltaTime (i2f 0) then d2f (dsub now (_animTime e)) else deltaTime in
  let dt1 := if deqb (_animTime e) (i2d 0) then i2f 0 else dt0 in
  let dt2 := if negb (feqb maximum (i2f (-1))) then fmin dt1 maximum else dt1 in
  (0 <= dt2)%Q /\ (dt2 <= stride now deltaTime e)%Q.
Proof.
  intros Hd Hm Hearly dt0 dt1 dt2. unfold returns_early in Hearly.
  assert (H0 : (0 <= dt0)%Q /\ dt0 = @stride exactQ now deltaTime e).
  { split; [|reflexivity]. subst dt0.
    destruct (@feqb exactQ deltaTime (i2f 0)) eqn:E; [|exact Hd].
    simpl in Hearly. cbn [dleb f2d d2f ddiv i2d dsub exactQ] in *.
    apply Qleb_gt in Hearly.
    apply Qlt_le_weak. eapply Qlt_trans; [|exact Hearly]. reflexivity. }
  destruct H0 as [H0 Hs]. rewrite <- Hs.
  assert (H1 : (0 <= dt1)%Q /\ (dt1 <= dt0)%Q).
  { subst dt1. destruct (deqb (_animTime e) (i2d 0)).
    - cbn [i2f exactQ]. split; [apply Qle_refl | exact H0].
    - split; [exact H0 | apply Qle_refl]. }
  destruct H1 as [H1 H1'].
  subst dt2. destruct (negb (@feqb exactQ maximum (i2f (-1)))) eqn:E.
  - unfold fmin. destruct (@fltb exactQ maximum dt1) eqn:E2.
    + cbn [fltb exactQ] in E2. apply Qltb_lt in E2.
      destruct Hm as [Hm|Hm].
      * apply negb_true_iff in E. cbn [feqb i2f exactQ] in E.
        apply Qeqb_eq in Hm. congruence.
      * split; [exact Hm|]. apply Qlt_le_weak.
        eapply Qlt_le_trans; eauto.
    + split; assumption.
  - split; assumption.
Qed.

Lemma AdvanceFrame_loop_in_range (now : double) (deltaTime maximum : float) :
  shouldLoop (_loopingMode e) sd = true ->
  (0 <= _frame e)%Q -> (0 <= deltaTime)%Q ->
  (maximum == inject_Z (-1) \/ 0 <= maximum)%Q ->
  (0 <= seq_FPS sd)%Q -> (0 <= _frameRate e)%Q ->
  (_frame e + stride now deltaTime e * seq_FPS sd * _frameRate e + inject_Z N
     <= inject_Z FRAME_LIMIT)%Q ->
  exists e' dt,
    AdvanceFrame now deltaTime maximum e = Done (e', dt) /\
    if returns_early now deltaTime e then e' = e /\ dt = i2f 0
    else wrapped_into_range N (_frame e').
Proof.
  intros Hloop Hf Hd Hm Hfps Hrate Hbound.
  destruct Hcurrent as (model & Hmodel & Hseq).
  unfold AdvanceFrame.
  rewrite Hmodel, (current_sequence_valid _ _ _ Hseq), Hseq. cbn [bind]. cbv zeta.
  fold (returns_early now deltaTime e).
  destruct (returns_early now deltaTime e) eqn:Hearly.
  { eexists _, _. split; [reflexivity | split; reflexivity]. }
  destruct (step_bounds now deltaTime maximum Hd Hm Hearly) as [Hdt0 Hdt1].
  cbv zeta in Hdt0, Hdt1.
  set (dt := if negb (@feqb exactQ maximum (i2f (-1))) then _ else _) in *.
  rewrite Hloop. fold N. rewrite (isub_one N Hframes). cbn [bind].
  destruct (N <=? 1) eqn:HN.
  { apply Z.leb_le in HN. eexists _, _. split; [reflexivity|].
    split; [reflexivity | lia]. }
  apply Z.leb_gt in HN. rewrite orb_true_r. cbn [fadd fmul exactQ].
  set (increment := (dt * seq_FPS sd * _frameRate e)%Q).
  assert (Hinc0 : (0 <= increment)%Q).
  { subst increment. apply Qmult_le_0_compat; [apply Qmult_le_0_compat|]; assumption. }
  assert (Hinc1 : (increment <= stride now deltaTime e * seq_FPS sd * _frameRate e)%Q).
  { subst increment.
    apply Qmult_le_compat_r; [|exact Hrate].
    apply Qmult_le_compat_r; [exact Hdt1 | exact Hfps]. }
  destruct (wrap_frame_exact (_frame e + increment) (N - 1)) as (r & Hr & H0 & H1);
    [lra | apply within_the_limit; [exact HN | lra] | lia |].
  rewrite Hr. cbn [bind]. eexists _, _. split; [reflexivity|].
  split; [lia | intros _; split; assumption].
Qed.
End FrameRange.

Section FrameClamp.
Context {A : Arith} {K : StudioConstants}.
Variable e : StudioModelEntity.
Variable sd : Sequence.
Hypothesis Hcurrent : current_sequence e sd.
Hypothesis Hframes : INT_MIN < seq_NumFrames sd <= INT_MAX.

(** Without looping the frame is the advanced frame, clamped; no arithmetic
    is needed, so that this holds in binary32 as over the rationals. *)
Lemma AdvanceFrame_clamped (now : double) (deltaTime maximum : float) :
  shouldLoop (_loopingMode e) sd = false ->
  exists e' dt,
    AdvanceFrame now deltaTime maximum e = Done (e', dt) /\
    if returns_early now deltaTime e then e' = e /\ dt = i2f 0
    else clamped_to_last (seq_NumFrames sd) (advanced_frame e sd dt) (_frame e').
Proof.
  intros Hloop. destruct Hcurrent as (model & Hmodel & Hseq).
  unfold AdvanceFrame.
  rewrite Hmodel, (current_sequence_valid _ _ _ Hseq), Hseq. cbn [bind]. cbv zeta.
  fold (returns_early now deltaTime e).
  destruct (returns_early now deltaTime e).
  { eexists _, _. split; [reflexivity | split; reflexivity]. }
  set (dt := if negb (feqb maximum (i2f (-1))) then _ else _).
  rewrite Hloop, (isub_one _ Hframes). cbn [bind].
  rewrite !orb_false_r. fold (advanced_frame e sd dt).
  destruct (seq_NumFrames sd <=? 1) eqn:HN.
  { apply Z.leb_le in HN. eexists _, _. split; [reflexivity|].
    split; [reflexivity | lia]. }
  apply Z.leb_gt in HN.
  destruct (fleb (i2f (seq_NumFrames sd - 1)) (advanced_frame e sd dt)) eqn:Hlast;
    cbn [bind]; eexists _, _; (split; [reflexivity|]);
    (split; [lia|]); intros _; cbn [_frame with_frame]; rewrite Hlast;
    split; intros H; try discriminate; reflexivity.
Qed.
End FrameClamp.

(** C1, as amended.  For a current sequence of [N] frames (an [int] with
    [N - 1] representable).

    Over the rationals, with frames up to [FRAME_LIMIT], where binary32
    computes the wrap without rounding:
    - [SetFrame] with a frame between 0 and [FRAME_LIMIT - N] leaves the frame
      at 0 when [N <= 1] and within [[0, N-1)] when [N > 1], whatever the
      looping mode;
    - [AdvanceFrame] with looping, from a non-negative frame, with a
      non-negative maximum (or -1), with a time step, an FPS and a playback
      rate between 0 and [FRAME_LIMIT] each, so that their product does not
      overflow in binary32, and an advanced frame of at most
      [FRAME_LIMIT - N], returns early and leaves the entity as it was, or
      else leaves the frame at 0 when [N <= 1] and within [[0, N-1)] when
      [N > 1].

    In any arithmetic, binary32 included:
    - [AdvanceFrame] without looping returns early and leaves the entity as
      it was, or else leaves the frame at 0 when [N <= 1]; when [N > 1] it
      leaves exactly [N-1] once the advanced frame has reached or passed
      [N-1], and the advanced frame itself before that. *)
Theorem frame_wrap_invariant {K : StudioConstants} :
  (forall (e : @StudioModelEntity exactQ) (sd : @Sequence exactQ) (now : @double exactQ),
      current_sequence e sd ->
      INT_MIN < seq_NumFrames sd <= INT_MAX ->
      (forall frame : @float exactQ,
          (0 <= frame)%Q ->
          (frame + inject_Z (seq_NumFrames sd) <= inject_Z FRAME_LIMIT)%Q ->
          exists e', @SetFrame exactQ now frame e = Done e' /\
                     wrapped_into_range (seq_NumFrames sd) (_frame e'))
      /\
      (forall deltaTime maximum : @float exactQ,
          shouldLoop (_loopingMode e) sd = true ->
          (0 <= _frame e)%Q -> (0 <= deltaTime)%Q ->
          (maximum == inject_Z (-1) \/ 0 <= maximum)%Q ->
          (stride now deltaTime e <= inject_Z FRAME_LIMIT)%Q ->
          (0 <= seq_FPS sd)%Q -> (seq_FPS sd <= inject_Z FRAME_LIMIT)%Q ->
          (0 <= _frameRate e)%Q -> (_frameRate e <= inject_Z FRAME_LIMIT)%Q ->
          (_frame e + stride now deltaTime e * seq_FPS sd * _frameRate e
             + inject_Z (seq_NumFrames sd) <= inject_Z FRAME_LIMIT)%Q ->
          exists e' dt,
            @AdvanceFrame exactQ K now deltaTime maximum e = Done (e', dt) /\
            if returns_early now deltaTime e then e' = e /\ dt = 0%Q
            else wrapped_into_range (seq_NumFrames sd) (_frame e')))
  /\
  (forall (A : Arith) (e : StudioModelEntity) (sd : Sequence) (now : double)
          (deltaTime maximum : float),
      current_sequence e sd ->
      INT_MIN < seq_NumFrames sd <= INT_MAX ->
      shouldLoop (_loopingMode e) sd = false ->
      exists e' dt,
        AdvanceFrame now deltaTime maximum e = Done (e', dt) /\
        if returns_early now deltaTime e then e' = e /\ dt = i2f 0
        else clamped_to_last (seq_NumFrames sd) (advanced_frame e sd dt) (_frame e')).
Proof.
  split.
  - intros e sd now Hcurrent Hframes. split.
    + intros frame H0 H1. now apply SetFrame_in_range.
    + intros deltaTime maximum Hloop Hf Hd Hm _ Hfps _ Hrate _ Hbound.
      now apply AdvanceFrame_loop_in_range.
  - intros A e sd now deltaTime maximum Hcurrent Hframes.
    now apply AdvanceFrame_clamped.
Qed.

Lemma frame_wrap_invariant_witness :
  let looping := @Scenario.looping30 exactQ in
  let stopping :=
    @Scenario.entity_of ieee
      (Some (Scenario.model_of (Scenario.sequence30 30 0 []) [])) StandardBlender 20 0 in
  (exists e', @SetFrame exactQ 6%Q 35%Q looping = Done e' /\
              wrapped_into_range 30 (_frame e'))
  /\
  (exists e' dt,
      @AdvanceFrame exactQ goldsrc 6%Q 2%Q (-1)%Q looping = Done (e', dt) /\
      if @returns_early exactQ 6%Q 2%Q looping then e' = looping /\ dt = 0%Q
      else wrapped_into_range 30 (_frame e'))
  /\
  (exists e' dt,
      @AdvanceFrame ieee goldsrc (@i2d ieee 6) (@i2f ieee 2) (@i2f ieee (-1)) stopping
        = Done (e', dt) /\
      if @returns_early ieee (@i2d ieee 6) (@i2f ieee 2) stopping
      then e' = stopping /\ dt = @i2f ieee 0
      else @clamped_to_last ieee 30
             (@advanced_frame ieee stopping (@Scenario.sequence30 ieee 30 0 []) dt)
             (_frame e'))
  /\
  frame_after
    (match @AdvanceFrame ieee goldsrc (@i2d ieee 6) (@i2f ieee 2) (@i2f ieee (-1)) stopping
     with
     | Done (e', _) => Done e'
     | Undefined why => Undefined why
     end)
  = Some (@i2f ieee 29).
Proof.
  intros looping stopping. subst looping stopping.
  assert (Hframes : INT_MIN < 30 <= INT_MAX) by (unfold INT_MIN, INT_MAX; lia).
  destruct (@frame_wrap_invariant goldsrc) as (Hexact & Hclamp).
  assert (Hcurrent : @current_sequence exactQ (@Scenario.looping30 exactQ)
                       (@Scenario.sequence30 exactQ 30 1 [])).
  { eexists. split; reflexivity. }
  destruct (Hexact _ _ 6%Q Hcurrent Hframes) as (Hset & Hloop).
  split; [|split; [|split]].
  - apply Hset; vm_compute; discriminate.
  - apply Hloop; try reflexivity; try (vm_compute; discriminate).
    left. reflexivity.
  - apply (Hclamp ieee _ (@Scenario.sequence30 ieee 30 0 [])).
    + eexists. split; reflexivity.
    + exact Hframes.
    + reflexivity.
  - vm_compute. reflexivity.
Defined.

(** C1 as stated fails on a negative frame: the truncating wrap leaves
    [SetFrame(-5)] on a looping 30-frame sequence at -5, outside [[0, 29)], in
    exact arithmetic and in binary32 alike.  In binary32 it fails on large
    frames too: [SetFrame(30408790)] leaves -2, the quotient by 29 having
    rounded up to the next whole number, and [SetFrame(486539456)] leaves 32,
    the product with 29 having been rounded. *)
Lemma frame_wrap_negative_counterexample :
  (frame_after (@SetFrame exactQ 6%Q (-5)%Q (@Scenario.looping30 exactQ))
     = Some (-5)%Q /\
   ~ (0 <= -5)%Q)
  /\
  (frame_after (@SetFrame ieee (@i2d ieee 6) (@i2f ieee (-5)) (@Scenario.looping30 ieee))
     = Some (@i2f ieee (-5)) /\
   @fleb ieee (@i2f ieee 0) (@i2f ieee (-5)) = false)
  /\
  (frame_after
     (@SetFrame ieee (@i2d ieee 6) (@i2f ieee 30408790) (@Scenario.looping30 ieee))
     = Some (@i2f ieee (-2)) /\
   @fleb ieee (@i2f ieee 0) (@i2f ieee (-2)) = false)
  /\
  (frame_after
     (@SetFrame ieee (@i2d ieee 6) (@i2f ieee 486539456) (@Scenario.looping30 ieee))
     = Some (@i2f ieee 32) /\
   @fltb ieee (@i2f ieee 32) (@i2f ieee 29) = false).
Proof.
  repeat split.
  - vm_compute. intros H. apply H. reflexivity.
Qed.

(** In binary32, within the limit: on the looping 30-frame sequence at 30
    FPS, [AdvanceFrame(2, -1)] from frame 0 advances to 60 and leaves
    60 - 2 * 29 = 2, and a step of a quarter of a second from frame 25
    advances to 32.5 and leaves 3.5. *)
Lemma frame_wrap_binary32_runs :
  frame_after
    (match @AdvanceFrame ieee goldsrc (@i2d ieee 6) (@i2f ieee 2) (@i2f ieee (-1))
             (@Scenario.looping30 ieee) with
     | Done (e', _) => Done e'
     | Undefined why => Undefined why
     end)
    = Some (@i2f ieee 2)
  /\
  frame_after
    (match @AdvanceFrame ieee goldsrc (@i2d ieee 6)
             (@fdiv ieee (@i2f ieee 1) (@i2f ieee 4)) (@i2f ieee (-1))
             (@Scenario.entity_of ieee
                (Some (Scenario.model_of (Scenario.sequence30 30 1 []) []))
                StandardBlender 25 0) with
     | Done (e', _) => Done e'
     | Undefined why => Undefined why
     end)
    = Some (@fdiv ieee (@i2f ieee 7) (@i2f ieee 2)).
Proof. split; vm_compute; reflexivity. Qed.

(** ** The 30-frame scenario *)

(** The arithmetic of the scenario, in each of the two arithmetics. *)
Lemma scenario_arithmetic (A : Arith) :
  A = ieee \/ A = exactQ ->
  feqb (i2f 1) (i2f 0) = false /\
  feqb (i2f (-1)) (i2f (-1)) = true /\
  fmul (fmul (i2f 1) (i2f 30)) (i2f 1) = i2f 30 /\
  fadd (i2f 0) (i2f 30) = i2f 30 /\
  wrap_frame (i2f 30) 29 = Done (i2f 1) /\
  fltb (i2f 1) (i2f 0) = false.
Proof.
  intros [HA|HA]; subst A; repeat split; vm_compute; reflexivity.
Qed.

(** C2.  With a looping current sequence of 30 frames at 30 FPS, playback
    rate 1.0, frame 0 and an animation time already recorded,
    [AdvanceFrame(1.0, -1)] returns 1.0 and leaves the frame at exactly 1.0:
    in binary32 arithmetic and in exact arithmetic alike. *)
Theorem AdvanceFrame_scenario_lands_on_1 (A : Arith) (K : StudioConstants)
    (e : StudioModelEntity) (sd : Sequence) (now : double) :
  A = ieee \/ A = exactQ ->
  current_sequence e sd ->
  seq_NumFrames sd = 30 -> seq_FPS sd = i2f 30 ->
  shouldLoop (_loopingMode e) sd = true ->
  _frameRate e = i2f 1 -> _frame e = i2f 0 ->
  deqb (_animTime e) (i2d 0) = false ->
  exists e', AdvanceFrame now (i2f 1) (i2f (-1)) e = Done (e', i2f 1) /\
             _frame e' = i2f 1.
Proof.
  intros HA (model & Hmodel & Hseq) HN Hfps Hloop Hrate Hframe Htime.
  destruct (scenario_arithmetic A HA) as (E1 & E2 & E3 & E4 & E5 & E6).
  unfold AdvanceFrame.
  rewrite Hmodel, (current_sequence_valid _ _ _ Hseq), Hseq. cbn [bind]. cbv zeta.
  rewrite Htime, Hloop, HN, Hfps, Hrate, Hframe, E1, E2.
  cbn [andb negb]. change (isub 30 1) with (Done 29). cbn [bind].
  rewrite orb_true_r. change (30 <=? 1) with false. cbv iota.
  rewrite E3, E4, E5. cbn [bind]. cbn [_frame with_frame]. rewrite E6.
  eexists. split; reflexivity.
Qed.

Lemma AdvanceFrame_scenario_witness :
  exists e', @AdvanceFrame ieee goldsrc (@i2d ieee 6) (@i2f ieee 1) (@i2f ieee (-1))
               (@Scenario.looping30 ieee) = Done (e', @i2f ieee 1) /\
             _frame e' = S754_finite false 8388608 (-23).
Proof.
  apply (AdvanceFrame_scenario_lands_on_1 ieee goldsrc (@Scenario.looping30 ieee)
           (@Scenario.sequence30 ieee 30 1 []) (@i2d ieee 6)).
  - left. reflexivity.
  - eexists. split; reflexivity.
  - reflexivity.
  - reflexivity.
  - reflexivity.
  - reflexivity.
  - reflexivity.
  - reflexivity.
Defined.

(** ** Event dispatch across the loop *)

Section DispatchWindow.
Context {A : Arith} {K : StudioConstants}.
Variable sd : Sequence.
Hypothesis Hframes : INT_MIN < seq_NumFrames sd <= INT_MAX.
Variable allow : bool.

Lemma event_in_window_total (start end_ : float) candidate :
  event_in_window sd start end_ candidate = Done (in_window sd start end_ candidate).
Proof.
  unfold event_in_window, in_window.
  destruct (fleb start _ && fltb _ end_); [reflexivity|].
  destruct (Z.land (seq_Flags sd) STUDIO_LOOPING =? 0); [reflexivity|].
  unfold isub. rewrite as_int_fits by (unfold INT_MIN, INT_MAX in *; lia).
  cbn [bind negb orb andb]. destruct (fleb _ end_); reflexivity.
Qed.

(** One scan: nothing due in what is left, or the first due event. *)
Lemma scan_events_first (start end_ : float) rest : forall index event,
  (filter (due sd start end_ allow) rest = [] /\
   scan_events sd start end_ allow rest index event = Done (0, event))
  \/
  (exists before candidate after,
      rest = before ++ candidate :: after /\
      filter (due sd start end_ allow) before = [] /\
      due sd start end_ allow candidate = true /\
      scan_events sd start end_ allow rest index event =
        Done (index + Z.of_nat (length before) + 1, handed_over candidate)).
Proof.
  induction rest as [|candidate rest IH]; intros index event.
  - left. split; reflexivity.
  - cbn [scan_events filter]. unfold due at 1 3. unfold admitted.
    destruct allow eqn:Hallow; cbn [negb andb orb].
    + rewrite event_in_window_total. cbn [bind].
      destruct (in_window sd start end_ candidate) eqn:Hin.
      * right. exists [], candidate, rest. cbn [app length filter].
        repeat split; [unfold due, admitted; now rewrite Hin | f_equal; f_equal; lia].
      * destruct (IH (index + 1) event) as [[Hnone Hscan]|(before & c & after & E & Hb & Hc & Hscan)].
        -- left. split; assumption.
        -- right. exists (candidate :: before), c, after. subst rest.
           cbn [app length filter]. unfold due at 1, admitted. rewrite Hin.
           cbn [orb andb]. repeat split; try assumption.
           rewrite Hscan. f_equal. f_equal. lia.
    + destruct (EVENT_CLIENT <=? ev_EventId candidate) eqn:Hclient; cbn [negb andb].
      * destruct (IH (index + 1) event) as [[Hnone Hscan]|(before & c & after & E & Hb & Hc & Hscan)].
        -- left. split; assumption.
        -- right. exists (candidate :: before), c, after. subst rest.
           cbn [app length filter]. unfold due at 1, admitted. rewrite Hclient.
           cbn [orb negb andb]. repeat split; try assumption.
           rewrite Hscan. f_equal. f_equal. lia.
      * rewrite event_in_window_total. cbn [bind].
        destruct (in_window sd start end_ candidate) eqn:Hin.
        -- right. exists [], candidate, rest. cbn [app length filter].
           repeat split; [unfold due, admitted; now rewrite Hclient, Hin | f_equal; f_equal; lia].
        -- destruct (IH (index + 1) event) as [[Hnone Hscan]|(before & c & after & E & Hb & Hc & Hscan)].
           ++ left. split; assumption.
           ++ right. exists (candidate :: before), c, after. subst rest.
              cbn [app length filter]. unfold due at 1, admitted. rewrite Hclient, Hin.
              cbn [orb negb andb]. repeat split; try assumption.
              rewrite Hscan. f_equal. f_equal. lia.
Qed.

Lemma skipn_past {T} (before : list T) c after :
  skipn (S (length before)) (before ++ c :: after) = after.
Proof.
  induction before as [|b before IH]; [reflexivity | exact IH].
Qed.

Variables start end_ : float.

Let events := seq_SortedEvents sd.
Let single := seq_NumFrames sd <=? 1.
Let start' := if single then i2f 0 else start.
Let end' := if single then i2f 1 else end_.

Lemma dispatch_loop_window (e : StudioModelEntity) fuel :
  current_sequence e sd ->
  forall index event handled,
  0 <= index ->
  (length (skipn (Z.to_nat index) events) < fuel)%nat ->
  dispatch_loop fuel e event start end_ index allow handled =
    Done (handled ++ map handed_over
                       (filter (due sd start' end' allow)
                               (skipn (Z.to_nat index) events))).
Proof.
  intros (model & Hmodel & Hseq).
  induction fuel as [|fuel IH]; intros index event handled Hindex Hfuel; [lia|].
  cbn [dispatch_loop]. unfold GetAnimationEvent.
  rewrite Hmodel, (current_sequence_valid _ _ _ Hseq), Hseq. cbn [bind].
  fold events. fold single. fold start'. fold end'.
  destruct (size_le events index) eqn:Hsize.
  - cbn [bind]. rewrite Z.eqb_refl.
    unfold size_le, to_size_t in Hsize.
    destruct (index <? 0) eqn:Hneg; [apply Z.ltb_lt in Hneg; lia|].
    apply Z.leb_le in Hsize.
    rewrite skipn_all2 by lia. cbn [filter map]. now rewrite app_nil_r.
  - set (rest := skipn (Z.to_nat index) events) in *.
    destruct (scan_events_first start' end' rest index event)
      as [[Hnone Hscan]|(before & c & after & E & Hb & Hc & Hscan)].
    + rewrite Hscan. cbn [bind]. rewrite Z.eqb_refl, Hnone.
      cbn [map]. now rewrite app_nil_r.
    + rewrite Hscan. cbn [bind].
      assert (Hpos : (index + Z.of_nat (length before) + 1 =? 0) = false)
        by (apply Z.eqb_neq; lia).
      rewrite Hpos.
      assert (Hafter : skipn (Z.to_nat (index + Z.of_nat (length before) + 1)) events
                       = after).
      { replace (Z.to_nat (index + Z.of_nat (length before) + 1))
          with (S (length before) + Z.to_nat index)%nat by lia.
        rewrite <- skipn_skipn. fold rest. rewrite E. apply skipn_past. }
      rewrite IH; [| lia |].
      * rewrite Hafter, E, filter_app, Hb. cbn [app filter]. rewrite Hc.
        cbn [map]. rewrite <- app_assoc. reflexivity.
      * rewrite Hafter. rewrite E in Hfuel. rewrite length_app in Hfuel.
        cbn [length] in Hfuel. lia.
Qed.

(** [DispatchAnimEvents] hands over, in order and once each, the events of the
    current sequence that are due in the window from [_lastEventCheck] to
    [_frame], and moves the marker to [_frame]. *)
Lemma DispatchAnimEvents_window (e : StudioModelEntity) :
  current_sequence e sd ->
  start = _lastEventCheck e -> end_ = _frame e ->
  DispatchAnimEvents allow e =
    Done (with_frame e (_frame e) (_animTime e) (_frame e),
          map handed_over (filter (due sd start' end' allow) events)).
Proof.
  intros Hcurrent Hstart Hend. unfold DispatchAnimEvents.
  pose proof Hcurrent as (model & Hmodel & Hseq). rewrite Hmodel.
  rewrite <- Hstart, <- Hend.
  assert (Hcount : event_count e = length events).
  { unfold event_count. rewrite Hmodel.
    apply at_index_Done in Hseq as [_ Hnth]. now rewrite Hnth. }
  rewrite Hcount.
  rewrite (dispatch_loop_window (with_frame e end_ (_animTime e) end_)).
  - reflexivity.
  - exists model. split; [exact Hmodel | exact Hseq].
  - lia.
  - cbn [Z.to_nat skipn]. lia.
Qed.
End DispatchWindow.

(** Below the last frame the looping clause is closed: an event at or past the
    current frame is not due, whatever the marker.  After a wrap the marker
    is [_frame - increment] and the frame is below [NumFrames - 1], so the
    events between the frame before the wrap and the end of the loop are
    left out. *)
Lemma event_past_the_frame_is_not_due {K : StudioConstants} (sd : @Sequence exactQ)
    (start end_ : @float exactQ) (allow : bool) (candidate : SequenceEvent) :
  (end_ < inject_Z (seq_NumFrames sd - 1))%Q ->
  (end_ <= inject_Z (ev_Frame candidate))%Q ->
  @due exactQ K sd start end_ allow candidate = false.
Proof.
  intros Hbelow Hpast. unfold due, in_window.
  cbn [fleb fltb i2f fadd fsub exactQ].
  assert (E1 : Qltb (inject_Z (ev_Frame candidate)) end_ = false)
    by (apply Qltb_ge; exact Hpast).
  assert (E2 : Qleb (inject_Z (seq_NumFrames sd - 1)) end_ = false)
    by (apply Qleb_gt; exact Hbelow).
  rewrite E1, E2.
  destruct (admitted allow candidate), (Qleb start (inject_Z (ev_Frame candidate))),
    (negb (Z.land (seq_Flags sd) STUDIO_LOOPING =? 0)); reflexivity.
Qed.

(** C3, the failing run.  A looping sequence of 30 frames at 10 FPS carries an
    event at frame 5 (id 1001) and one at frame 25 (id 1002).  Three updates
    of one second take the frame over 10 and 20 and, wrapped, to 1: one full
    loop.  Only the event at frame 5 is handled; after the wrap the window is
    [[-9, 1)] and the event at frame 25 is skipped.  Six updates, two loops,
    still never handle it.  Fed the windows [[0,10)], [[10,20)], [[20,30)]
    directly, the scan returns an event at frame 0 (id 1000) in the first and
    again in the last.  In binary32 and in exact arithmetic alike. *)
Theorem dispatch_skips_event_before_wrap :
  let events := [Scenario.event 5 1001; Scenario.event 25 1002] in
  let at_zero := [Scenario.event 0 1000; Scenario.event 25 1002] in
  (Scenario.observed
     (@Scenario.play ieee goldsrc 3 6 (@Scenario.looping_with ieee events) [])
     = Some ([1001], @i2f ieee 1, @i2f ieee 1) /\
   Scenario.observed
     (@Scenario.play ieee goldsrc 6 6 (@Scenario.looping_with ieee events) [])
     = Some ([1001; 1001], @i2f ieee 2, @i2f ieee 2) /\
   @Scenario.dispatched ieee goldsrc (@Scenario.looping_with ieee at_zero) 0 10
     = Some [1000] /\
   @Scenario.dispatched ieee goldsrc (@Scenario.looping_with ieee at_zero) 10 20
     = Some [] /\
   @Scenario.dispatched ieee goldsrc (@Scenario.looping_with ieee at_zero) 20 30
     = Some [1000; 1002])
  /\
  (Scenario.observed
     (@Scenario.play exactQ goldsrc 3 6 (@Scenario.looping_with exactQ events) [])
     = Some ([1001], 1%Q, 1%Q) /\
   Scenario.observed
     (@Scenario.play exactQ goldsrc 6 6 (@Scenario.looping_with exactQ events) [])
     = Some ([1001; 1001], 2%Q, 2%Q) /\
   @Scenario.dispatched exactQ goldsrc (@Scenario.looping_with exactQ at_zero) 0 10
     = Some [1000] /\
   @Scenario.dispatched exactQ goldsrc (@Scenario.looping_with exactQ at_zero) 10 20
     = Some [] /\
   @Scenario.dispatched exactQ goldsrc (@Scenario.looping_with exactQ at_zero) 20 30
     = Some [1000; 1002]).
Proof.
  cbv zeta. repeat split; vm_compute; reflexivity.
Qed.

(** ** Controllers that the model does not have *)

Section NoController.
Context {A : Arith} {K : StudioConstants}.

Lemma find_controller_no_match (controllers : list BoneController) controller i :
  (forall bc, In bc controllers -> bc_Index bc <> controller) ->
  find_controller controllers controller i = i + Z.of_nat (length controllers).
Proof.
  revert i; induction controllers as [|bc rest IH]; intros i Hno; simpl; [lia|].
  destruct (bc_Index bc =? controller) eqn:E.
  - apply Z.eqb_eq in E. exfalso. apply (Hno bc); [left; reflexivity | exact E].
  - rewrite IH; [lia|]. intros bc' Hin. apply Hno. right. exact Hin.
Qed.

(** C10.  When no bone controller of the loaded model has [Index] equal to
    the controller asked for, [SetController] leaves the entity as it was:
    the encoded bytes [_controller] and the real values [_controllerValues]
    are untouched.  The same holds of [SetMouth], [_mouth] and [_mouthValue]
    when no controller has the mouth index. *)
Theorem unmatched_controller_leaves_state (e : StudioModelEntity)
    (controller : Z) (value : float) :
  ((forall model bc, _editableModel e = Some model ->
                     In bc (BoneControllers model) -> bc_Index bc <> controller) ->
   exists e', SetController controller value e = Done e' /\
              e' = e /\
              _controller e' = _controller e /\
              _controllerValues e' = _controllerValues e)
  /\
  ((forall model bc, _editableModel e = Some model ->
                     In bc (BoneControllers model) ->
                     bc_Index bc <> STUDIO_MOUTH_CONTROLLER) ->
   exists e', SetMouth value e = Done e' /\
              e' = e /\
              _mouth e' = _mouth e /\
              _mouthValue e' = _mouthValue e).
Proof.
  split; intros Hno; exists e; (split; [|repeat split]).
  - unfold SetController. destruct (_editableModel e) as [model|] eqn:Hmodel;
      [|reflexivity].
    rewrite (find_controller_no_match _ _ 0 (fun bc => Hno model bc eq_refl)).
    simpl. now rewrite size_le_length.
  - unfold SetMouth. destruct (_editableModel e) as [model|] eqn:Hmodel;
      [|reflexivity].
    rewrite (find_controller_no_match _ _ 0 (fun bc => Hno model bc eq_refl)).
    simpl. now rewrite size_le_length.
Qed.
End NoController.

Lemma unmatched_controller_witness :
  let pitch := @Scenario.controller exactQ 0 8 (-90) 90 in
  let e := @Scenario.entity_of exactQ
             (Some (Scenario.model_of (Scenario.sequence30 30 1 []) [pitch]))
             StandardBlender 0 0 in
  (exists e', @SetController exactQ goldsrc 3 45%Q e = Done e' /\
              e' = e /\
              _controller e' = [0; 0; 0; 0] /\
              _controllerValues e' = [0; 0; 0; 0; 0]%Q)
  /\
  (exists e', @SetMouth exactQ goldsrc 45%Q e = Done e' /\
              e' = e /\
              _mouth e' = 0 /\
              _mouthValue e' = 0%Q).
Proof.
  intros pitch e.
  destruct (@unmatched_controller_leaves_state exactQ goldsrc e 3 45%Q) as [H1 _].
  destruct (@unmatched_controller_leaves_state exactQ goldsrc e 3 45%Q) as [_ H2].
  split.
  - apply H1. intros model bc Hmodel Hin. inversion Hmodel; subst model.
    simpl in Hin. destruct Hin as [<-|[]]. simpl. lia.
  - apply H2. intros model bc Hmodel Hin. inversion Hmodel; subst model.
    simpl in Hin. destruct Hin as [<-|[]]. simpl. lia.
Defined.

(** ** Unused blend channels *)

(** C6, as amended.  For a blend channel whose descriptor has [Type == 0],
    [StandardBlender::CalculateBlend] returns the empty optional, not a zero
    byte; and on an entity whose blender is the standard one [SetBlending]
    leaves the entity as it was: the encoded bytes [_blending] and the real
    values [_blendingValues] are untouched. *)
Theorem unused_blend_channel_yields_nothing {A : Arith} {K : StudioConstants}
    (e : StudioModelEntity) (sd : Sequence) (blendData : BlendData)
    (blender : Z) (value : float) :
  current_sequence e sd ->
  _blender e = StandardBlender ->
  at_index (seq_BlendData sd) blender = Done blendData ->
  bd_Type blendData = 0 ->
  StandardBlender_CalculateBlend sd blender value = Done None /\
  Done (@None Z) <> Done (Some 0) /\
  exists e', SetBlending blender value e = Done e' /\
             e' = e /\
             _blending e' = _blending e /\
             _blendingValues e' = _blendingValues e.
Proof.
  intros (model & Hmodel & Hseq) Hstandard Hchannel Htype.
  assert (Hnone : StandardBlender_CalculateBlend sd blender value = Done None).
  { unfold StandardBlender_CalculateBlend. rewrite Hchannel. cbn [bind].
    now rewrite Htype. }
  split; [exact Hnone|]. split; [discriminate|].
  exists e. split; [|repeat split].
  unfold SetBlending. rewrite Hmodel.
  destruct ((blender <? 0) || (STUDIO_MAX_BLENDERS <=? blender)); [reflexivity|].
  rewrite (current_sequence_valid _ _ _ Hseq), Hseq. cbn [bind].
  unfold CalculateBlend. rewrite Hstandard, Hnone. reflexivity.
Qed.

Lemma unused_blend_channel_witness :
  let sd := @Scenario.blended30 exactQ [Scenario.channel 0 0 0; Scenario.channel 0 0 0] in
  let e := @Scenario.entity_of exactQ (Some (Scenario.model_of sd []))
             StandardBlender 0 0 in
  @StandardBlender_CalculateBlend exactQ goldsrc sd 1 30%Q = Done None /\
  Done (@None Z) <> Done (Some 0) /\
  exists e', @SetBlending exactQ goldsrc 1 30%Q e = Done e' /\
             e' = e /\
             _blending e' = [0; 0] /\
             _blendingValues e' = [0; 0]%Q.
Proof.
  intros sd e.
  apply (@unused_blend_channel_yields_nothing exactQ goldsrc e sd
           (@Scenario.channel exactQ 0 0 0) 1 30%Q).
  - eexists. split; reflexivity.
  - reflexivity.
  - reflexivity.
  - reflexivity.
Defined.

(** C6 as stated fails for the second blend strategy: the Counter-Strike
    blender does not read the descriptor, and on channels with [Type == 0]
    [SetBlending(0, 0)] stores the byte 127. *)
Lemma counterstrike_blender_counterexample :
  let sd {A : Arith} := @Scenario.blended30 A [Scenario.channel 0 0 0; Scenario.channel 0 0 0] in
  let e {A : Arith} :=
    @Scenario.entity_of A (Some (Scenario.model_of sd [])) CounterStrikeBlender 0 0 in
  (@CalculateBlend exactQ goldsrc CounterStrikeBlender sd 0 0%Q = Done (Some 127) /\
   blending_after (@SetBlending exactQ goldsrc 0 0%Q e) = Some [127; 0])
  /\
  (@CalculateBlend ieee goldsrc CounterStrikeBlender sd 0 (@i2f ieee 0) = Done (Some 127) /\
   blending_after (@SetBlending ieee goldsrc 0 (@i2f ieee 0) e) = Some [127; 0]).
Proof.
  cbv zeta. repeat split; vm_compute; reflexivity.
Qed.

(** ** The three code paths against the codec *)

Section CodecPaths.
Context {A : Arith} {K : StudioConstants}.

(** Both sides are chains of casts: case on each cast in turn. *)
Ltac by_casts :=
  cbn [bind]; try reflexivity;
  match goal with
  | |- context [bind (d2i ?x) _] => destruct (d2i x); by_casts
  | |- context [bind (f2i ?x) _] => destruct (f2i x); by_casts
  end.

Lemma SetController_codec (e : StudioModelEntity) model controller value bc cv :
  _editableModel e = Some model ->
  size_le (BoneControllers model)
    (find_controller (BoneControllers model) controller 0) = false ->
  at_index (BoneControllers model)
    (find_controller (BoneControllers model) controller 0) = Done bc ->
  store_at (_controllerValues e) controller value = Done cv ->
  SetController controller value e =
    (normalized <- codec_normalize (bc_Type bc) (bc_Start bc) (bc_End bc) value ;;
     setting <- codec_encode 255 (bc_Start bc) (bc_End bc) normalized ;;
     controllers <- store_at (_controller e) controller setting ;;
     Done (with_controller e controllers cv)).
Proof.
  intros Hmodel Hfound Hbc Hcv. unfold SetController.
  rewrite Hmodel. cbv zeta. rewrite Hfound, Hcv. cbn [bind]. rewrite Hbc. cbn [bind].
  unfold codec_normalize, codec_encode, codec_negate, codec_range_fits,
    codec_recenter, codec_wrap.
  destruct (rotational (bc_Type bc)); [|by_casts].
  destruct (dleb _ _); [by_casts|].
  destruct (fltb (i2f 360) _); [by_casts|].
  destruct (fltb _ (i2f 0)); by_casts.
Qed.

Lemma SetMouth_codec (e : StudioModelEntity) model value bc :
  _editableModel e = Some model ->
  size_le (BoneControllers model)
    (find_controller (BoneControllers model) STUDIO_MOUTH_CONTROLLER 0) = false ->
  at_index (BoneControllers model)
    (find_controller (BoneControllers model) STUDIO_MOUTH_CONTROLLER 0) = Done bc ->
  SetMouth value e =
    (normalized <- codec_normalize (bc_Type bc) (bc_Start bc) (bc_End bc) value ;;
     setting <- codec_encode 64 (bc_Start bc) (bc_End bc) normalized ;;
     Done (with_mouth e setting value)).
Proof.
  intros Hmodel Hfound Hbc. unfold SetMouth.
  rewrite Hmodel. cbv zeta. rewrite Hfound, Hbc. cbn [bind].
  unfold codec_normalize, codec_encode, codec_negate, codec_range_fits,
    codec_recenter, codec_wrap.
  destruct (rotational (bc_Type bc)); [|by_casts].
  destruct (dleb _ _); [by_casts|].
  destruct (fltb (i2f 360) _); [by_casts|].
  destruct (fltb _ (i2f 0)); by_casts.
Qed.

Lemma StandardBlender_codec (sd : Sequence) blender value bd :
  at_index (seq_BlendData sd) blender = Done bd ->
  bd_Type bd <> 0 ->
  rotational (bd_Type bd) = false \/ codec_range_fits (bd_Start bd) (bd_End bd) = true ->
  StandardBlender_CalculateBlend sd blender value =
    (normalized <- codec_normalize (bd_Type bd) (bd_Start bd) (bd_End bd) value ;;
     setting <- codec_encode 255 (bd_Start bd) (bd_End bd) normalized ;;
     Done (Some setting)).
Proof.
  intros Hbd Htype Hfits. unfold StandardBlender_CalculateBlend.
  rewrite Hbd. cbn [bind]. apply Z.eqb_neq in Htype. rewrite Htype.
  unfold codec_normalize, codec_encode, codec_negate, codec_range_fits,
    codec_recenter in *.
  destruct (rotational (bd_Type bd)); [|by_casts].
  destruct Hfits as [Hfits|Hfits]; [discriminate|].
  rewrite Hfits. by_casts.
Qed.

(** C4, as amended.  [SetController] and [SetMouth] run the same negation,
    re-centering and wrap normalization on every descriptor and value and
    differ only in the byte range, [[0, 255]] against [[0, 64]].
    [StandardBlender::CalculateBlend] returns no value for a descriptor with
    [Type == 0], and for any other descriptor that is not rotational or whose
    range does not wrap ([Start + 359 >= End]) it produces the same setting as
    [SetController]. *)
Theorem codec_shared_by_the_paths (value : float) :
  (forall (e : StudioModelEntity) model controller bc cv,
      _editableModel e = Some model ->
      size_le (BoneControllers model)
        (find_controller (BoneControllers model) controller 0) = false ->
      at_index (BoneControllers model)
        (find_controller (BoneControllers model) controller 0) = Done bc ->
      store_at (_controllerValues e) controller value = Done cv ->
      SetController controller value e =
        (setting <- codec 255 (bc_Type bc) (bc_Start bc) (bc_End bc) value ;;
         controllers <- store_at (_controller e) controller setting ;;
         Done (with_controller e controllers cv)))
  /\
  (forall (e : StudioModelEntity) model bc,
      _editableModel e = Some model ->
      size_le (BoneControllers model)
        (find_controller (BoneControllers model) STUDIO_MOUTH_CONTROLLER 0) = false ->
      at_index (BoneControllers model)
        (find_controller (BoneControllers model) STUDIO_MOUTH_CONTROLLER 0) = Done bc ->
      SetMouth value e =
        (setting <- codec 64 (bc_Type bc) (bc_Start bc) (bc_End bc) value ;;
         Done (with_mouth e setting value)))
  /\
  (forall (sd : Sequence) blender bd,
      at_index (seq_BlendData sd) blender = Done bd ->
      (bd_Type bd = 0 -> StandardBlender_CalculateBlend sd blender value = Done None) /\
      (bd_Type bd <> 0 ->
       rotational (bd_Type bd) = false \/
       codec_range_fits (bd_Start bd) (bd_End bd) = true ->
       StandardBlender_CalculateBlend sd blender value =
         (setting <- codec 255 (bd_Type bd) (bd_Start bd) (bd_End bd) value ;;
          Done (Some setting)))).
Proof.
  split; [|split].
  - intros e model controller bc cv Hmodel Hfound Hbc Hcv.
    rewrite (SetController_codec e model controller value bc cv) by assumption.
    unfold codec. destruct (codec_normalize _ _ _ _); reflexivity.
  - intros e model bc Hmodel Hfound Hbc.
    rewrite (SetMouth_codec e model value bc) by assumption.
    unfold codec. destruct (codec_normalize _ _ _ _); reflexivity.
  - intros sd blender bd Hbd. split.
    + intros Htype. unfold StandardBlender_CalculateBlend.
      rewrite Hbd. cbn [bind]. now rewrite Htype.
    + intros Htype Hfits.
      rewrite (StandardBlender_codec sd blender value bd) by assumption.
      unfold codec. destruct (codec_normalize _ _ _ _); reflexivity.
Qed.
End CodecPaths.

Lemma codec_shared_witness :
  let pitch := @Scenario.controller ieee 0 8 (-90) 90 in
  let jaw := @Scenario.controller ieee 4 8 0 90 in
  let lean := @Scenario.channel ieee 8 (-90) 90 in
  let e := @Scenario.entity_of ieee
             (Some (Scenario.model_of (Scenario.blended30 [lean]) [pitch; jaw]))
             StandardBlender 0 0 in
  @SetController ieee goldsrc 0 (@i2f ieee 45) e =
    (setting <- @codec ieee goldsrc 255 8 (@i2f ieee (-90)) (@i2f ieee 90) (@i2f ieee 45) ;;
     controllers <- store_at (_controller e) 0 setting ;;
     Done (with_controller e controllers
             [@i2f ieee 45; @i2f ieee 0; @i2f ieee 0; @i2f ieee 0; @i2f ieee 0]))
  /\
  @SetMouth ieee goldsrc (@i2f ieee 45) e =
    (setting <- @codec ieee goldsrc 64 8 (@i2f ieee 0) (@i2f ieee 90) (@i2f ieee 45) ;;
     Done (with_mouth e setting (@i2f ieee 45)))
  /\
  @StandardBlender_CalculateBlend ieee goldsrc (Scenario.blended30 [lean]) 0 (@i2f ieee 45) =
    (setting <- @codec ieee goldsrc 255 8 (@i2f ieee (-90)) (@i2f ieee 90) (@i2f ieee 45) ;;
     Done (Some setting)).
Proof.
  intros pitch jaw lean e.
  destruct (@codec_shared_by_the_paths ieee goldsrc (@i2f ieee 45))
    as (Hcontroller & Hmouth & Hblend).
  split; [|split].
  - apply (Hcontroller e (Scenario.model_of (Scenario.blended30 [lean]) [pitch; jaw])
             0 pitch); reflexivity.
  - apply (Hmouth e (Scenario.model_of (Scenario.blended30 [lean]) [pitch; jaw]) jaw);
      reflexivity.
  - apply (Hblend (Scenario.blended30 [lean]) 0 lean); [reflexivity | | ].
    + simpl. lia.
    + right. vm_compute. reflexivity.
Defined.

(** C4 as stated fails on an unused descriptor: with [Type == 0], [Start = 0],
    [End = 90] and the value 45 the controller path stores the byte 127 while
    the blend path returns no value. *)
Lemma unused_descriptor_counterexample :
  let e {A : Arith} :=
    @Scenario.entity_of A
      (Some (Scenario.model_of (Scenario.blended30 []) [Scenario.controller 0 0 0 90]))
      StandardBlender 0 0 in
  (controller_after (@SetController exactQ goldsrc 0 45%Q e) = Some [127; 0; 0; 0] /\
   @StandardBlender_CalculateBlend exactQ goldsrc
     (Scenario.blended30 [Scenario.channel 0 0 90]) 0 45%Q = Done None)
  /\
  (controller_after (@SetController ieee goldsrc 0 (@i2f ieee 45) e) = Some [127; 0; 0; 0] /\
   @StandardBlender_CalculateBlend ieee goldsrc
     (Scenario.blended30 [Scenario.channel 0 0 90]) 0 (@i2f ieee 45) = Done None).
Proof.
  cbv zeta. repeat split; vm_compute; reflexivity.
Qed.

(** On a rotational descriptor whose range wraps ([Start = 0], [End = 720])
    the blend path has no normalization step: the value 400 is encoded as it
    is, to 141, where the controller path first brings it to 40 and encodes
    14. *)
Lemma blend_path_encodes_without_wrap :
  let e {A : Arith} :=
    @Scenario.entity_of A
      (Some (Scenario.model_of (Scenario.blended30 []) [Scenario.controller 0 8 0 720]))
      StandardBlender 0 0 in
  (controller_after (@SetController exactQ goldsrc 0 400%Q e) = Some [14; 0; 0; 0] /\
   @StandardBlender_CalculateBlend exactQ goldsrc
     (Scenario.blended30 [Scenario.channel 8 0 720]) 0 400%Q = Done (Some 141))
  /\
  (controller_after (@SetController ieee goldsrc 0 (@i2f ieee 400) e) = Some [14; 0; 0; 0] /\
   @StandardBlender_CalculateBlend ieee goldsrc
     (Scenario.blended30 [Scenario.channel 8 0 720]) 0 (@i2f ieee 400) = Done (Some 141)).
Proof.
  cbv zeta. repeat split; vm_compute; reflexivity.
Qed.

(** ** Normalization of a wrapping range *)

Lemma cast_to_fits (lo hi z : Z) : lo <= z <= hi -> cast_to lo hi (Some z) = Done z.
Proof.
  intros [H1 H2]. unfold cast_to.
  apply Z.leb_le in H1. apply Z.leb_le in H2. now rewrite H1, H2.
Qed.

(** Step 3 over the rationals: the result lies in the closed interval
    [[0, 360]] and differs from the value by whole turns. *)
Lemma codec_wrap_exact {K : StudioConstants} (value : Q) :
  (- inject_Z INT_MAX <= value)%Q -> (value <= inject_Z INT_MAX)%Q ->
  exists normalized : Q,
    @codec_wrap exactQ value = Done normalized /\
    (0 <= normalized)%Q /\ (normalized <= 360)%Q /\
    (exists turns : Z, normalized == value + 360 * inject_Z turns)%Q /\
    ((0 <= value)%Q -> (value <= 360)%Q -> normalized = value) /\
    ((360 < value)%Q -> (normalized < 360)%Q) /\
    ((value < 0)%Q -> (0 < normalized)%Q).
Proof.
  intros Hlo Hhi. unfold codec_wrap.
  cbn [fltb i2f i2d f2d d2f ddiv dadd dsub dmul exactQ].
  assert (HmaxQ : (inject_Z INT_MAX == 2147483647)%Q) by reflexivity.
  destruct (Qltb (inject_Z 360) value) eqn:Hbig.
  - apply Qltb_lt in Hbig. change (inject_Z 360) with 360%Q in *.
    set (t := (value / 360)%Q).
    assert (Ht : (0 <= t)%Q) by (subst t; apply Qle_shift_div_l; lra).
    destruct (Qtrunc_bounds t Ht) as [H1 H2].
    pose proof (Qtrunc_nonneg t Ht) as Hq.
    set (q := Qtrunc t) in *.
    rewrite inject_Z_plus in H2. change (inject_Z 1) with 1%Q in H2.
    assert (Et : (t * 360 == value)%Q) by (subst t; field).
    assert (Hq1 : (inject_Z q * 360 <= value)%Q) by lra.
    assert (Hq2 : (value < inject_Z q * 360 + 360)%Q) by lra.
    assert (Hq0 : (0 <= inject_Z q)%Q) by (apply (inject_Z_le_iff 0 q); exact Hq).
    assert (Hfit : INT_MIN <= q <= INT_MAX).
    { split; [unfold INT_MIN; lia|].
      apply inject_Z_le_iff. lra. }
    unfold d2i. cbn [dtrunc exactQ]. fold t. fold q.
    rewrite (cast_to_fits _ _ _ Hfit). cbn [bind].
    eexists. split; [reflexivity|].
    split; [lra|]. split; [lra|].
    split; [exists (- q); rewrite inject_Z_opp; ring|].
    split; [intros _ H; exfalso; lra|].
    split; [intros _; lra | intros H; exfalso; lra].
  - apply Qltb_ge in Hbig. change (inject_Z 360) with 360%Q in *.
    destruct (Qltb value (inject_Z 0)) eqn:Hneg.
    + apply Qltb_lt in Hneg. change (inject_Z 0) with 0%Q in *.
      change (inject_Z (-360)) with (-360)%Q. change (inject_Z 1) with 1%Q.
      set (t := (value / -360 + 1)%Q).
      assert (Et : (t * 360 == 360 - value)%Q) by (subst t; field).
      assert (Ht : (0 <= t)%Q).
      { apply (Qmult_le_r _ _ 360); [reflexivity|]. lra. }
      destruct (Qtrunc_bounds t Ht) as [H1 H2].
      pose proof (Qtrunc_nonneg t Ht) as Hq.
      set (q := Qtrunc t) in *.
      rewrite inject_Z_plus in H2. change (inject_Z 1) with 1%Q in H2.
      assert (Hq1 : (inject_Z q * 360 <= 360 - value)%Q) by lra.
      assert (Hq2 : (360 - value < inject_Z q * 360 + 360)%Q) by lra.
      assert (Hq0 : (0 <= inject_Z q)%Q) by (apply (inject_Z_le_iff 0 q); exact Hq).
      assert (Hfit : INT_MIN <= q <= INT_MAX).
      { split; [unfold INT_MIN; lia|].
        apply inject_Z_le_iff. lra. }
      unfold d2i. cbn [dtrunc exactQ]. fold t. fold q.
      rewrite (cast_to_fits _ _ _ Hfit). cbn [bind].
      eexists. split; [reflexivity|].
      split; [lra|]. split; [lra|].
      split; [exists q; ring|].
      split; [intros H; exfalso; lra|].
      split; [intros H; exfalso; lra | intros _; lra].
    + apply Qltb_ge in Hneg. change (inject_Z 0) with 0%Q in *.
      eexists. split; [reflexivity|].
      split; [lra|]. split; [lra|].
      split; [exists 0; ring|].
      split; [reflexivity|].
      split; [intros H; exfalso; lra | intros H; exfalso; lra].
Qed.

Section WrappingRange.
Context {K : StudioConstants}.
#[local] Existing Instance exactQ.

(** Steps 1 to 3 on a rotational channel whose range wraps. *)
Lemma codec_normalize_wrapping (type : Z) (Start End_ value : float) :
  rotational type = true ->
  (Start + 359 < End_)%Q ->
  codec_normalize type Start End_ value = codec_wrap value.
Proof.
  intros Hrot Hwrap. unfold codec_normalize, codec_negate, codec_range_fits.
  rewrite Hrot. cbn [fltb dleb f2d dadd i2d exactQ].
  assert (E1 : Qltb End_ Start = false).
  { apply Qltb_ge. change (inject_Z 359) with 359%Q in *. lra. }
  assert (E2 : Qleb End_ (Start + inject_Z 359) = false).
  { apply Qleb_gt. exact Hwrap. }
  rewrite E1, E2. reflexivity.
Qed.

(** C5, as amended.  Over the rationals, for a rotational controller whose
    range wraps ([Start + 359 < End]) and a value within the [int] range,
    [SetController] and [SetMouth] encode a value [normalized] that lies in
    the closed interval [[0, 360]] and differs from the input by whole turns
    of 360; the input is not negated, a value already in [[0, 360]] is kept as
    it is (360 included), a larger one comes out below 360 and a negative one
    above 0 (a negative multiple of 360 comes out as 360). *)
Theorem wrapping_range_normalized (e : StudioModelEntity) (model : EditableStudioModel)
    (value : float) :
  _editableModel e = Some model ->
  (- inject_Z INT_MAX <= value)%Q -> (value <= inject_Z INT_MAX)%Q ->
  exists normalized : float,
    ((0 <= normalized)%Q /\ (normalized <= 360)%Q /\
     (exists turns : Z, normalized == value + 360 * inject_Z turns)%Q /\
     ((0 <= value)%Q -> (value <= 360)%Q -> normalized = value) /\
     ((360 < value)%Q -> (normalized < 360)%Q) /\
     ((value < 0)%Q -> (0 < normalized)%Q))
    /\
    (forall controller bc cv,
        size_le (BoneControllers model)
          (find_controller (BoneControllers model) controller 0) = false ->
        at_index (BoneControllers model)
          (find_controller (BoneControllers model) controller 0) = Done bc ->
        store_at (_controllerValues e) controller value = Done cv ->
        rotational (bc_Type bc) = true ->
        (bc_Start bc + 359 < bc_End bc)%Q ->
        SetController controller value e =
          (setting <- codec_encode 255 (bc_Start bc) (bc_End bc) normalized ;;
           controllers <- store_at (_controller e) controller setting ;;
           Done (with_controller e controllers cv)))
    /\
    (forall bc,
        size_le (BoneControllers model)
          (find_controller (BoneControllers model) STUDIO_MOUTH_CONTROLLER 0) = false ->
        at_index (BoneControllers model)
          (find_controller (BoneControllers model) STUDIO_MOUTH_CONTROLLER 0) = Done bc ->
        rotational (bc_Type bc) = true ->
        (bc_Start bc + 359 < bc_End bc)%Q ->
        SetMouth value e =
          (setting <- codec_encode 64 (bc_Start bc) (bc_End bc) normalized ;;
           Done (with_mouth e setting value))).
Proof.
  intros Hmodel Hlo Hhi.
  destruct (codec_wrap_exact value Hlo Hhi) as (normalized & Hwrap & Hrange).
  exists normalized. split; [exact Hrange|]. split.
  - intros controller bc cv Hfound Hbc Hcv Hrot Hwide.
    rewrite (SetController_codec e model controller value bc cv) by assumption.
    rewrite (codec_normalize_wrapping _ _ _ _ Hrot Hwide), Hwrap. reflexivity.
  - intros bc Hfound Hbc Hrot Hwide.
    rewrite (SetMouth_codec e model value bc) by assumption.
    rewrite (codec_normalize_wrapping _ _ _ _ Hrot Hwide), Hwrap. reflexivity.
Qed.
End WrappingRange.

Lemma wrapping_range_witness :
  let turn := @Scenario.controller exactQ 0 8 0 720 in
  let model := Scenario.model_of (Scenario.blended30 []) [turn] in
  let e := @Scenario.entity_of exactQ (Some model) StandardBlender 0 0 in
  exists normalized : Q,
    ((0 <= normalized)%Q /\ (normalized <= 360)%Q) /\
    @SetController exactQ goldsrc 0 400%Q e =
      (setting <- @codec_encode exactQ 255 0%Q 720%Q normalized ;;
       controllers <- store_at (_controller e) 0 setting ;;
       Done (with_controller e controllers [400; 0; 0; 0; 0]%Q)).
Proof.
  intros turn model e.
  destruct (@wrapping_range_normalized goldsrc e model 400%Q) as (normalized & Hrange & Hset & _).
  - reflexivity.
  - vm_compute. discriminate.
  - vm_compute. discriminate.
  - exists normalized. split; [split; apply Hrange|].
    apply (Hset 0 turn).
    + reflexivity.
    + reflexivity.
    + reflexivity.
    + reflexivity.
    + vm_compute. reflexivity.
Defined.

(** C5 as stated fails at the end of the interval: on the wrapping rotational
    range [Start = 0], [End = 720] the value 360 is kept as 360, and -360 is
    brought to 360, so that the byte stored is 127, the encoding of 360, and
    not 0. *)
Lemma wrap_reaches_360_counterexample :
  let e {A : Arith} :=
    @Scenario.entity_of A
      (Some (Scenario.model_of (Scenario.blended30 []) [Scenario.controller 0 8 0 720]))
      StandardBlender 0 0 in
  (@codec_normalize exactQ goldsrc 8 0%Q 720%Q 360%Q = Done 360%Q /\
   @codec_normalize exactQ goldsrc 8 0%Q 720%Q (-360)%Q = Done 360%Q /\
   ~ (360 < 360)%Q /\
   controller_after (@SetController exactQ goldsrc 0 360%Q e) = Some [127; 0; 0; 0] /\
   controller_after (@SetController exactQ goldsrc 0 (-360)%Q e) = Some [127; 0; 0; 0])
  /\
  (@codec_normalize ieee goldsrc 8 (@i2f ieee 0) (@i2f ieee 720) (@i2f ieee 360)
     = Done (@i2f ieee 360) /\
   @codec_normalize ieee goldsrc 8 (@i2f ieee 0) (@i2f ieee 720) (@i2f ieee (-360))
     = Done (@i2f ieee 360) /\
   @fltb ieee (@i2f ieee 360) (@i2f ieee 360) = false /\
   controller_after (@SetController ieee goldsrc 0 (@i2f ieee 360) e)
     = Some [127; 0; 0; 0] /\
   controller_after (@SetController ieee goldsrc 0 (@i2f ieee (-360)) e)
     = Some [127; 0; 0; 0]).
Proof.
  cbv zeta. repeat split; try (vm_compute; reflexivity).
  vm_compute. intros H. discriminate H.
Qed.

(** ** The chrome cache *)

Section ChromeCache.
Context {A : Arith}.
Variable glm_normalize : Vec3 -> Vec3.
Variable glm_inverse : Mat4 -> Mat4.


End ChromeCache.


(** ** Shadows *)

Section ShadowDrawing.
Context {A : Arith} {K : StudioConstants}.

(** The inner loop never hands back more commands than it was given. *)
Lemma shadow_run_shorter (r : StudioModelRenderer) h i : forall triCmds ctx triCmds' ctx',
  shadow_run r h i triCmds ctx = Done (triCmds', ctx') ->
  (length triCmds' <= length triCmds)%nat.
Proof.
  induction i as [|i IH]; intros triCmds ctx triCmds' ctx' H; cbn [shadow_run] in H.
  - inversion H; subst. lia.
  - destruct triCmds as [|index rest]; [discriminate|].
    apply bind_Done in H as (vertex & _ & H).
    apply IH in H. rewrite length_skipn in H. lia.
Qed.

(** Fuel as large as the command stream is enough: more changes nothing. *)
Lemma shadow_commands_fuel (r : StudioModelRenderer) h fuel1 :
  forall fuel2 triCmds ctx,
    (length triCmds <= fuel1)%nat -> (length triCmds <= fuel2)%nat ->
    shadow_commands fuel1 r h triCmds ctx = shadow_commands fuel2 r h triCmds ctx.
Proof.
  induction fuel1 as [|fuel1 IH]; intros fuel2 triCmds ctx H1 H2;
    destruct triCmds as [|i rest]; simpl in H1, H2; try lia;
    destruct fuel2 as [|fuel2]; try lia; try reflexivity.
  simpl. destruct (i =? 0); [reflexivity|].
  destruct (if i <? 0 then isub 0 i else Done i) as [count|]; [|reflexivity].
  cbn [bind].
  destruct (shadow_run r h (Z.to_nat count) rest _) as [[rest' ctx1]|] eqn:Hrun;
    [|reflexivity].
  cbn [bind]. apply shadow_run_shorter in Hrun. apply IH; lia.
Qed.

Lemma calls_issue (issued : list GLCall) : forall ctx,
  calls (issue issued ctx) = calls ctx ++ issued.
Proof.
  induction issued as [|c issued IH]; intros ctx; cbn [issue fold_left].
  - now rewrite app_nil_r.
  - fold (issue issued (gl c ctx)). rewrite IH. cbn [calls gl].
    now rewrite <- app_assoc.
Qed.

Lemma issue_app (first second : list GLCall) ctx :
  issue (first ++ second) ctx = issue second (issue first ctx).
Proof. apply fold_left_app. Qed.

Lemma as_int_Done (z c : Z) : as_int z = Done c -> c = z /\ INT_MIN <= z <= INT_MAX.
Proof.
  unfold as_int, fits_int. intros H.
  destruct ((INT_MIN <=? z) && (z <=? INT_MAX)) eqn:E; [|discriminate].
  apply andb_true_iff in E as [E1 E2]. apply Z.leb_le in E1, E2.
  inversion H. lia.
Qed.

Variable r : StudioModelRenderer.
Variable h : float.

Let V := Z.of_nat (length (_xformverts r)).

(** The vertex handed to [glVertex3fv] is the shadow of the specification. *)
Lemma shadow_point_is_the_ground_shadow (vertex : Vec3) :
  shadow_point (_lightvec r) h vertex = ground_shadow (_lightvec r) h vertex.
Proof. reflexivity. Qed.

(** *** From the runs to the calls *)

Lemma shadow_run_draws (vs : list TriangleVertex) : forall rest ctx,
  Forall (fun v => 0 <= tv_vertex v < V) vs ->
  shadow_run r h (length vs) (flat_map stream_entries vs ++ rest) ctx
  = Done (rest, issue (flat_map (shadow_vertex (_lightvec r) h (_xformverts r)) vs) ctx).
Proof.
  induction vs as [|v vs IH]; intros rest ctx Hvs; [reflexivity|].
  inversion Hvs as [|v' vs' Hv Hrest]; subst v' vs'.
  cbn [length flat_map]. rewrite <- app_assoc.
  unfold stream_entries at 1. destruct (tv_skipped v) as [[a b] c] eqn:Eskipped.
  cbn [app shadow_run].
  unfold at_index. destruct (tv_vertex v <? 0) eqn:Hneg; [apply Z.ltb_lt in Hneg; lia|].
  rewrite issue_app. unfold shadow_vertex at 2.
  destruct (nth_error (_xformverts r) (Z.to_nat (tv_vertex v))) as [vertex|] eqn:Hnth.
  - cbn [bind skipn]. rewrite (IH rest _ Hrest).
    rewrite shadow_point_is_the_ground_shadow. reflexivity.
  - apply nth_error_None in Hnth. subst V. lia.
Qed.

Lemma run_count_of (run : TriangleRun) :
  run_ok V run ->
  run_count run <> 0 /\
  (run_count run <? 0) = run_fan run /\
  (if run_count run <? 0 then isub 0 (run_count run) else Done (run_count run))
    = Done (Z.of_nat (length (run_vertices run))).
Proof.
  intros (Hsome & Hint & _). unfold run_count in *.
  assert (Hlen : (0 < length (run_vertices run))%nat).
  { destruct (run_vertices run); [contradiction | simpl; lia]. }
  destruct (run_fan run).
  - assert (E : (- Z.of_nat (length (run_vertices run)) <? 0) = true)
      by (apply Z.ltb_lt; lia).
    rewrite E. split; [lia|]. split; [reflexivity|].
    unfold isub. rewrite as_int_fits by (unfold INT_MIN, INT_MAX in *; lia).
    f_equal. lia.
  - assert (E : (Z.of_nat (length (run_vertices run)) <? 0) = false)
      by (apply Z.ltb_ge; lia).
    rewrite E. split; [lia|]. split; reflexivity.
Qed.

Lemma shadow_commands_draws (runs : list TriangleRun) : forall rest ctx fuel,
  Forall (run_ok V) runs ->
  (length (flat_map encode_run runs ++ 0%Z :: rest) <= fuel)%nat ->
  shadow_commands fuel r h (flat_map encode_run runs ++ 0 :: rest) ctx
  = Done (issue (flat_map (shadow_of_run (_lightvec r) h (_xformverts r)) runs) ctx).
Proof.
  induction runs as [|run runs IH]; intros rest ctx fuel Hruns Hfuel.
  - destruct fuel; reflexivity.
  - inversion Hruns as [|run' runs' Hrun Hrest]; subst run' runs'.
    destruct (run_count_of run Hrun) as (Hnonzero & Hfan & Hcount).
    cbn [flat_map] in *. unfold encode_run at 1 in Hfuel. unfold encode_run at 1.
    rewrite <- !app_assoc in *. cbn [app length] in *.
    destruct fuel as [|fuel]; [lia|].
    cbn [shadow_commands]. apply Z.eqb_neq in Hnonzero. rewrite Hnonzero.
    rewrite Hcount. cbn [bind]. rewrite Nat2Z.id.
    rewrite shadow_run_draws by apply Hrun. cbn [bind].
    rewrite IH; [|exact Hrest | rewrite length_app in Hfuel; lia].
    rewrite Hfan. unfold shadow_of_run at 2.
    rewrite issue_app. cbn [issue fold_left app]. rewrite fold_left_app.
    reflexivity.
Qed.

Lemma shadow_meshes_draws (meshes : list Mesh) : forall drawing drawnPolys ctx,
  meshes_encode V meshes drawing ->
  exists polys,
    shadow_meshes r h meshes drawnPolys ctx
    = Done (polys, issue (shadow_of_drawing (_lightvec r) h (_xformverts r) drawing) ctx).
Proof.
  induction meshes as [|mesh meshes IH]; intros drawing drawnPolys ctx Hdrawing;
    inversion Hdrawing as [|mesh' runs meshes' drawing' Hmesh Hrest]; subst.
  - eexists. reflexivity.
  - destruct Hmesh as ((rest & Hstream) & Hruns).
    cbn [shadow_meshes]. rewrite Hstream.
    rewrite shadow_commands_draws by (exact Hruns || lia). cbn [bind].
    destruct (IH drawing' ((drawnPolys + mesh_NumTriangles mesh) mod 2 ^ 32)
                (issue (flat_map (shadow_of_run (_lightvec r) h (_xformverts r)) runs) ctx)
                Hrest) as [polys Hpolys].
    exists polys. rewrite Hpolys. unfold shadow_of_drawing. cbn [flat_map].
    rewrite issue_app. reflexivity.
Qed.

(** *** From a run of the code to the runs *)

Lemma shadow_run_decodes (n : nat) : forall triCmds ctx rest ctx',
  shadow_run r h n triCmds ctx = Done (rest, ctx') ->
  rest <> [] ->
  exists vs, length vs = n /\
             triCmds = flat_map stream_entries vs ++ rest /\
             Forall (fun v => 0 <= tv_vertex v < V) vs.
Proof.
  induction n as [|n IH]; intros triCmds ctx rest ctx' H Hrest; cbn [shadow_run] in H.
  - inversion H; subst. exists []. repeat split. constructor.
  - destruct triCmds as [|index tail]; [discriminate|].
    apply bind_Done in H as (vertex & Hvertex & H).
    apply at_index_Done in Hvertex as [Hrange _].
    destruct (IH _ _ _ _ H Hrest) as (vs & Hlen & Hstream & Hvs).
    destruct tail as [|a [|b [|c tail]]];
      try (cbn [skipn] in Hstream; symmetry in Hstream;
           apply app_eq_nil in Hstream as [_ Hnil]; contradiction).
    cbn [skipn] in Hstream.
    exists ({| tv_vertex := index; tv_skipped := (a, b, c) |} :: vs).
    split; [simpl; lia|]. split.
    + cbn [flat_map]. unfold stream_entries at 1. cbn [tv_vertex tv_skipped app].
      rewrite Hstream. reflexivity.
    + constructor; [exact Hrange | exact Hvs].
Qed.

Lemma shadow_commands_decodes (fuel : nat) : forall triCmds ctx ctx',
  shadow_commands fuel r h triCmds ctx = Done ctx' ->
  exists runs, encodes V triCmds runs.
Proof.
  induction fuel as [|fuel IH]; intros triCmds ctx ctx' H;
    destruct triCmds as [|i rest]; cbn [shadow_commands] in H; try discriminate;
    destruct (i =? 0) eqn:Hzero; try discriminate;
    try (apply Z.eqb_eq in Hzero; subst i; exists []; split;
         [exists rest; reflexivity | constructor]).
  apply Z.eqb_neq in Hzero.
  apply bind_Done in H as (count & Hcount & H).
  apply bind_Done in H as ([rest1 ctx1] & Hrun & H).
  destruct (IH _ _ _ H) as (runs & (rest2 & Hstream) & Hruns).
  assert (Hrest1 : rest1 <> []) by (rewrite Hstream; destruct (flat_map encode_run runs); discriminate).
  destruct (shadow_run_decodes _ _ _ _ _ Hrun Hrest1) as (vs & Hlen & Hrest & Hvs).
  assert (Hi : count = Z.abs i /\ INT_MIN < i).
  { destruct (i <? 0) eqn:Hneg.
    - apply Z.ltb_lt in Hneg. apply as_int_Done in Hcount as [E Hfit].
      unfold INT_MIN, INT_MAX in *. lia.
    - apply Z.ltb_ge in Hneg. inversion Hcount. unfold INT_MIN. lia. }
  destruct Hi as [Ecount Hint].
  assert (Ei : run_count {| run_fan := i <? 0; run_vertices := vs |} = i).
  { unfold run_count. cbn [run_fan run_vertices]. rewrite Hlen.
    destruct (i <? 0) eqn:Hneg;
      [apply Z.ltb_lt in Hneg | apply Z.ltb_ge in Hneg]; lia. }
  exists ({| run_fan := i <? 0; run_vertices := vs |} :: runs). split.
  - exists rest2. cbn [flat_map]. unfold encode_run at 1. rewrite Ei.
    cbn [run_vertices]. rewrite <- !app_assoc. cbn [app].
    rewrite Hrest, Hstream. reflexivity.
  - constructor; [|exact Hruns]. split; [|split].
    + cbn [run_vertices]. destruct vs; [simpl in Hlen; lia | discriminate].
    + rewrite Ei. exact Hint.
    + exact Hvs.
Qed.

Lemma shadow_meshes_decodes (meshes : list Mesh) : forall drawnPolys ctx result,
  shadow_meshes r h meshes drawnPolys ctx = Done result ->
  exists drawing, meshes_encode V meshes drawing.
Proof.
  induction meshes as [|mesh meshes IH]; intros drawnPolys ctx result H.
  - exists []. constructor.
  - cbn [shadow_meshes] in H. apply bind_Done in H as (ctx1 & Hcmds & H).
    apply shadow_commands_decodes in Hcmds as [runs Hruns].
    apply IH in H as [drawing Hdrawing].
    exists (runs :: drawing). constructor; assumption.
Qed.
End ShadowDrawing.

Section DrawingShadows.
Context {A : Arith} {K : StudioConstants}.
Variable r : StudioModelRenderer.
Variable studioModel : EditableStudioModel.
Variable renderInfo : ModelRenderInfo.
Variable model : Model.
Variable fixZFighting wireframe : bool.
Hypothesis Hstudio : _studioModel r = Some studioModel.
Hypothesis Hinfo : _renderInfo r = Some renderInfo.
Hypothesis Hmodel : _model r = Some model.
Hypothesis Hflag : Z.land (Flags studioModel) EF_NOSHADELIGHT = 0.

(** On meshes that hold [drawing], [DrawShadows] issues the set-up, the
    shadow of [drawing] and the tear-down, and changes nothing else. *)
Lemma DrawShadows_draws (drawing : list (list TriangleRun)) :
  meshes_encode (Z.of_nat (length (_xformverts r))) (model_Meshes model) drawing ->
  exists drawnPolys,
    DrawShadows fixZFighting wireframe r
    = Done (with_gl r
              (issue (shadow_setup fixZFighting wireframe (_wireframeColor r)
                        (Transparency renderInfo)
                      ++ shadow_of_drawing (_lightvec r) (vz (Origin renderInfo))
                           (_xformverts r) drawing
                      ++ shadow_teardown (texture_2d_enabled (_glContext r))
                           (GL_DEPTH_WRITEMASK (_glContext r)))
                 (_glContext r)),
            drawnPolys).
Proof.
  intros Hdrawing. unfold DrawShadows.
  rewrite Hstudio, Hflag, Hinfo. cbn [Z.eqb]. cbv zeta.
  unfold InternalDrawShadows. cbn [_renderInfo _model with_gl].
  rewrite Hinfo, Hmodel.
  destruct wireframe;
    match goal with
    | |- context [shadow_meshes ?r1 ?h ?meshes ?d ?ctx] =>
      destruct (shadow_meshes_draws r1 h meshes drawing d ctx Hdrawing) as [polys Hmeshes];
        rewrite Hmeshes
    end;
    cbn [bind _glContext _lightvec _xformverts with_gl];
    exists polys; rewrite !issue_app; unfold shadow_setup, shadow_teardown;
    change (texture_2d_enabled (gl (glDepthMask (negb fixZFighting)) (_glContext r)))
      with (texture_2d_enabled (_glContext r));
    destruct (texture_2d_enabled (_glContext r)); reflexivity.
Qed.

(** Whenever [DrawShadows] has a defined outcome, the meshes hold runs. *)
Lemma DrawShadows_decodes (r' : StudioModelRenderer) (drawnPolys : Z) :
  DrawShadows fixZFighting wireframe r = Done (r', drawnPolys) ->
  exists drawing,
    meshes_encode (Z.of_nat (length (_xformverts r))) (model_Meshes model) drawing.
Proof.
  intros H. unfold DrawShadows in H.
  rewrite Hstudio, Hflag, Hinfo in H. cbn [Z.eqb] in H. cbv zeta in H.
  apply bind_Done in H as ([r1 polys] & Hinternal & _).
  unfold InternalDrawShadows in Hinternal.
  cbn [_renderInfo _model with_gl] in Hinternal. rewrite Hinfo, Hmodel in Hinternal.
  apply bind_Done in Hinternal as (result & Hmeshes & _).
  apply shadow_meshes_decodes in Hmeshes. exact Hmeshes.
Qed.
End DrawingShadows.

Lemma setup_sets_state {A : Arith} (fixZFighting wireframe : bool) (color : Vec3)
    (transparency : float) :
  Forall sets_state (shadow_setup fixZFighting wireframe color transparency).
Proof. unfold shadow_setup. destruct wireframe; repeat constructor. Qed.

Lemma teardown_sets_state {A : Arith} (texture2DWasEnabled oldDepthMask : bool) :
  Forall (@sets_state A) (shadow_teardown texture2DWasEnabled oldDepthMask).
Proof. unfold shadow_teardown. destruct texture2DWasEnabled; repeat constructor. Qed.

(** C8.  For a model without the "no shade light" flag, [DrawShadows] draws
    the shadow of what the meshes of the current submodel hold and nothing
    else.  When the triangle commands of the meshes hold the runs [drawing],
    the call returns, and the calls it adds are state calls, then for each run
    in order a [glBegin], for each vertex of the run in order a
    [glVertex3fv] of the transformed vertex [v] the command names moved to
    [(v.x - light.x * (v.z - originZ), v.y - light.y * (v.z - originZ),
    originZ + 1)], with [originZ] the z of the entity origin, and a [glEnd],
    and then state calls again.  Whenever the call has a defined outcome the
    triangle commands do hold such runs.  For a model with the flag,
    [DrawShadows] issues no OpenGL call, leaves the renderer as it was and
    returns 0 polygons. *)
Theorem shadows_project_onto_the_ground {A : Arith} {K : StudioConstants}
    (r : StudioModelRenderer) (studioModel : EditableStudioModel)
    (renderInfo : ModelRenderInfo) (fixZFighting wireframe : bool) :
  _studioModel r = Some studioModel ->
  _renderInfo r = Some renderInfo ->
  (Z.land (Flags studioModel) EF_NOSHADELIGHT = 0 ->
   forall model, _model r = Some model ->
   (forall drawing,
       meshes_encode (Z.of_nat (length (_xformverts r))) (model_Meshes model) drawing ->
       exists r' drawnPolys before after,
         DrawShadows fixZFighting wireframe r = Done (r', drawnPolys) /\
         calls (_glContext r')
         = calls (_glContext r) ++ before
           ++ shadow_of_drawing (_lightvec r) (vz (Origin renderInfo)) (_xformverts r)
                drawing
           ++ after /\
         Forall sets_state before /\ Forall sets_state after)
   /\
   (forall r' drawnPolys,
       DrawShadows fixZFighting wireframe r = Done (r', drawnPolys) ->
       exists drawing,
         meshes_encode (Z.of_nat (length (_xformverts r))) (model_Meshes model) drawing))
  /\
  (Z.land (Flags studioModel) EF_NOSHADELIGHT <> 0 ->
   DrawShadows fixZFighting wireframe r = Done (r, 0)).
Proof.
  intros Hstudio Hinfo. split.
  - intros Hflag model Hmodel. split.
    + intros drawing Hdrawing.
      destruct (DrawShadows_draws r studioModel renderInfo model fixZFighting wireframe
                  Hstudio Hinfo Hmodel Hflag drawing Hdrawing) as [drawnPolys Hdraws].
      eexists _, drawnPolys, _, _. split; [exact Hdraws|].
      cbn [_glContext with_gl]. rewrite calls_issue.
      split; [reflexivity|].
      split; [apply setup_sets_state | apply teardown_sets_state].
    + intros r' drawnPolys H.
      exact (DrawShadows_decodes r studioModel renderInfo model fixZFighting wireframe
               Hstudio Hinfo Hmodel Hflag r' drawnPolys H).
  - intros Hflag. unfold DrawShadows. rewrite Hstudio.
    apply Z.eqb_neq in Hflag. rewrite Hflag. reflexivity.
Qed.

(** A run on the scenario renderer, over the rationals: origin z 10, light
    direction (1, 2, -1), a strip over (0, 0, 12), (4, 0, 30) and (0, 4, 10).
    The vertex (4, 0, 30) is submitted as (-16, -40, 11).  With the flag 256
    nothing is drawn. *)
Lemma shadows_witness :
  let r := @Scenario.renderer exactQ 0 in
  let flagged := @Scenario.renderer exactQ 256 in
  let strip :=
    {| run_fan := false;
       run_vertices := [ {| tv_vertex := 0; tv_skipped := (0, 0, 0) |};
                         {| tv_vertex := 1; tv_skipped := (1, 0, 0) |};
                         {| tv_vertex := 2; tv_skipped := (2, 0, 0) |} ] |} in
  (exists r' drawnPolys before after,
      @DrawShadows exactQ goldsrc false false r = Done (r', drawnPolys) /\
      calls (_glContext r')
      = calls (_glContext r) ++ before
        ++ @shadow_of_drawing exactQ (Scenario.vec3 1 2 (-1)) 10%Q
             [Scenario.vec3 0 0 12; Scenario.vec3 4 0 30; Scenario.vec3 0 4 10]
             [[strip]]
        ++ after /\
      Forall sets_state before /\ Forall sets_state after)
  /\
  @shadow_of_drawing exactQ (Scenario.vec3 1 2 (-1)) 10%Q
    [Scenario.vec3 0 0 12; Scenario.vec3 4 0 30; Scenario.vec3 0 4 10] [[strip]]
  = [glBegin GL_TRIANGLE_STRIP;
     glVertex3fv (Scenario.vec3 (-2) (-4) 11);
     glVertex3fv (Scenario.vec3 (-16) (-40) 11);
     glVertex3fv (Scenario.vec3 0 4 11);
     glEnd]
  /\
  drawn (@DrawShadows exactQ goldsrc false false r)
    = Some ([(-2, -4, 11); (-16, -40, 11); (0, 4, 11)]%Q, 1)
  /\
  @DrawShadows exactQ goldsrc false false flagged = Done (flagged, 0).
Proof.
  intros r flagged strip.
  pose proof (@shadows_project_onto_the_ground exactQ goldsrc r
                (Scenario.studio_model 0) (Scenario.render_info (Some (Scenario.studio_model 0)))
                false false eq_refl eq_refl) as [Hdrawn _].
  pose proof (@shadows_project_onto_the_ground exactQ goldsrc flagged
                (Scenario.studio_model 256)
                (Scenario.render_info (Some (Scenario.studio_model 256)))
                false false eq_refl eq_refl) as [_ Hskipped].
  split; [|split; [|split]].
  - apply (Hdrawn eq_refl {| model_Meshes := [Scenario.strip] |} eq_refl).
    constructor; [|constructor]. split.
    + exists []. reflexivity.
    + constructor; [|constructor]. split; [discriminate|]. split.
      * vm_compute. reflexivity.
      * repeat constructor; simpl; lia.
  - vm_compute. reflexivity.
  - vm_compute. reflexivity.
  - apply Hskipped. vm_compute. discriminate.
Defined.

(** ** Operations without a model *)

Section NullModel.
Context {A : Arith} {K : StudioConstants}.

(** The operations that test [_editableModel] first are no-ops without a
    model. *)
Lemma guarded_operations_without_model (e : StudioModelEntity)
    (now : double) (deltaTime maximum frame value start end_ : float)
    (event : AnimEvent) (index skin controller blender : Z) (allow : bool) :
  _editableModel e = None ->
  AdvanceFrame now deltaTime maximum e = Done (e, i2f 0) /\
  SetFrame now frame e = Done e /\
  GetAnimationEvent e event start end_ index allow = Done (0, event) /\
  DispatchAnimEvents allow e = Done (e, []) /\
  SetSkin skin e = e /\
  SetController controller value e = Done e /\
  SetMouth value e = Done e /\
  SetBlending blender value e = Done e.
Proof.
  intros Hnull.
  unfold AdvanceFrame, SetFrame, GetAnimationEvent, DispatchAnimEvents, SetSkin,
    SetController, SetMouth, SetBlending.
  rewrite Hnull. destruct (feqb frame (i2f (-1))); repeat split; reflexivity.
Qed.

(** [SetSequence] has no such test, and [GetNumFrames] none that holds for a
    sequence index from 0 on. *)
Lemma unguarded_operations_without_model (e : StudioModelEntity) (sequence : Z) :
  _editableModel e = None ->
  SetSequence sequence e = Undefined NullDereference /\
  (0 <= _sequence e -> GetNumFrames e = Undefined NullDereference).
Proof.
  intros Hnull. unfold SetSequence, GetNumFrames. rewrite Hnull.
  split; [reflexivity|]. intros H.
  destruct (_sequence e <? 0) eqn:E; [apply Z.ltb_lt in E; lia | reflexivity].
Qed.

(** [DrawModel] on a null model: the error is logged, no OpenGL call is
    issued, the draw generation is not bumped, and 0 is returned. *)
Lemma DrawModel_null_model
    (draw_passes : Z -> StudioModelRenderer -> result (StudioModelRenderer * Z))
    (renderInfo : ModelRenderInfo) (flags : Z) (r : StudioModelRenderer) :
  Model_ renderInfo = None ->
  exists r',
    DrawModel draw_passes renderInfo flags r = Done (r', 0) /\
    _logger r' = _logger r ++ ["Called with null model!"%string] /\
    _glContext r' = _glContext r /\
    _modelsDrawnCount r' = _modelsDrawnCount r /\
    _drawnPolygonsCount r' = _drawnPolygonsCount r.
Proof.
  intros Hnull. unfold DrawModel. rewrite Hnull.
  eexists. split; [reflexivity|]. repeat split.
Qed.
End NullModel.

(** C9, the failing run.  On an entity without a model, at sequence 0,
    [SetSequence(0)] (the first call of [Spawn]) and [GetNumFrames()]
    dereference the null [_editableModel]: undefined behaviour, where the
    guarded operations next to them return without effect. *)
Theorem SetSequence_dereferences_null_model :
  let e {A : Arith} := @Scenario.entity_of A None StandardBlender 0 0 in
  (@SetSequence exactQ 0 e = Undefined NullDereference /\
   @GetNumFrames exactQ e = Undefined NullDereference /\
   @SetFrame exactQ 6%Q 3%Q e = Done e /\
   @SetController exactQ goldsrc 0 45%Q e = Done e)
  /\
  (@SetSequence ieee 0 e = Undefined NullDereference /\
   @GetNumFrames ieee e = Undefined NullDereference /\
   @SetFrame ieee (@i2d ieee 6) (@i2f ieee 3) e = Done e /\
   @SetController ieee goldsrc 0 (@i2f ieee 45) e = Done e).
Proof.
  cbv zeta. repeat split; reflexivity.
Qed.

(** * Further properties *)

(** ** Event dispatch *)

(** X1.  On an entity with a current sequence, [DispatchAnimEvents] hands to
    [HandleAnimEvent], in the order of [SortedEvents] and once each, exactly
    the events that pass the client-event filter and the window test of
    [GetAnimationEvent] for the window from [_lastEventCheck] to [_frame]
    (from 0 to 1 for a sequence of at most one frame); it then leaves the
    marker [_lastEventCheck] at [_frame] and the frame where it was. *)
Theorem dispatch_hands_over_the_due_events {A : Arith} {K : StudioConstants}
    (e : StudioModelEntity) (sd : Sequence) (allow : bool) :
  current_sequence e sd ->
  INT_MIN < seq_NumFrames sd <= INT_MAX ->
  let single := seq_NumFrames sd <=? 1 in
  let start := if single then i2f 0 else _lastEventCheck e in
  let end_ := if single then i2f 1 else _frame e in
  exists e',
    DispatchAnimEvents allow e =
      Done (e', map handed_over (filter (due sd start end_ allow) (seq_SortedEvents sd))) /\
    _lastEventCheck e' = _frame e /\
    _frame e' = _frame e.
Proof.
  intros Hcurrent Hframes single start end_.
  rewrite (DispatchAnimEvents_window sd Hframes allow (_lastEventCheck e) (_frame e) e
             Hcurrent eq_refl eq_refl).
  eexists. split; [reflexivity|]. split; reflexivity.
Qed.

Lemma dispatch_hands_over_witness :
  let events := [Scenario.event 5 1001; Scenario.event 12 7001; Scenario.event 25 1002] in
  let e := @Scenario.entity_of exactQ
             (Some (Scenario.model_of (Scenario.sequence30 10 1 events) []))
             StandardBlender 20 0 in
  exists e',
    @DispatchAnimEvents exactQ goldsrc false e =
      Done (e', [ {| ae_id := 1001; ae_options := String.EmptyString |} ]) /\
    _lastEventCheck e' = 20%Q /\
    _frame e' = 20%Q.
Proof.
  intros events e.
  apply (@dispatch_hands_over_the_due_events exactQ goldsrc e
           (Scenario.sequence30 10 1 events) false).
  - eexists. split; reflexivity.
  - unfold INT_MIN, INT_MAX. simpl. lia.
Defined.

(** X2.  Over the rationals, on a current sequence of more than one frame and
    below its last frame, a second [DispatchAnimEvents] right after a first
    hands over nothing and changes nothing: the window left behind is
    empty. *)
Theorem second_dispatch_hands_over_nothing {K : StudioConstants}
    (e e1 : @StudioModelEntity exactQ) (sd : @Sequence exactQ) (allow : bool)
    (handled : list AnimEvent) :
  current_sequence e sd ->
  1 < seq_NumFrames sd <= INT_MAX ->
  (_frame e < inject_Z (seq_NumFrames sd - 1))%Q ->
  @DispatchAnimEvents exactQ K allow e = Done (e1, handled) ->
  @DispatchAnimEvents exactQ K allow e1 = Done (e1, []).
Proof.
  intros Hcurrent Hframes Hbelow Hfirst.
  assert (Hrange : INT_MIN < seq_NumFrames sd <= INT_MAX) by (unfold INT_MIN; lia).
  rewrite (DispatchAnimEvents_window sd Hrange allow (_lastEventCheck e) (_frame e) e
             Hcurrent eq_refl eq_refl) in Hfirst.
  inversion Hfirst; subst e1; clear Hfirst.
  assert (Hcurrent1 : current_sequence (with_frame e (_frame e) (_animTime e) (_frame e)) sd).
  { destruct Hcurrent as (model & Hmodel & Hseq). exists model. split; assumption. }
  rewrite (DispatchAnimEvents_window sd Hrange allow (_frame e) (_frame e) _
             Hcurrent1 eq_refl eq_refl).
  assert (Hsingle : (seq_NumFrames sd <=? 1) = false) by (apply Z.leb_gt; lia).
  rewrite Hsingle. cbn [_frame _animTime with_frame].
  f_equal. f_equal.
  assert (Hnone : forall events : list SequenceEvent,
             filter (@due exactQ K sd (_frame e) (_frame e) allow) events = []).
  { induction events as [|candidate events IH]; [reflexivity|].
    cbn [filter]. rewrite IH.
    assert (E : @due exactQ K sd (_frame e) (_frame e) allow candidate = false).
    { destruct (Qlt_le_dec (inject_Z (ev_Frame candidate)) (_frame e)) as [Hlt|Hge].
      - unfold due, in_window. cbn [fleb fltb i2f fadd fsub exactQ].
        assert (E1 : Qleb (_frame e) (inject_Z (ev_Frame candidate)) = false)
          by (apply Qleb_gt; exact Hlt).
        assert (E2 : Qleb (inject_Z (seq_NumFrames sd - 1)) (_frame e) = false)
          by (apply Qleb_gt; exact Hbelow).
        rewrite E1, E2.
        destruct (admitted allow candidate),
          (negb (Z.land (seq_Flags sd) STUDIO_LOOPING =? 0)); reflexivity.
      - apply event_past_the_frame_is_not_due; assumption. }
    now rewrite E. }
  rewrite Hnone. reflexivity.
Qed.

Lemma second_dispatch_witness :
  let events := [Scenario.event 5 1001; Scenario.event 25 1002] in
  let e := @Scenario.entity_of exactQ
             (Some (Scenario.model_of (Scenario.sequence30 10 1 events) []))
             StandardBlender 20 0 in
  let e1 := with_frame e 20%Q 5%Q 20%Q in
  @DispatchAnimEvents exactQ goldsrc true e1 = Done (e1, []).
Proof.
  intros events e e1.
  apply (@second_dispatch_hands_over_nothing goldsrc e e1
           (Scenario.sequence30 10 1 events) true
           [ {| ae_id := 1001; ae_options := String.EmptyString |} ]).
  - eexists. split; reflexivity.
  - unfold INT_MAX. simpl. lia.
  - reflexivity.
  - reflexivity.
Defined.

(** X3.  On a current sequence of at most one frame the window is always from
    0 to 1, whatever the marker and the frame: every [DispatchAnimEvents]
    hands over the same events again, those the window from 0 to 1 admits. *)
Theorem single_frame_sequence_fires_at_every_dispatch
    {A : Arith} {K : StudioConstants}
    (e e1 : StudioModelEntity) (sd : Sequence) (allow : bool)
    (handled : list AnimEvent) :
  current_sequence e sd ->
  INT_MIN < seq_NumFrames sd <= 1 ->
  DispatchAnimEvents allow e = Done (e1, handled) ->
  handled = map handed_over
              (filter (due sd (i2f 0) (i2f 1) allow) (seq_SortedEvents sd)) /\
  DispatchAnimEvents allow e1 = Done (e1, handled).
Proof.
  intros Hcurrent Hframes Hfirst.
  assert (Hrange : INT_MIN < seq_NumFrames sd <= INT_MAX) by (unfold INT_MAX; lia).
  rewrite (DispatchAnimEvents_window sd Hrange allow (_lastEventCheck e) (_frame e) e
             Hcurrent eq_refl eq_refl) in Hfirst.
  assert (Hsingle : (seq_NumFrames sd <=? 1) = true) by (apply Z.leb_le; lia).
  rewrite Hsingle in Hfirst.
  inversion Hfirst; subst e1 handled; clear Hfirst.
  split; [reflexivity|].
  assert (Hcurrent1 : current_sequence (with_frame e (_frame e) (_animTime e) (_frame e)) sd).
  { destruct Hcurrent as (model & Hmodel & Hseq). exists model. split; assumption. }
  rewrite (DispatchAnimEvents_window sd Hrange allow (_frame e) (_frame e) _
             Hcurrent1 eq_refl eq_refl).
  rewrite Hsingle. reflexivity.
Qed.

Lemma single_frame_sequence_witness :
  let pose :=
    @Build_Sequence exactQ 30%Q 0 1 [] [Scenario.event 0 1004; Scenario.event 3 1005] in
  let e := @Scenario.entity_of exactQ (Some (Scenario.model_of pose []))
             StandardBlender 0 0 in
  let handled := [ {| ae_id := 1004; ae_options := String.EmptyString |} ] in
  handled = map handed_over
              (filter (@due exactQ goldsrc pose 0%Q 1%Q true) (seq_SortedEvents pose)) /\
  @DispatchAnimEvents exactQ goldsrc true (with_frame e 0%Q 5%Q 0%Q)
    = Done (with_frame e 0%Q 5%Q 0%Q, handled).
Proof.
  intros pose e handled.
  apply (@single_frame_sequence_fires_at_every_dispatch exactQ goldsrc e
           (with_frame e 0%Q 5%Q 0%Q) pose true handled).
  - eexists. split; reflexivity.
  - unfold INT_MIN. simpl. lia.
  - reflexivity.
Defined.

(** ** Selecting a sequence and reading it back *)

Lemma at_index_outside {T} (v : list T) i :
  ~ 0 <= i < Z.of_nat (length v) -> at_index v i = Undefined OutOfBounds.
Proof.
  intros Hout. unfold at_index.
  destruct (i <? 0) eqn:Hneg; [reflexivity|]. apply Z.ltb_ge in Hneg.
  destruct (nth_error v (Z.to_nat i)) eqn:Hn; [|reflexivity].
  exfalso. apply Hout.
  assert ((Z.to_nat i < length v)%nat) by (apply nth_error_Some; congruence). lia.
Qed.

Lemma at_index_inside {T} (v : list T) i :
  0 <= i < Z.of_nat (length v) -> exists x, at_index v i = Done x.
Proof.
  intros Hin. unfold at_index.
  destruct (i <? 0) eqn:Hneg; [apply Z.ltb_lt in Hneg; lia|].
  destruct (nth_error v (Z.to_nat i)) eqn:Hn; [eauto|].
  apply nth_error_None in Hn. lia.
Qed.

Lemma no_sequence_outside {A : Arith} (model : EditableStudioModel) sequence :
  ~ 0 <= sequence < Z.of_nat (length (Sequences model)) ->
  no_sequence model sequence = true.
Proof.
  intros Hout. unfold no_sequence, size_le, to_size_t.
  destruct (sequence <? 0) eqn:Hneg; [reflexivity|]. apply Z.ltb_ge in Hneg.
  simpl. apply Z.leb_le. lia.
Qed.

Section Selecting.
Context {A : Arith} {K : StudioConstants} {HC : HeaderConstants}.
Variable AlwaysHasBlender : Blender -> bool.
Variables LinearMovement BBMin BBMax : Sequence -> Vec3.
Variable glm_length : Vec3 -> float.

(** The test of [SetSequence] lets through -1 and the indices into
    [Sequences]. *)
Lemma SetSequence_test (model : EditableStudioModel) (sequence : Z) :
  (negb (sequence =? -1) && ((sequence <? -1) || size_le (Sequences model) sequence)
     = false)
  <-> sequence_valid model sequence.
Proof.
  unfold sequence_valid, size_le, to_size_t.
  destruct (sequence =? -1) eqn:E1; cbn [negb andb].
  - apply Z.eqb_eq in E1. split; [left; exact E1 | reflexivity].
  - apply Z.eqb_neq in E1.
    destruct (sequence <? -1) eqn:E2; cbn [orb].
    + apply Z.ltb_lt in E2. split; [discriminate | intros [H|H]; lia].
    + apply Z.ltb_ge in E2.
      destruct (sequence <? 0) eqn:E3; [apply Z.ltb_lt in E3; lia|].
      rewrite Z.leb_gt. split; [intros H; right; lia | intros [H|H]; lia].
Qed.

Lemma SetSequence_keeps_validity (e : StudioModelEntity)
    (model : EditableStudioModel) (sequence : Z) :
  _editableModel e = Some model ->
  sequence_valid model (_sequence e) ->
  exists e', SetSequence sequence e = Done e' /\
             _editableModel e' = Some model /\
             sequence_valid model (_sequence e').
Proof.
  intros Hmodel Hold. unfold SetSequence. rewrite Hmodel.
  destruct (Sequences model) eqn:E.
  - eexists. split; [reflexivity|]. split; [exact Hmodel | left; reflexivity].
  - rewrite <- E.
    destruct (negb (sequence =? -1)
              && ((sequence <? -1) || size_le (Sequences model) sequence)) eqn:E'.
    + eexists. split; [reflexivity|]. split; assumption.
    + eexists. split; [reflexivity|]. split; [exact Hmodel|].
      apply SetSequence_test. exact E'.
Qed.

(** X4.  On an entity with a model, [SetSequence] never fails: with no
    sequences in the model it selects -1 whatever was asked; otherwise it
    selects the index asked for when that is -1 or an index into [Sequences],
    resetting the frame and the event marker to 0, and ignores any other
    index, leaving the entity as it was.  An entity whose sequence was -1 or
    a valid index stays so. *)
Theorem SetSequence_selects_or_refuses (e : StudioModelEntity)
    (model : EditableStudioModel) (sequence : Z) :
  _editableModel e = Some model ->
  (Sequences model = [] ->
   SetSequence sequence e = Done (with_sequence e (-1) (i2f 0) (i2f 0))) /\
  (Sequences model <> [] -> sequence_valid model sequence ->
   SetSequence sequence e = Done (with_sequence e sequence (i2f 0) (i2f 0))) /\
  (Sequences model <> [] -> ~ sequence_valid model sequence ->
   SetSequence sequence e = Done e) /\
  (sequence_valid model (_sequence e) ->
   exists e', SetSequence sequence e = Done e' /\
              _editableModel e' = Some model /\
              sequence_valid model (_sequence e')).
Proof.
  intros Hmodel.
  split; [|split; [|split]]; [| | |now apply SetSequence_keeps_validity];
    unfold SetSequence; rewrite Hmodel.
  - intros Hempty. now rewrite Hempty.
  - intros Hsome Hvalid. destruct (Sequences model) eqn:E; [congruence|].
    rewrite <- E. apply SetSequence_test in Hvalid. now rewrite Hvalid.
  - intros Hsome Hinvalid. destruct (Sequences model) eqn:E; [congruence|].
    rewrite <- E.
    destruct (negb (sequence =? -1)
              && ((sequence <? -1) || size_le (Sequences model) sequence)) eqn:E';
      [reflexivity|].
    exfalso. apply Hinvalid. apply SetSequence_test. exact E'.
Qed.

(** X5.  After a [SetSequence] on an entity with a model whose sequence was
    -1 or a valid index, the readers of the current sequence are all defined:
    with a sequence selected [GetNumFrames] is its frame count, [ExtractBbox]
    its bounding box and [GetSequenceInfo] its FPS and its ground speed
    scaled by [FPS / (NumFrames - 1)], or 256 and 0 when it has at most one
    frame; with -1 selected they are 0, the zero box, and 256 and 0. *)
Theorem readers_defined_after_SetSequence (e e' : StudioModelEntity)
    (model : EditableStudioModel) (sequence : Z) :
  _editableModel e = Some model ->
  sequence_valid model (_sequence e) ->
  (forall sd, In sd (Sequences model) -> seq_NumFrames sd <= INT_MAX) ->
  SetSequence sequence e = Done e' ->
  let zero := {| vx := i2f 0; vy := i2f 0; vz := i2f 0 |} in
  match at_index (Sequences model) (_sequence e') with
  | Done sd =>
    GetNumFrames e' = Done (seq_NumFrames sd) /\
    ExtractBbox BBMin BBMax e' = Done (BBMin sd, BBMax sd) /\
    GetSequenceInfo LinearMovement glm_length e' =
      Done (if 1 <? seq_NumFrames sd
            then (seq_FPS sd,
                  fdiv (fmul (glm_length (LinearMovement sd)) (seq_FPS sd))
                       (i2f (seq_NumFrames sd - 1)))
            else (i2f 256, i2f 0))
  | Undefined _ =>
    _sequence e' = -1 /\
    GetNumFrames e' = Done 0 /\
    ExtractBbox BBMin BBMax e' = Done (zero, zero) /\
    GetSequenceInfo LinearMovement glm_length e' = Done (i2f 256, i2f 0)
  end.
Proof.
  intros Hmodel Hold Hint Hset zero.
  assert (Hnew : _editableModel e' = Some model /\ sequence_valid model (_sequence e')).
  { destruct (SetSequence_keeps_validity e model sequence Hmodel Hold)
      as (e'' & Hset' & H1 & H2).
    rewrite Hset in Hset'. inversion Hset'; subst e''. split; assumption. }
  destruct Hnew as [Hmodel' [Hnone|Hvalid]].
  - rewrite Hnone. cbn [at_index Z.ltb Z.compare].
    unfold GetNumFrames, ExtractBbox, GetSequenceInfo.
    rewrite Hmodel', Hnone. repeat split; reflexivity.
  - destruct (at_index_inside _ _ Hvalid) as [sd Hsd]. rewrite Hsd.
    unfold GetNumFrames, ExtractBbox, GetSequenceInfo.
    rewrite Hmodel', (current_sequence_valid _ _ _ Hsd), Hsd. cbn [bind].
    assert (E1 : (0 <=? _sequence e') = true) by (apply Z.leb_le; lia).
    assert (E2 : lt_size (_sequence e') (Sequences model) = true).
    { unfold lt_size, to_size_t.
      destruct (_sequence e' <? 0) eqn:E; [apply Z.ltb_lt in E; lia|].
      apply Z.ltb_lt. lia. }
    assert (E3 : (_sequence e' =? -1) = false) by (apply Z.eqb_neq; lia).
    rewrite E1, E2, E3. cbn [negb bind].
    split; [reflexivity|]. split; [reflexivity|].
    destruct (1 <? seq_NumFrames sd) eqn:EN; [|reflexivity].
    apply Z.ltb_lt in EN. unfold isub.
    rewrite as_int_fits; [reflexivity|].
    pose proof (Hint sd (at_index_In _ _ _ Hsd)). unfold INT_MIN. lia.
Qed.

(** X6.  [GetSequenceInfo] trusts the sequence index where its neighbours
    test it: on an entity with a model whose index is neither -1 nor an index
    into [Sequences] (a model replaced by [SetEditableModel] leaves the old
    index behind), [GetNumFrames] returns 0, [ExtractBbox] the zero box and
    [SetFrame] does nothing, but [GetSequenceInfo] reads [Sequences] out of
    bounds. *)
Theorem GetSequenceInfo_trusts_the_index (e : StudioModelEntity)
    (model : EditableStudioModel) (now : double) (frame : float) :
  _editableModel e = Some model ->
  ~ sequence_valid model (_sequence e) ->
  let zero := {| vx := i2f 0; vy := i2f 0; vz := i2f 0 |} in
  GetNumFrames e = Done 0 /\
  ExtractBbox BBMin BBMax e = Done (zero, zero) /\
  SetFrame now frame e = Done e /\
  GetSequenceInfo LinearMovement glm_length e = Undefined OutOfBounds.
Proof.
  intros Hmodel Hinvalid zero. unfold sequence_valid in Hinvalid.
  assert (Hout : ~ 0 <= _sequence e < Z.of_nat (length (Sequences model))) by tauto.
  assert (Hne : (_sequence e =? -1) = false) by (apply Z.eqb_neq; tauto).
  unfold GetNumFrames, ExtractBbox, SetFrame, GetSequenceInfo.
  rewrite Hmodel, (no_sequence_outside _ _ Hout), Hne, (at_index_outside _ _ Hout).
  cbn [negb bind].
  split; [reflexivity|]. split; [|split; [|reflexivity]].
  - destruct (0 <=? _sequence e) eqn:E0; [|reflexivity].
    apply Z.leb_le in E0.
    assert (E : lt_size (_sequence e) (Sequences model) = false).
    { unfold lt_size, to_size_t.
      destruct (_sequence e <? 0) eqn:E; [apply Z.ltb_lt in E; lia|].
      apply Z.ltb_ge. lia. }
    now rewrite E.
  - destruct (feqb frame (i2f (-1))); reflexivity.
Qed.
End Selecting.

Lemma SetSequence_witness :
  let model := @Scenario.model_of exactQ (Scenario.sequence30 30 1 []) [] in
  let e := @Scenario.entity_of exactQ (Some model) StandardBlender 7 3 in
  @SetSequence exactQ 5 e = Done e /\
  exists e', @SetSequence exactQ 0 e = Done e' /\
             _editableModel e' = Some model /\
             sequence_valid model (_sequence e').
Proof.
  intros model e.
  destruct (@SetSequence_selects_or_refuses exactQ e model 5 eq_refl)
    as (_ & _ & Hrefused & _).
  destruct (@SetSequence_selects_or_refuses exactQ e model 0 eq_refl)
    as (_ & _ & _ & Hkept).
  split.
  - apply Hrefused; [discriminate|]. unfold sequence_valid. simpl. lia.
  - apply Hkept. right. simpl. lia.
Defined.

Lemma readers_after_SetSequence_witness :
  let model := @Scenario.model_of exactQ (Scenario.sequence30 30 1 []) [] in
  let e := @Scenario.entity_of exactQ (Some model) StandardBlender 7 3 in
  let e' := with_sequence e 0 0%Q 0%Q in
  let box := fun _ : @Sequence exactQ => @Scenario.vec3 exactQ 16 16 72 in
  let movement := fun _ : @Sequence exactQ => @Scenario.vec3 exactQ 58 0 0 in
  @GetNumFrames exactQ e' = Done 30 /\
  @ExtractBbox exactQ box box e' = Done (Scenario.vec3 16 16 72, Scenario.vec3 16 16 72) /\
  @GetSequenceInfo exactQ movement (fun v => vx v) e' = Done (30%Q, (58 * 30 / 29)%Q).
Proof.
  intros model e e' box movement.
  apply (@readers_defined_after_SetSequence exactQ movement box box (fun v => vx v)
           e e' model 0).
  - reflexivity.
  - right. simpl. lia.
  - intros sd [<-|[]]. unfold INT_MAX. simpl. lia.
  - reflexivity.
Defined.

Lemma GetSequenceInfo_stale_index_witness :
  let model := @Scenario.model_of exactQ (Scenario.sequence30 30 1 []) [] in
  let bare := {| Sequences := []; BoneControllers := []; Bodyparts := [];
                 SkinFamilies := 1%nat; Flags := 0 |} in
  let e := SetEditableModel (Some bare)
             (@Scenario.entity_of exactQ (Some model) StandardBlender 7 3) in
  let zero := @Scenario.vec3 exactQ 0 0 0 in
  @GetNumFrames exactQ e = Done 0 /\
  @ExtractBbox exactQ (fun _ => zero) (fun _ => zero) e = Done (zero, zero) /\
  @SetFrame exactQ 6%Q 3%Q e = Done e /\
  @GetSequenceInfo exactQ (fun _ => zero) (fun v => vx v) e = Undefined OutOfBounds.
Proof.
  intros model bare e zero.
  apply (@GetSequenceInfo_trusts_the_index exactQ (fun _ => zero) (fun _ => zero)
           (fun _ => zero) (fun v => vx v) e bare 6%Q 3%Q).
  - reflexivity.
  - unfold sequence_valid. simpl. lia.
Defined.

(** ** Stores into the controller and blend arrays *)

Lemma length_replace_nth {T} (v : list T) n x : length (replace_nth v n x) = length v.
Proof.
  revert n; induction v as [|y v IH]; intros [|n]; simpl; auto.
Qed.

Lemma nth_error_replace_other {T} (v : list T) n m x :
  n <> m -> nth_error (replace_nth v n x) m = nth_error v m.
Proof.
  revert n m; induction v as [|y v IH]; intros [|n] [|m] Hne; simpl; auto;
    try congruence.
Qed.

Lemma Forall_replace_nth {T} (P : T -> Prop) (v : list T) n x :
  Forall P v -> P x -> Forall P (replace_nth v n x).
Proof.
  intros Hv Hx. revert n; induction Hv as [|y v Hy Hv IH]; intros [|n]; simpl;
    constructor; auto.
Qed.

Lemma store_at_Done {T} (v v' : list T) i x :
  store_at v i x = Done v' ->
  0 <= i < Z.of_nat (length v) /\ v' = replace_nth v (Z.to_nat i) x.
Proof.
  unfold store_at.
  destruct (i <? 0) eqn:Hneg; simpl; [discriminate|].
  destruct (Z.of_nat (length v) <=? i) eqn:Hlen; [discriminate|].
  apply Z.ltb_ge in Hneg. apply Z.leb_gt in Hlen.
  intros H; inversion H. split; [lia | reflexivity].
Qed.

Lemma store_at_inside {T} (v : list T) i x :
  0 <= i < Z.of_nat (length v) -> store_at v i x = Done (replace_nth v (Z.to_nat i) x).
Proof.
  intros [H0 H1]. unfold store_at.
  apply Z.ltb_ge in H0. apply Z.leb_gt in H1. now rewrite H0, H1.
Qed.

Lemma store_at_outside {T} (v : list T) i x :
  ~ 0 <= i < Z.of_nat (length v) -> store_at v i x = Undefined OutOfBounds.
Proof.
  intros Hout. unfold store_at.
  destruct (i <? 0) eqn:Hneg; [reflexivity|]. apply Z.ltb_ge in Hneg.
  destruct (Z.of_nat (length v) <=? i) eqn:Hlen; [reflexivity|].
  apply Z.leb_gt in Hlen. lia.
Qed.

Lemma at_index_store_other {T} (v v' : list T) i j x :
  store_at v i x = Done v' -> j <> i -> at_index v' j = at_index v j.
Proof.
  intros Hstore Hne. apply store_at_Done in Hstore as [Hi ->].
  unfold at_index. destruct (j <? 0) eqn:Hneg; [reflexivity|].
  apply Z.ltb_ge in Hneg.
  rewrite nth_error_replace_other by lia. reflexivity.
Qed.

Lemma clamp_range (v lo hi : Z) : lo <= hi -> lo <= clamp v lo hi <= hi.
Proof.
  intros H. unfold clamp.
  destruct (v <? lo) eqn:E1; [lia|]. apply Z.ltb_ge in E1.
  destruct (hi <? v) eqn:E2; [lia|]. apply Z.ltb_ge in E2. lia.
Qed.

Lemma cast_to_Done (lo hi : Z) (t : option Z) (z : Z) :
  cast_to lo hi t = Done z -> lo <= z <= hi.
Proof.
  unfold cast_to. destruct t as [y|]; [|discriminate].
  destruct ((lo <=? y) && (y <=? hi)) eqn:E; [|discriminate].
  intros H; inversion H; subst. apply andb_true_iff in E as [E1 E2].
  apply Z.leb_le in E1. apply Z.leb_le in E2. lia.
Qed.

Section Stores.
Context {A : Arith} {K : StudioConstants} {HC : HeaderConstants}.
Variable AlwaysHasBlender : Blender -> bool.

(** The search loop stops at the first controller with the wanted index. *)
Lemma find_controller_found (controllers : list BoneController) controller :
  (exists bc, In bc controllers /\ bc_Index bc = controller) ->
  forall i, exists k bc,
    find_controller controllers controller i = i + Z.of_nat k /\
    nth_error controllers k = Some bc /\
    bc_Index bc = controller.
Proof.
  induction controllers as [|first rest IH]; intros (bc & Hin & Hindex) i;
    [destruct Hin|].
  cbn [find_controller]. destruct (bc_Index first =? controller) eqn:E.
  - exists O, first. apply Z.eqb_eq in E. repeat split; [simpl; lia | exact E].
  - destruct Hin as [->|Hin]; [apply Z.eqb_neq in E; congruence|].
    destruct (IH (ex_intro _ bc (conj Hin Hindex)) (i + 1)) as (k & bc' & Hk & Hnth & Hi).
    exists (S k), bc'. repeat split; [lia | exact Hnth | exact Hi].
Qed.

Lemma matched_controller (model : EditableStudioModel) controller :
  (exists bc, In bc (BoneControllers model) /\ bc_Index bc = controller) ->
  exists bc,
    size_le (BoneControllers model)
      (find_controller (BoneControllers model) controller 0) = false /\
    at_index (BoneControllers model)
      (find_controller (BoneControllers model) controller 0) = Done bc /\
    bc_Index bc = controller.
Proof.
  intros Hmatch.
  destruct (find_controller_found _ _ Hmatch 0) as (k & bc & Hk & Hnth & Hindex).
  exists bc. rewrite Hk. cbn [Z.add].
  assert (Hlt : (k < length (BoneControllers model))%nat)
    by (apply nth_error_Some; congruence).
  split; [|split; [|exact Hindex]].
  - unfold size_le, to_size_t.
    destruct (Z.of_nat k <? 0) eqn:E; [apply Z.ltb_lt in E; lia|].
    apply Z.leb_gt. lia.
  - unfold at_index.
    destruct (Z.of_nat k <? 0) eqn:E; [apply Z.ltb_lt in E; lia|].
    now rewrite Nat2Z.id, Hnth.
Qed.

(** What a [SetController] that found its controller leaves behind. *)
Lemma SetController_stores (e e' : StudioModelEntity) (model : EditableStudioModel)
    (controller : Z) (value : float) :
  _editableModel e = Some model ->
  (exists bc, In bc (BoneControllers model) /\ bc_Index bc = controller) ->
  SetController controller value e = Done e' ->
  exists setting controllers controllerValues,
    0 <= setting <= 255 /\
    store_at (_controller e) controller setting = Done controllers /\
    store_at (_controllerValues e) controller value = Done controllerValues /\
    e' = with_controller e controllers controllerValues.
Proof.
  intros Hmodel Hmatch Hset.
  destruct (matched_controller model controller Hmatch) as (bc & Hfound & Hbc & _).
  unfold SetController in Hset. rewrite Hmodel in Hset. cbv zeta in Hset.
  rewrite Hfound in Hset.
  apply bind_Done in Hset as (controllerValues & Hvalues & Hset).
  apply bind_Done in Hset as (bc' & _ & Hset).
  apply bind_Done in Hset as (normalized & _ & Hset).
  apply bind_Done in Hset as (setting & _ & Hset).
  apply bind_Done in Hset as (controllers & Hbytes & Hset).
  inversion Hset; subst e'.
  exists (clamp setting 0 255), controllers, controllerValues.
  split; [apply clamp_range; lia|]. repeat split; assumption.
Qed.

(** X7.  After a [SetController] that found a bone controller with the index
    asked for, the real value read back at that index is the value given and
    the encoded setting there is a byte in [[0, 255]]; every other entry of
    the two arrays, and every other field of the entity, is as before.
    [GetControllerValue] and [GetControllerByIndex] return the two when the
    index is below their bounds. *)
Theorem SetController_reads_back (e e' : StudioModelEntity)
    (model : EditableStudioModel) (controller : Z) (value : float) :
  _editableModel e = Some model ->
  (exists bc, In bc (BoneControllers model) /\ bc_Index bc = controller) ->
  SetController controller value e = Done e' ->
  exists setting,
    0 <= setting <= 255 /\
    at_index (_controller e') controller = Done setting /\
    at_index (_controllerValues e') controller = Done value /\
    (forall other, other <> controller ->
       at_index (_controller e') other = at_index (_controller e) other /\
       at_index (_controllerValues e') other = at_index (_controllerValues e) other) /\
    e' = with_controller e (_controller e') (_controllerValues e') /\
    (controller < STUDIO_TOTAL_CONTROLLERS -> GetControllerValue controller e' = Done value) /\
    (controller < STUDIO_MAX_CONTROLLERS -> GetControllerByIndex controller e' = Done setting).
Proof.
  intros Hmodel Hmatch Hset.
  destruct (SetController_stores e e' model controller value Hmodel Hmatch Hset)
    as (setting & controllers & controllerValues & Hbyte & Hbytes & Hvalues & ->).
  exists setting. cbn [_controller _controllerValues with_controller].
  pose proof (at_index_store_at _ _ _ _ Hbytes) as Hread.
  pose proof (at_index_store_at _ _ _ _ Hvalues) as Hreadv.
  pose proof (store_at_Done _ _ _ _ Hbytes) as [Hin _].
  split; [exact Hbyte|]. split; [exact Hread|]. split; [exact Hreadv|].
  split; [|split; [reflexivity|split]].
  - intros other Hother. split; eapply at_index_store_other; eauto.
  - intros Hbound. unfold GetControllerValue.
    cbn [_editableModel _controllerValues with_controller]. rewrite Hmodel.
    assert (E : (controller <? 0) || (STUDIO_TOTAL_CONTROLLERS <=? controller) = false).
    { apply orb_false_iff. split; [apply Z.ltb_ge; lia | apply Z.leb_gt; exact Hbound]. }
    now rewrite E.
  - intros Hbound. unfold GetControllerByIndex.
    cbn [_controller with_controller].
    assert (E : (0 <=? controller) && (controller <? STUDIO_MAX_CONTROLLERS) = true).
    { apply andb_true_iff. split; [apply Z.leb_le; lia | apply Z.ltb_lt; exact Hbound]. }
    now rewrite E.
Qed.

(** X8.  [SetController] does not test the index against its two arrays: when
    the model has a bone controller with the index asked for and that index
    lies outside [_controller] or [_controllerValues], the call writes out of
    bounds and has no defined outcome.  A defined outcome shows the index
    inside both. *)
Theorem SetController_trusts_the_index (e : StudioModelEntity)
    (model : EditableStudioModel) (controller : Z) (value : float) :
  _editableModel e = Some model ->
  (exists bc, In bc (BoneControllers model) /\ bc_Index bc = controller) ->
  (~ 0 <= controller < Z.of_nat (length (_controllerValues e)) ->
   SetController controller value e = Undefined OutOfBounds) /\
  (~ 0 <= controller < Z.of_nat (length (_controller e)) ->
   exists why, SetController controller value e = Undefined why) /\
  (forall e', SetController controller value e = Done e' ->
     0 <= controller < Z.of_nat (length (_controller e)) /\
     0 <= controller < Z.of_nat (length (_controllerValues e))).
Proof.
  intros Hmodel Hmatch.
  assert (Hdone : forall e', SetController controller value e = Done e' ->
            0 <= controller < Z.of_nat (length (_controller e)) /\
            0 <= controller < Z.of_nat (length (_controllerValues e))).
  { intros e' Hset.
    destruct (SetController_stores e e' model controller value Hmodel Hmatch Hset)
      as (setting & controllers & controllerValues & _ & Hbytes & Hvalues & _).
    apply store_at_Done in Hbytes as [Hbytes _].
    apply store_at_Done in Hvalues as [Hvalues _]. split; assumption. }
  split; [|split; [|exact Hdone]].
  - intros Hout.
    destruct (matched_controller model controller Hmatch) as (bc & Hfound & _ & _).
    unfold SetController. rewrite Hmodel. cbv zeta.
    rewrite Hfound, (store_at_outside _ _ _ Hout). reflexivity.
  - intros Hout. destruct (SetController controller value e) as [e'|why] eqn:Hset.
    + exfalso. apply Hout. apply (Hdone e' eq_refl).
    + exists why. reflexivity.
Qed.

(** X9.  The encoded settings stay bytes: if the entries of [_controller] and
    [_blending] and [_mouth] lie in [[0, 255]], they still do after
    [SetController], [SetMouth] and [SetBlending] with either blender, so that
    storing the [int] setting in a [std::uint8_t] never truncates; the arrays
    keep their lengths, and a mouth setting that was changed lies in
    [[0, 64]]. *)
Theorem settings_stay_bytes (e e' : StudioModelEntity)
    (controller blender : Z) (value : float) :
  bytes_in_range e ->
  SetController controller value e = Done e' \/
  SetMouth value e = Done e' \/
  SetBlending blender value e = Done e' ->
  bytes_in_range e' /\
  length (_controller e') = length (_controller e) /\
  length (_controllerValues e') = length (_controllerValues e) /\
  length (_blending e') = length (_blending e) /\
  length (_blendingValues e') = length (_blendingValues e) /\
  (_mouth e' = _mouth e \/ 0 <= _mouth e' <= 64).
Proof.
  assert (Hkept : bytes_in_range e -> Done e = Done e' ->
            bytes_in_range e' /\
            length (_controller e') = length (_controller e) /\
            length (_controllerValues e') = length (_controllerValues e) /\
            length (_blending e') = length (_blending e) /\
            length (_blendingValues e') = length (_blendingValues e) /\
            (_mouth e' = _mouth e \/ 0 <= _mouth e' <= 64)).
  { intros Hold Hsame. inversion Hsame; subst e'. repeat split; auto; apply Hold. }
  intros Hold. pose proof Hold as (Hc & Hb & Hm).
  intros [Hset|[Hset|Hset]].
  - unfold SetController in Hset.
    destruct (_editableModel e) as [model|];
      [|exact (Hkept Hold Hset)].
    cbv zeta in Hset.
    destruct (size_le _ _); [exact (Hkept Hold Hset)|].
    apply bind_Done in Hset as (controllerValues & Hvalues & Hset).
    apply bind_Done in Hset as (bc' & _ & Hset).
    apply bind_Done in Hset as (normalized & _ & Hset).
    apply bind_Done in Hset as (setting & _ & Hset).
    apply bind_Done in Hset as (controllers & Hbytes & Hset).
    inversion Hset; subst e'.
    apply store_at_Done in Hbytes as [_ ->].
    apply store_at_Done in Hvalues as [_ ->].
    cbn [_controller _controllerValues _blending _blendingValues _mouth with_controller].
    rewrite !length_replace_nth.
    split; [split; [|split; assumption] | repeat split; auto].
    apply Forall_replace_nth; [exact Hc|]. apply clamp_range. lia.
  - unfold SetMouth in Hset.
    destruct (_editableModel e) as [model|];
      [|exact (Hkept Hold Hset)].
    cbv zeta in Hset.
    destruct (size_le _ _); [exact (Hkept Hold Hset)|].
    apply bind_Done in Hset as (bc' & _ & Hset).
    apply bind_Done in Hset as (normalized & _ & Hset).
    apply bind_Done in Hset as (setting & _ & Hset).
    inversion Hset; subst e'.
    cbn [_controller _controllerValues _blending _blendingValues _mouth with_mouth].
    pose proof (clamp_range setting 0 64 ltac:(lia)) as Hrange.
    split; [split; [|split]; [assumption | assumption | unfold is_byte; cbn [_mouth with_mouth]; lia]|].
    repeat (split; [reflexivity|]). right. exact Hrange.
  - unfold SetBlending in Hset.
    destruct (_editableModel e) as [model|];
      [|exact (Hkept Hold Hset)].
    destruct ((blender <? 0) || (STUDIO_MAX_BLENDERS <=? blender));
      [exact (Hkept Hold Hset)|].
    destruct (no_sequence model (_sequence e));
      [exact (Hkept Hold Hset)|].
    apply bind_Done in Hset as (sd & _ & Hset).
    apply bind_Done in Hset as ([byte|] & Hblend & Hset);
      [|exact (Hkept Hold Hset)].
    apply bind_Done in Hset as (blending & Hbytes & Hset).
    apply bind_Done in Hset as (blendingValues & Hvalues & Hset).
    inversion Hset; subst e'.
    apply store_at_Done in Hbytes as [_ ->].
    apply store_at_Done in Hvalues as [_ ->].
    cbn [_controller _controllerValues _blending _blendingValues _mouth with_blending].
    rewrite !length_replace_nth.
    split; [split; [|split]; [assumption | | assumption] | repeat split; auto].
    apply Forall_replace_nth; [exact Hb|].
    unfold is_byte, CalculateBlend in *. destruct (_blender e).
    + unfold StandardBlender_CalculateBlend in Hblend.
      apply bind_Done in Hblend as (bd & _ & Hblend).
      destruct (bd_Type bd =? 0); [discriminate|]. cbv zeta in Hblend.
      apply bind_Done in Hblend as (setting & _ & Hblend).
      inversion Hblend. apply clamp_range. lia.
    + unfold CounterStrikeBlender_CalculateBlend in Hblend.
      destruct (blender =? SequenceBlendXIndex).
      * apply bind_Done in Hblend as (setting & Hcast & Hblend).
        inversion Hblend; subst. eapply cast_to_Done; exact Hcast.
      * destruct (blender =? SequenceBlendYIndex); [|discriminate].
        apply bind_Done in Hblend as (setting & Hcast & Hblend).
        inversion Hblend; subst. eapply cast_to_Done; exact Hcast.
Qed.

(** X10.  A blend value that [SetBlending] stored is the value that
    [GetBlendingValue] reads back, and the byte computed is the byte that
    [GetBlendingByIndex] returns: with the standard blender always (it stores
    only on a channel in use), with another blender when it reports
    [AlwaysHasBlender]. *)
Theorem SetBlending_reads_back (e e' : StudioModelEntity) (sd : Sequence)
    (blender byte : Z) (value : float) :
  current_sequence e sd ->
  0 <= blender < STUDIO_MAX_BLENDERS ->
  CalculateBlend (_blender e) sd blender value = Done (Some byte) ->
  _blender e = StandardBlender \/ AlwaysHasBlender (_blender e) = true ->
  SetBlending blender value e = Done e' ->
  GetBlendingValue AlwaysHasBlender blender e' = Done value /\
  GetBlendingByIndex blender e' = Done byte.
Proof.
  intros (model & Hmodel & Hseq) Hrange Hblend Hkind Hset.
  assert (E : (blender <? 0) || (STUDIO_MAX_BLENDERS <=? blender) = false).
  { apply orb_false_iff. split; [apply Z.ltb_ge; lia | apply Z.leb_gt; lia]. }
  unfold SetBlending in Hset.
  rewrite Hmodel, E, (current_sequence_valid _ _ _ Hseq), Hseq in Hset.
  cbn [bind] in Hset. rewrite Hblend in Hset. cbn [bind] in Hset.
  apply bind_Done in Hset as (blending & Hbytes & Hset).
  apply bind_Done in Hset as (blendingValues & Hvalues & Hset).
  inversion Hset; subst e'. split.
  - unfold GetBlendingValue.
    cbn [_editableModel _sequence _blender _blendingValues with_blending].
    rewrite Hmodel, E, (current_sequence_valid _ _ _ Hseq), Hseq. cbn [bind].
    assert (Hused : (if negb (AlwaysHasBlender (_blender e))
                     then blendData <- at_index (seq_BlendData sd) blender ;;
                          Done (bd_Type blendData =? 0)
                     else Done false) = Done false).
    { destruct Hkind as [Hstandard|Halways]; [|now rewrite Halways].
      destruct (negb (AlwaysHasBlender (_blender e))); [|reflexivity].
      rewrite Hstandard in Hblend. unfold CalculateBlend in Hblend.
      unfold StandardBlender_CalculateBlend in Hblend.
      apply bind_Done in Hblend as (bd & Hbd & Hblend). rewrite Hbd. cbn [bind].
      destruct (bd_Type bd =? 0); [discriminate | reflexivity]. }
    rewrite Hused. cbn [bind]. exact (at_index_store_at _ _ _ _ Hvalues).
  - unfold GetBlendingByIndex. cbn [_blending with_blending].
    assert (E' : (0 <=? blender) && (blender <? STUDIO_MAX_BLENDERS) = true).
    { apply andb_true_iff. split; [apply Z.leb_le; lia | apply Z.ltb_lt; lia]. }
    rewrite E'. exact (at_index_store_at _ _ _ _ Hbytes).
Qed.
End Stores.

Lemma SetController_reads_back_witness :
  let pitch := @Scenario.controller exactQ 0 8 (-90) 90 in
  let slide := @Scenario.controller exactQ 1 0 0 255 in
  let model := Scenario.model_of (Scenario.blended30 []) [pitch; slide] in
  let e := @Scenario.entity_of exactQ (Some model) StandardBlender 0 0 in
  let e' := with_controller e [0; 100; 0; 0] [0; 100; 0; 0; 0]%Q in
  exists setting,
    0 <= setting <= 255 /\
    at_index (_controller e') 1 = Done setting /\
    at_index (_controllerValues e') 1 = Done 100%Q /\
    (forall other, other <> 1 ->
       at_index (_controller e') other = at_index (_controller e) other /\
       at_index (_controllerValues e') other = at_index (_controllerValues e) other) /\
    e' = with_controller e (_controller e') (_controllerValues e') /\
    (1 < 5 -> @GetControllerValue exactQ goldsrc 1 e' = Done 100%Q) /\
    (1 < 4 -> @GetControllerByIndex exactQ goldsrc_header 1 e' = Done setting).
Proof.
  intros pitch slide model e e'.
  apply (@SetController_reads_back exactQ goldsrc goldsrc_header e e' model 1 100%Q).
  - reflexivity.
  - exists slide. split; [right; left; reflexivity | reflexivity].
  - reflexivity.
Defined.

Lemma SetController_trusts_the_index_witness :
  let jaw := @Scenario.controller exactQ 4 8 0 90 in
  let model := Scenario.model_of (Scenario.blended30 []) [jaw] in
  let e := @Scenario.entity_of exactQ (Some model) StandardBlender 0 0 in
  exists why, @SetController exactQ goldsrc 4 30%Q e = Undefined why.
Proof.
  intros jaw model e.
  destruct (@SetController_trusts_the_index exactQ goldsrc e model 4 30%Q eq_refl)
    as (_ & Hbytes & _).
  - exists jaw. split; [left; reflexivity | reflexivity].
  - apply Hbytes. simpl. lia.
Defined.

Lemma settings_stay_bytes_witness :
  let sd := @Scenario.blended30 exactQ [Scenario.channel 0 0 0; Scenario.channel 0 0 0] in
  let e := @Scenario.entity_of exactQ (Some (Scenario.model_of sd []))
             CounterStrikeBlender 0 0 in
  let e' := with_blending e [255; 0] [180; 0]%Q in
  bytes_in_range e' /\
  length (_controller e') = length (_controller e) /\
  length (_controllerValues e') = length (_controllerValues e) /\
  length (_blending e') = length (_blending e) /\
  length (_blendingValues e') = length (_blendingValues e) /\
  (_mouth e' = _mouth e \/ 0 <= _mouth e' <= 64).
Proof.
  intros sd e e'.
  apply (@settings_stay_bytes exactQ goldsrc e e' 0 0 180%Q).
  - unfold bytes_in_range, is_byte. simpl.
    repeat split; repeat constructor; lia.
  - right. right. reflexivity.
Defined.

Lemma SetBlending_reads_back_witness :
  let sd := @Scenario.blended30 exactQ [Scenario.channel 0 0 0; Scenario.channel 1 0 100] in
  let e := @Scenario.entity_of exactQ (Some (Scenario.model_of sd []))
             StandardBlender 0 0 in
  let always := fun kind => match kind with
                            | CounterStrikeBlender => true
                            | StandardBlender => false
                            end in
  let e' := with_blending e [0; 127] [0; 50]%Q in
  @GetBlendingValue exactQ goldsrc always 1 e' = Done 50%Q /\
  @GetBlendingByIndex exactQ goldsrc 1 e' = Done 127.
Proof.
  intros sd e always e'.
  apply (@SetBlending_reads_back exactQ goldsrc always e e' sd 1 127 50%Q).
  - eexists. split; reflexivity.
  - simpl. lia.
  - reflexivity.
  - left. reflexivity.
  - reflexivity.
Defined.

(** ** The linear mapping, over the rationals *)

Lemma Qtrunc_opp (q : Q) : Qtrunc (- q) = - Qtrunc q.
Proof.
  destruct q as [n d]. unfold Qtrunc. simpl. apply Z.quot_opp_l. discriminate.
Qed.

Lemma Qtrunc_comp (p q : Q) : (p == q)%Q -> Qtrunc p = Qtrunc q.
Proof.
  intros E. destruct (Qlt_le_dec p 0) as [Hneg|Hpos].
  - assert (Hp : (0 <= - p)%Q) by lra. assert (Hq : (0 <= - q)%Q) by lra.
    pose proof (Qtrunc_opp p) as Ep. pose proof (Qtrunc_opp q) as Eq.
    rewrite (Qtrunc_floor _ Hp) in Ep. rewrite (Qtrunc_floor _ Hq) in Eq.
    assert (Qfloor (- p) = Qfloor (- q)) by (apply Qfloor_comp; now rewrite E).
    lia.
  - assert (Hq : (0 <= q)%Q) by lra.
    rewrite (Qtrunc_floor _ Hpos), (Qtrunc_floor _ Hq). now apply Qfloor_comp.
Qed.

Lemma Qtrunc_monotone (p q : Q) : (p <= q)%Q -> Qtrunc p <= Qtrunc q.
Proof.
  intros Hle. destruct (Qlt_le_dec p 0) as [Hp|Hp]; destruct (Qlt_le_dec q 0) as [Hq|Hq].
  - assert (Hp' : (0 <= - p)%Q) by lra. assert (Hq' : (0 <= - q)%Q) by lra.
    pose proof (Qtrunc_opp p) as Ep. pose proof (Qtrunc_opp q) as Eq.
    rewrite (Qtrunc_floor _ Hp') in Ep. rewrite (Qtrunc_floor _ Hq') in Eq.
    assert (Qfloor (- q) <= Qfloor (- p)) by (apply Qfloor_resp_le; lra).
    lia.
  - assert (Hp' : (0 <= - p)%Q) by lra.
    pose proof (Qtrunc_nonneg _ Hp') as H1. rewrite Qtrunc_opp in H1.
    pose proof (Qtrunc_nonneg _ Hq) as H2. lia.
  - exfalso. lra.
  - rewrite (Qtrunc_floor _ Hp), (Qtrunc_floor _ Hq). now apply Qfloor_resp_le.
Qed.

Lemma Qtrunc_inject_Z (n : Z) : Qtrunc (inject_Z n) = n.
Proof. unfold Qtrunc. simpl. apply Z.quot_1_r. Qed.

(** Step 4 over the rationals. *)
Lemma codec_encode_exact (top : Z) (Start End_ value : Q) :
  let scaled := (inject_Z top * (value - Start) / (End_ - Start))%Q in
  (INT_MIN <= Qtrunc scaled <= INT_MAX ->
   @codec_encode exactQ top Start End_ value = Done (clamp (Qtrunc scaled) 0 top)) /\
  (forall setting, @codec_encode exactQ top Start End_ value = Done setting ->
                   setting = clamp (Qtrunc scaled) 0 top).
Proof.
  intros scaled. unfold codec_encode, f2i.
  cbn [ftrunc fdiv fmul fsub i2f exactQ]. fold scaled. split.
  - intros Hfit. rewrite (cast_to_fits _ _ _ Hfit). reflexivity.
  - intros setting H. apply bind_Done in H as (raw & Hraw & H).
    unfold cast_to in Hraw.
    destruct ((INT_MIN <=? Qtrunc scaled) && (Qtrunc scaled <=? INT_MAX)); [|discriminate].
    inversion Hraw; subst raw. inversion H. reflexivity.
Qed.

(** Within the range of a channel with [Start < End] the setting is the
    number of whole steps below the value. *)
Lemma codec_encode_quantizes (top : Z) (Start End_ value : Q) :
  0 < top <= INT_MAX ->
  (Start < End_)%Q -> (Start <= value)%Q -> (value <= End_)%Q ->
  exists setting,
    @codec_encode exactQ top Start End_ value = Done setting /\
    0 <= setting <= top /\
    (decoded top Start End_ setting <= value)%Q /\
    (value < decoded top Start End_ (setting + 1))%Q.
Proof.
  intros Htop Hwide Hlo Hhi.
  destruct (codec_encode_exact top Start End_ value) as [Hencode _].
  set (scaled := (inject_Z top * (value - Start) / (End_ - Start))%Q) in *.
  assert (HtopQ : (0 < inject_Z top)%Q) by (apply (inject_Z_lt_iff 0 top); lia).
  assert (Hspan : (0 < End_ - Start)%Q) by lra.
  assert (Hs0 : (0 <= scaled)%Q).
  { subst scaled. apply Qle_shift_div_l; [exact Hspan|].
    rewrite Qmult_0_l. apply Qmult_le_0_compat; lra. }
  assert (Hs1 : (scaled <= inject_Z top)%Q).
  { subst scaled. apply Qle_shift_div_r; [exact Hspan|].
    apply Qmult_le_l; [exact HtopQ | lra]. }
  destruct (Qtrunc_bounds scaled Hs0) as [Hfloor Hceil].
  pose proof (Qtrunc_nonneg scaled Hs0) as Hb0.
  assert (Hb1 : Qtrunc scaled <= top).
  { rewrite <- (Qtrunc_inject_Z top). now apply Qtrunc_monotone. }
  set (b := Qtrunc scaled) in *.
  exists b.
  assert (Hclamp : clamp b 0 top = b).
  { unfold clamp. destruct (b <? 0) eqn:E1; [apply Z.ltb_lt in E1; lia|].
    destruct (top <? b) eqn:E2; [apply Z.ltb_lt in E2; lia | reflexivity]. }
  rewrite Hencode by (unfold INT_MIN, INT_MAX in *; lia).
  rewrite Hclamp. split; [reflexivity|]. split; [lia|].
  assert (Escaled : (scaled * (End_ - Start) == inject_Z top * (value - Start))%Q)
    by (subst scaled; field; lra).
  unfold decoded. rewrite inject_Z_plus. change (inject_Z 1) with 1%Q.
  rewrite inject_Z_plus in Hceil. change (inject_Z 1) with 1%Q in Hceil.
  split.
  - assert (H : (inject_Z b * (End_ - Start) / inject_Z top <= value - Start)%Q).
    { apply Qle_shift_div_r; [exact HtopQ|].
      rewrite (Qmult_comm (value - Start)), <- Escaled.
      apply Qmult_le_compat_r; lra. }
    lra.
  - assert (H : (value - Start < (inject_Z b + 1) * (End_ - Start) / inject_Z top)%Q).
    { apply Qlt_shift_div_l; [exact HtopQ|].
      rewrite (Qmult_comm (value - Start)), <- Escaled.
      apply Qmult_lt_compat_r; lra. }
    lra.
Qed.

(** For [Start < End] the setting grows with the value, is 0 at [Start] and
    below and [top] at [End] and above. *)
Lemma codec_encode_monotone (top : Z) (Start End_ v1 v2 : Q) (b1 b2 : Z) :
  0 <= top ->
  (Start < End_)%Q -> (v1 <= v2)%Q ->
  @codec_encode exactQ top Start End_ v1 = Done b1 ->
  @codec_encode exactQ top Start End_ v2 = Done b2 ->
  b1 <= b2 /\ ((v2 <= Start)%Q -> b2 = 0) /\ ((End_ <= v1)%Q -> b1 = top).
Proof.
  intros Htop Hwide Hle H1 H2.
  apply (proj2 (codec_encode_exact _ _ _ _)) in H1.
  apply (proj2 (codec_encode_exact _ _ _ _)) in H2.
  set (s1 := (inject_Z top * (v1 - Start) / (End_ - Start))%Q) in *.
  set (s2 := (inject_Z top * (v2 - Start) / (End_ - Start))%Q) in *.
  assert (HtopQ : (0 <= inject_Z top)%Q) by (apply (inject_Z_le_iff 0 top); lia).
  assert (Hspan : (0 < End_ - Start)%Q) by lra.
  assert (Hscaled : forall a b : Q, (a <= b)%Q ->
            (inject_Z top * (a - Start) / (End_ - Start)
             <= inject_Z top * (b - Start) / (End_ - Start))%Q).
  { intros a b Hab. unfold Qdiv.
    apply Qmult_le_compat_r; [|apply Qlt_le_weak, Qinv_lt_0_compat, Hspan].
    rewrite !(Qmult_comm (inject_Z top)).
    apply Qmult_le_compat_r; [lra | exact HtopQ]. }
  assert (Hmono : Qtrunc s1 <= Qtrunc s2) by (apply Qtrunc_monotone, Hscaled, Hle).
  assert (Hclamp : forall x y, x <= y -> clamp x 0 top <= clamp y 0 top).
  { intros x y Hxy. unfold clamp.
    destruct (x <? 0) eqn:Ex, (y <? 0) eqn:Ey, (top <? x) eqn:Tx, (top <? y) eqn:Ty;
      try apply Z.ltb_lt in Ex; try apply Z.ltb_ge in Ex;
      try apply Z.ltb_lt in Ey; try apply Z.ltb_ge in Ey;
      try apply Z.ltb_lt in Tx; try apply Z.ltb_ge in Tx;
      try apply Z.ltb_lt in Ty; try apply Z.ltb_ge in Ty; lia. }
  subst b1 b2. split; [now apply Hclamp|]. split.
  - intros Hlow.
    assert (Hs : (s2 <= inject_Z top * (Start - Start) / (End_ - Start))%Q)
      by (apply Hscaled; exact Hlow).
    assert (E : (inject_Z top * (Start - Start) / (End_ - Start) == inject_Z 0)%Q)
      by (change (inject_Z 0) with 0%Q; field; lra).
    rewrite E in Hs. apply Qtrunc_monotone in Hs. rewrite Qtrunc_inject_Z in Hs.
    unfold clamp. destruct (Qtrunc s2 <? 0) eqn:E0; [reflexivity|].
    apply Z.ltb_ge in E0. destruct (top <? Qtrunc s2) eqn:E1;
      [apply Z.ltb_lt in E1; lia | lia].
  - intros Hhigh.
    assert (Hs : (inject_Z top * (End_ - Start) / (End_ - Start) <= s1)%Q)
      by (apply Hscaled; exact Hhigh).
    assert (E : (inject_Z top * (End_ - Start) / (End_ - Start) == inject_Z top)%Q)
      by (field; lra).
    rewrite E in Hs. apply Qtrunc_monotone in Hs. rewrite Qtrunc_inject_Z in Hs.
    unfold clamp. destruct (Qtrunc s1 <? 0) eqn:E0; [apply Z.ltb_lt in E0; lia|].
    destruct (top <? Qtrunc s1) eqn:E1; [reflexivity|].
    apply Z.ltb_ge in E1. lia.
Qed.

Lemma at_index_size_le {T} (v : list T) i x :
  at_index v i = Done x -> size_le v i = false.
Proof.
  intros H. apply at_index_Done in H as [[H0 H1] _].
  unfold size_le, to_size_t.
  destruct (i <? 0) eqn:Hneg; [apply Z.ltb_lt in Hneg; lia|].
  apply Z.leb_gt. exact H1.
Qed.

Section LinearControllers.
Context {K : StudioConstants}.
#[local] Existing Instance exactQ.

(** A controller that is not rotational goes straight to step 4. *)
Lemma SetController_linear (e : StudioModelEntity) (model : EditableStudioModel)
    (controller : Z) (bc : BoneController) (value : float) :
  _editableModel e = Some model ->
  at_index (BoneControllers model)
    (find_controller (BoneControllers model) controller 0) = Done bc ->
  rotational (bc_Type bc) = false ->
  SetController controller value e =
    (controllerValues <- store_at (_controllerValues e) controller value ;;
     setting <- codec_encode 255 (bc_Start bc) (bc_End bc) value ;;
     controllers <- store_at (_controller e) controller setting ;;
     Done (with_controller e controllers controllerValues)).
Proof.
  intros Hmodel Hbc Hlinear.
  destruct (store_at (_controllerValues e) controller value) as [cv|why] eqn:Hcv.
  - rewrite (SetController_codec e model controller value bc cv Hmodel
               (at_index_size_le _ _ _ Hbc) Hbc Hcv).
    unfold codec_normalize. rewrite Hlinear. reflexivity.
  - unfold SetController. rewrite Hmodel. cbv zeta.
    rewrite (at_index_size_le _ _ _ Hbc), Hcv. reflexivity.
Qed.

(** X11.  Over the rationals, for a bone controller that is not rotational,
    with [Start < End] within [RANGE_LIMIT] of 0, and a value within
    [[Start, End]], [SetController] succeeds whenever the index lies inside
    the two arrays, and the byte [b] it stores decodes to within a step of
    [(End - Start) / 255] of the value: decoding [b - 1] gives at most the
    value and decoding [b + 2] gives more.  (Over the rationals [b] and
    [b + 1] do; binary32 may round the quotient across a whole number.) *)
Theorem linear_controller_quantizes (e : StudioModelEntity)
    (model : EditableStudioModel) (controller : Z) (bc : BoneController)
    (value : float) :
  _editableModel e = Some model ->
  at_index (BoneControllers model)
    (find_controller (BoneControllers model) controller 0) = Done bc ->
  rotational (bc_Type bc) = false ->
  (bc_Start bc < bc_End bc)%Q ->
  (inject_Z (- RANGE_LIMIT) <= bc_Start bc)%Q ->
  (bc_End bc <= inject_Z RANGE_LIMIT)%Q ->
  (bc_Start bc <= value)%Q -> (value <= bc_End bc)%Q ->
  0 <= controller < Z.of_nat (length (_controller e)) ->
  controller < Z.of_nat (length (_controllerValues e)) ->
  exists e' setting,
    SetController controller value e = Done e' /\
    at_index (_controller e') controller = Done setting /\
    0 <= setting <= 255 /\
    (decoded 255 (bc_Start bc) (bc_End bc) (setting - 1) <= value)%Q /\
    (value < decoded 255 (bc_Start bc) (bc_End bc) (setting + 2))%Q.
Proof.
  intros Hmodel Hbc Hlinear Hwide _ _ Hlo Hhi Hin Hinv.
  destruct (codec_encode_quantizes 255 (bc_Start bc) (bc_End bc) value)
    as (setting & Hencode & Hrange & Hbelow & Habove);
    [unfold INT_MAX; lia | assumption..|].
  rewrite (SetController_linear e model controller bc value Hmodel Hbc Hlinear).
  rewrite (store_at_inside (_controllerValues e) controller value) by lia.
  cbn [bind]. rewrite Hencode. cbn [bind].
  rewrite (store_at_inside (_controller e) controller setting) by lia.
  cbn [bind]. eexists _, setting. split; [reflexivity|].
  cbn [_controller with_controller].
  split; [apply (at_index_store_at (_controller e)); apply store_at_inside; lia|].
  split; [lia|].
  unfold decoded in *.
  replace (setting + 2) with (setting + 1 + 1) by lia.
  rewrite !inject_Z_plus in *. unfold Z.sub. rewrite inject_Z_plus.
  change (inject_Z (-1)) with (-1)%Q. change (inject_Z 1) with 1%Q in *.
  change (inject_Z 255) with 255%Q in *.
  set (b := inject_Z setting) in *.
  set (Start := bc_Start bc) in *. set (End_ := bc_End bc) in *.
  assert (Hstep : (0 < (End_ - Start) / 255)%Q)
    by (apply Qlt_shift_div_l; [reflexivity | lra]).
  assert (E0 : ((b + -1) * (End_ - Start) / 255
                == b * (End_ - Start) / 255 - (End_ - Start) / 255)%Q) by field.
  assert (E1 : ((b + 1) * (End_ - Start) / 255
                == b * (End_ - Start) / 255 + (End_ - Start) / 255)%Q) by field.
  assert (E2 : ((b + 1 + 1) * (End_ - Start) / 255
                == b * (End_ - Start) / 255 + 2 * ((End_ - Start) / 255))%Q) by field.
  rewrite E1 in Habove. rewrite E0, E2. split; lra.
Qed.

(** X12.  Over the rationals, for a bone controller that is not rotational,
    with [Start < End], the byte [SetController] stores grows with the value:
    a larger value never stores a smaller byte; a value at or below [Start]
    stores 0 and a value a step of [(End - Start) / 255] or more above [End]
    stores 255.  (Over the rationals a value at [End] does; binary32 may
    store 254 there.) *)
Theorem linear_controller_is_monotone (e e1 e2 : StudioModelEntity)
    (model : EditableStudioModel) (controller : Z) (bc : BoneController)
    (v1 v2 : float) :
  _editableModel e = Some model ->
  at_index (BoneControllers model)
    (find_controller (BoneControllers model) controller 0) = Done bc ->
  rotational (bc_Type bc) = false ->
  (bc_Start bc < bc_End bc)%Q ->
  (v1 <= v2)%Q ->
  SetController controller v1 e = Done e1 ->
  SetController controller v2 e = Done e2 ->
  exists b1 b2,
    at_index (_controller e1) controller = Done b1 /\
    at_index (_controller e2) controller = Done b2 /\
    b1 <= b2 /\
    ((v2 <= bc_Start bc)%Q -> b2 = 0) /\
    ((decoded 255 (bc_Start bc) (bc_End bc) 256 <= v1)%Q -> b1 = 255).
Proof.
  intros Hmodel Hbc Hlinear Hwide Hle H1 H2.
  rewrite (SetController_linear e model controller bc v1 Hmodel Hbc Hlinear) in H1.
  rewrite (SetController_linear e model controller bc v2 Hmodel Hbc Hlinear) in H2.
  apply bind_Done in H1 as (cv1 & _ & H1). apply bind_Done in H1 as (b1 & Hb1 & H1).
  apply bind_Done in H1 as (c1 & Hc1 & H1). inversion H1; subst e1.
  apply bind_Done in H2 as (cv2 & _ & H2). apply bind_Done in H2 as (b2 & Hb2 & H2).
  apply bind_Done in H2 as (c2 & Hc2 & H2). inversion H2; subst e2.
  exists b1, b2. cbn [_controller with_controller].
  split; [exact (at_index_store_at _ _ _ _ Hc1)|].
  split; [exact (at_index_store_at _ _ _ _ Hc2)|].
  destruct (codec_encode_monotone 255 (bc_Start bc) (bc_End bc) v1 v2 b1 b2)
    as (Hmono & Hlow & Hhigh); try assumption; [lia|].
  split; [exact Hmono|]. split; [exact Hlow|].
  intros Habove. apply Hhigh. unfold decoded in Habove.
  change (inject_Z 256) with 256%Q in Habove. change (inject_Z 255) with 255%Q in Habove.
  set (Start := bc_Start bc) in *. set (End_ := bc_End bc) in *.
  assert (E : (256 * (End_ - Start) / 255 == (End_ - Start) + (End_ - Start) / 255)%Q)
    by field.
  assert (Hstep : (0 < (End_ - Start) / 255)%Q)
    by (apply Qlt_shift_div_l; [reflexivity | lra]).
  rewrite E in Habove. lra.
Qed.

(** A rotational controller whose range does not wrap stores the same byte
    for values that are equal or a full turn apart, when one of them lies
    strictly within half a turn of the midpoint of the range. *)
Lemma full_turn_same_byte (e : StudioModelEntity)
    (model : EditableStudioModel) (controller : Z) (bc : BoneController)
    (value v : float) :
  _editableModel e = Some model ->
  at_index (BoneControllers model)
    (find_controller (BoneControllers model) controller 0) = Done bc ->
  rotational (bc_Type bc) = true ->
  (bc_Start bc <= bc_End bc)%Q -> (bc_End bc <= bc_Start bc + 359)%Q ->
  ((bc_Start bc + bc_End bc) / 2 - 180 < value)%Q ->
  (value < (bc_Start bc + bc_End bc) / 2 + 180)%Q ->
  (v == value \/ v == value + 360 \/ v == value - 360)%Q ->
  controller_after (SetController controller v e)
    = controller_after (SetController controller value e).
Proof.
  intros Hmodel Hbc Hrot Hordered Hfits Hlo Hhi Hturn.
  set (Start := bc_Start bc) in *. set (End_ := bc_End bc) in *.
  assert (Hnormal : forall v : Q,
             (v == value \/ v == value + 360 \/ v == value - 360)%Q ->
             exists normalized : Q,
               @codec_normalize exactQ K (bc_Type bc) Start End_ v = Done normalized /\
               (normalized == value)%Q).
  { intros w Hw. unfold codec_normalize, codec_negate, codec_range_fits, codec_recenter.
    rewrite Hrot. cbn [fltb dltb dleb f2d dadd dsub ddiv fadd fsub i2d i2f exactQ].
    change (inject_Z 359) with 359%Q. change (inject_Z 360) with 360%Q.
    change (inject_Z 180) with 180%Q. change (inject_Z 2) with 2%Q.
    assert (E1 : Qltb End_ Start = false) by (apply Qltb_ge; exact Hordered).
    assert (E2 : Qleb End_ (Start + 359) = true) by (apply Qle_bool_iff; exact Hfits).
    rewrite E1, E2.
    destruct (Qltb ((Start + End_) / 2 + 180) w) eqn:Ehigh.
    - apply Qltb_lt in Ehigh.
      assert (Ev : (w == value + 360)%Q) by (destruct Hw as [Hw|[Hw|Hw]]; lra).
      assert (E3 : Qltb (w - 360) ((Start + End_) / 2 - 180) = false)
        by (apply Qltb_ge; lra).
      rewrite E3. eexists. split; [reflexivity | lra].
    - apply Qltb_ge in Ehigh.
      destruct (Qltb w ((Start + End_) / 2 - 180)) eqn:Elow.
      + apply Qltb_lt in Elow.
        assert (Ev : (w == value - 360)%Q) by (destruct Hw as [Hw|[Hw|Hw]]; lra).
        eexists. split; [reflexivity | lra].
      + apply Qltb_ge in Elow.
        assert (Ev : (w == value)%Q) by (destruct Hw as [Hw|[Hw|Hw]]; lra).
        eexists. split; [reflexivity | exact Ev]. }
  assert (Hencode : forall p q : Q, (p == q)%Q ->
             @codec_encode exactQ 255 Start End_ p = @codec_encode exactQ 255 Start End_ q).
  { intros p q Epq. unfold codec_encode, f2i. cbn [ftrunc fdiv fmul fsub i2f exactQ].
    rewrite (Qtrunc_comp (inject_Z 255 * (p - Start) / (End_ - Start))
                         (inject_Z 255 * (q - Start) / (End_ - Start)));
      [reflexivity | now rewrite Epq]. }
  assert (Hsame : forall w : Q,
             (w == value \/ w == value + 360 \/ w == value - 360)%Q ->
             controller_after (SetController controller w e) =
             match store_at (_controllerValues e) controller value with
             | Done _ =>
               match @codec_encode exactQ 255 Start End_ value with
               | Done setting =>
                 match store_at (_controller e) controller setting with
                 | Done controllers => Some controllers
                 | Undefined _ => None
                 end
               | Undefined _ => None
               end
             | Undefined _ => None
             end).
  { intros w Hw.
    destruct (Z_lt_dec controller 0) as [Hneg|Hpos];
      [|destruct (Z_lt_dec controller (Z.of_nat (length (_controllerValues e))))
          as [Hin|Hout]].
    - unfold SetController. rewrite Hmodel. cbv zeta.
      rewrite (at_index_size_le _ _ _ Hbc).
      rewrite !store_at_outside by lia. reflexivity.
    - rewrite (SetController_codec e model controller w bc _ Hmodel
                 (at_index_size_le _ _ _ Hbc) Hbc
                 (store_at_inside _ _ _ (conj (proj1 (Z.nlt_ge _ _) Hpos) Hin))).
      rewrite (store_at_inside _ controller value) by lia.
      destruct (Hnormal w Hw) as (normalized & Hn & En).
      fold Start End_. rewrite Hn. cbn [bind].
      rewrite (Hencode normalized value En).
      destruct (codec_encode 255 Start End_ value) as [setting|]; [|reflexivity].
      cbn [bind]. destruct (store_at (_controller e) controller setting); reflexivity.
    - unfold SetController. rewrite Hmodel. cbv zeta.
      rewrite (at_index_size_le _ _ _ Hbc).
      rewrite !store_at_outside by lia. reflexivity. }
  rewrite (Hsame v Hturn).
  rewrite (Hsame value) by (left; reflexivity). reflexivity.
Qed.

(** X13.  Over the rationals, in whole degrees: for a rotational bone
    controller whose range [[s, t]] is in whole numbers within [RANGE_LIMIT]
    of 0 and does not wrap ([s <= t <= s + 359]), and a whole value [v]
    strictly within half a turn of the midpoint of the range, a full turn
    more or less makes no difference: [SetController] with [v + 360] and with
    [v - 360] leaves the same encoded bytes as with [v].  (The whole numbers
    and the sums are binary32 numbers, so that nothing is rounded.) *)
Theorem full_turn_stores_the_same_byte (e : StudioModelEntity)
    (model : EditableStudioModel) (controller : Z) (bc : BoneController)
    (s t v : Z) :
  _editableModel e = Some model ->
  at_index (BoneControllers model)
    (find_controller (BoneControllers model) controller 0) = Done bc ->
  rotational (bc_Type bc) = true ->
  bc_Start bc = i2f s -> bc_End bc = i2f t ->
  - RANGE_LIMIT <= s -> s <= t -> t <= s + 359 -> t <= RANGE_LIMIT ->
  s + t - 360 < 2 * v < s + t + 360 ->
  controller_after (SetController controller (i2f (v + 360)) e)
    = controller_after (SetController controller (i2f v) e) /\
  controller_after (SetController controller (i2f (v - 360)) e)
    = controller_after (SetController controller (i2f v) e).
Proof.
  intros Hmodel Hbc Hrot Hstart Hend _ Hordered Hfits _ [Hlo Hhi].
  assert (Qs : (bc_Start bc == inject_Z s)%Q) by (rewrite Hstart; reflexivity).
  assert (Qt : (bc_End bc == inject_Z t)%Q) by (rewrite Hend; reflexivity).
  assert (Hordered' : (inject_Z s <= inject_Z t)%Q) by (apply inject_Z_le_iff; exact Hordered).
  assert (Hfits' : (inject_Z t <= inject_Z (s + 359))%Q) by (apply inject_Z_le_iff; exact Hfits).
  assert (Hlo' : (inject_Z (s + t) < inject_Z (2 * v + 360))%Q)
    by (apply inject_Z_lt_iff; lia).
  assert (Hhi' : (inject_Z (2 * v) < inject_Z (s + t + 360))%Q)
    by (apply inject_Z_lt_iff; exact Hhi).
  repeat rewrite inject_Z_plus in Hfits'. repeat rewrite inject_Z_plus in Hlo'.
  repeat rewrite inject_Z_plus in Hhi'.
  rewrite inject_Z_mult in Hlo', Hhi'.
  change (inject_Z 359) with 359%Q in Hfits'. change (inject_Z 360) with 360%Q in *.
  change (inject_Z 2) with 2%Q in *.
  cbn [i2f exactQ].
  assert (Hbelow : ((inject_Z s + inject_Z t) / 2 - 180 < inject_Z v)%Q).
  { revert Hlo'. generalize (inject_Z s), (inject_Z t), (inject_Z v). intros a b c H.
    assert (E : ((a + b) / 2 == (1 # 2) * (a + b))%Q) by field.
    rewrite E. lra. }
  assert (Habove : (inject_Z v < (inject_Z s + inject_Z t) / 2 + 180)%Q).
  { revert Hhi'. generalize (inject_Z s), (inject_Z t), (inject_Z v). intros a b c H.
    assert (E : ((a + b) / 2 == (1 # 2) * (a + b))%Q) by field.
    rewrite E. lra. }
  assert (Hsame : forall w : Q,
             (w == inject_Z v \/ w == inject_Z v + 360 \/ w == inject_Z v - 360)%Q ->
             controller_after (SetController controller w e)
               = controller_after (SetController controller (inject_Z v) e)).
  { intros w Hw.
    apply (full_turn_same_byte e model controller bc (inject_Z v) w Hmodel Hbc Hrot);
      [rewrite Qs, Qt; exact Hordered' | rewrite Qs, Qt; exact Hfits'
      | rewrite Qs, Qt; exact Hbelow | rewrite Qs, Qt; exact Habove | exact Hw]. }
  split; apply Hsame.
  - right; left. rewrite inject_Z_plus. reflexivity.
  - right; right. unfold Z.sub. rewrite inject_Z_plus. reflexivity.
Qed.
End LinearControllers.

Lemma linear_controller_quantizes_witness :
  let slide := @Scenario.controller exactQ 1 1 0 100 in
  let model := Scenario.model_of (Scenario.blended30 []) [slide] in
  let e := @Scenario.entity_of exactQ (Some model) StandardBlender 0 0 in
  exists e' setting,
    @SetController exactQ goldsrc 1 50%Q e = Done e' /\
    at_index (_controller e') 1 = Done setting /\
    0 <= setting <= 255 /\
    (decoded 255 0 100 (setting - 1) <= 50)%Q /\
    (50 < decoded 255 0 100 (setting + 2))%Q.
Proof.
  intros slide model e.
  apply (@linear_controller_quantizes goldsrc e model 1 slide 50%Q).
  - reflexivity.
  - reflexivity.
  - reflexivity.
  - reflexivity.
  - vm_compute. discriminate.
  - vm_compute. discriminate.
  - vm_compute. discriminate.
  - vm_compute. discriminate.
  - simpl. lia.
  - simpl. lia.
Defined.

(** In binary32, on the range [[0, 3]]: the value 8585987 / 2^23 lies below
    the decoded value of 87, and 87 is the byte stored; decoding 86 gives
    less than the value and decoding 89 gives more. *)
Lemma linear_controller_binary32_run :
  let slide := @Scenario.controller ieee 1 1 0 3 in
  let model := Scenario.model_of (Scenario.blended30 []) [slide] in
  let e := @Scenario.entity_of ieee (Some model) StandardBlender 0 0 in
  controller_after
    (@SetController ieee goldsrc 1 (@fdiv ieee (@i2f ieee 8585987) (@i2f ieee 8388608)) e)
    = Some [0; 87; 0; 0]
  /\
  (decoded 255 0 3 86 <= 8585987 # 8388608)%Q /\
  (8585987 # 8388608 < decoded 255 0 3 87)%Q /\
  (8585987 # 8388608 < decoded 255 0 3 89)%Q.
Proof.
  intros slide model e. split; [vm_compute; reflexivity|].
  split; [vm_compute; discriminate|]. split; vm_compute; reflexivity.
Qed.

Lemma linear_controller_is_monotone_witness :
  let slide := @Scenario.controller exactQ 1 1 0 100 in
  let model := Scenario.model_of (Scenario.blended30 []) [slide] in
  let e := @Scenario.entity_of exactQ (Some model) StandardBlender 0 0 in
  let e1 := with_controller e [0; 51; 0; 0] [0; 20; 0; 0; 0]%Q in
  let e2 := with_controller e [0; 255; 0; 0] [0; 130; 0; 0; 0]%Q in
  exists b1 b2,
    at_index (_controller e1) 1 = Done b1 /\
    at_index (_controller e2) 1 = Done b2 /\
    b1 <= b2 /\
    ((130 <= 0)%Q -> b2 = 0) /\
    ((decoded 255 0 100 256 <= 20)%Q -> b1 = 255).
Proof.
  intros slide model e e1 e2.
  apply (@linear_controller_is_monotone goldsrc e e1 e2 model 1 slide 20%Q 130%Q).
  - reflexivity.
  - reflexivity.
  - reflexivity.
  - reflexivity.
  - vm_compute. discriminate.
  - reflexivity.
  - reflexivity.
Defined.

Lemma full_turn_witness :
  let pitch := @Scenario.controller exactQ 0 8 (-90) 90 in
  let model := Scenario.model_of (Scenario.blended30 []) [pitch] in
  let e := @Scenario.entity_of exactQ (Some model) StandardBlender 0 0 in
  (controller_after (@SetController exactQ goldsrc 0 (@i2f exactQ (45 + 360)) e)
     = controller_after (@SetController exactQ goldsrc 0 (@i2f exactQ 45) e) /\
   controller_after (@SetController exactQ goldsrc 0 (@i2f exactQ (45 - 360)) e)
     = controller_after (@SetController exactQ goldsrc 0 (@i2f exactQ 45) e)) /\
  controller_after (@SetController exactQ goldsrc 0 45%Q e) = Some [191; 0; 0; 0].
Proof.
  intros pitch model e. split; [|reflexivity].
  apply (@full_turn_stores_the_same_byte goldsrc e model 0 pitch (-90) 90 45);
    try reflexivity; unfold RANGE_LIMIT; lia.
Defined.

(** In binary32, on the range [[-90, 90]]: every whole value from -179 to 179
    stores the same byte a full turn up and a full turn down. *)
Lemma full_turn_binary32_runs :
  let pitch := @Scenario.controller ieee 0 8 (-90) 90 in
  let model := Scenario.model_of (Scenario.blended30 []) [pitch] in
  let e := @Scenario.entity_of ieee (Some model) StandardBlender 0 0 in
  let stored v := controller_after (@SetController ieee goldsrc 0 (@i2f ieee v) e) in
  let values := map (fun k => Z.of_nat k - 179) (seq 0 359) in
  map (fun v => stored (v + 360)) values = map stored values /\
  map (fun v => stored (v - 360)) values = map stored values.
Proof. intros pitch model e stored values. split; vm_compute; reflexivity. Qed.

(** ** The Counter-Strike blender, over the rationals *)

Lemma cast_to_outside (lo hi z : Z) :
  ~ lo <= z <= hi -> cast_to lo hi (Some z) = Undefined BadCast.
Proof.
  intros Hout. unfold cast_to.
  destruct ((lo <=? z) && (z <=? hi)) eqn:E; [|reflexivity].
  apply andb_true_iff in E as [E1 E2].
  apply Z.leb_le in E1. apply Z.leb_le in E2. lia.
Qed.

(** X14.  Over the rationals, the Counter-Strike blender maps a value of the
    first blend channel from [[-180, 180]] onto the bytes 0 to 255, the whole
    part of [(180 + value) / 360 * 255], without a clamp: for a value of 182
    or more, or of -182 or less, the cast to [std::uint8_t] is of a number
    outside [[0, 255]], and [SetBlending] has no defined outcome. *)
Theorem CounterStrike_blend_is_not_clamped {K : StudioConstants}
    (sd : @Sequence exactQ) (value : @float exactQ) :
  ((-180 <= value)%Q -> (value <= 180)%Q ->
   exists setting,
     @CounterStrikeBlender_CalculateBlend exactQ K sd SequenceBlendXIndex value
       = Done (Some setting) /\
     0 <= setting <= 255 /\
     (inject_Z setting <= (180 + value) / 360 * 255)%Q /\
     ((180 + value) / 360 * 255 < inject_Z (setting + 1))%Q)
  /\
  ((182 <= value)%Q \/ (value <= -182)%Q ->
   @CounterStrikeBlender_CalculateBlend exactQ K sd SequenceBlendXIndex value
     = Undefined BadCast /\
   forall e : @StudioModelEntity exactQ,
     current_sequence e sd ->
     _blender e = CounterStrikeBlender ->
     0 <= SequenceBlendXIndex < STUDIO_MAX_BLENDERS ->
     @SetBlending exactQ K SequenceBlendXIndex value e = Undefined BadCast).
Proof.
  unfold CounterStrikeBlender_CalculateBlend. rewrite Z.eqb_refl.
  unfold d2u8. cbn [dtrunc dmul ddiv dadd i2d f2d exactQ].
  change (inject_Z 180) with 180%Q. change (inject_Z 360) with 360%Q.
  change (inject_Z 255) with 255%Q.
  set (scaled := ((180 + value) / 360 * 255)%Q).
  assert (Escaled : (scaled == (180 + value) * (17 # 24))%Q) by (subst scaled; field).
  split.
  - intros Hlo Hhi.
    assert (H0 : (0 <= scaled)%Q) by (rewrite Escaled; apply Qmult_le_0_compat; lra).
    assert (H1 : (scaled <= inject_Z 255)%Q).
    { rewrite Escaled. change (inject_Z 255) with 255%Q.
      setoid_replace 255%Q with (360 * (17 # 24))%Q by reflexivity.
      apply Qmult_le_compat_r; lra. }
    destruct (Qtrunc_bounds scaled H0) as [Hfloor Hceil].
    pose proof (Qtrunc_nonneg scaled H0) as Hb0.
    pose proof (Qtrunc_monotone _ _ H1) as Hb1. rewrite Qtrunc_inject_Z in Hb1.
    exists (Qtrunc scaled). rewrite cast_to_fits by lia.
    split; [reflexivity|]. split; [lia|]. split; assumption.
  - intros Hout.
    assert (Hcast : cast_to 0 255 (Some (Qtrunc scaled)) = Undefined BadCast).
    { apply cast_to_outside. destruct Hout as [Hbig|Hsmall].
      - assert (H : (inject_Z 256 <= scaled)%Q).
        { rewrite Escaled. change (inject_Z 256) with 256%Q.
          apply Qle_trans with (362 * (17 # 24))%Q; [vm_compute; discriminate|].
          apply Qmult_le_compat_r; lra. }
        apply Qtrunc_monotone in H. rewrite Qtrunc_inject_Z in H. lia.
      - assert (H : (scaled <= inject_Z (-1))%Q).
        { rewrite Escaled. change (inject_Z (-1)) with (-1)%Q.
          apply Qle_trans with (-2 * (17 # 24))%Q; [|vm_compute; discriminate].
          apply Qmult_le_compat_r; lra. }
        apply Qtrunc_monotone in H. rewrite Qtrunc_inject_Z in H. lia. }
    rewrite Hcast. split; [reflexivity|].
    intros e (model & Hmodel & Hseq) Hkind Hrange.
    unfold SetBlending. rewrite Hmodel.
    assert (E : (SequenceBlendXIndex <? 0) || (STUDIO_MAX_BLENDERS <=? SequenceBlendXIndex)
                = false).
    { apply orb_false_iff. split; [apply Z.ltb_ge; lia | apply Z.leb_gt; lia]. }
    rewrite E, (current_sequence_valid _ _ _ Hseq), Hseq. cbn [bind].
    rewrite Hkind. unfold CalculateBlend, CounterStrikeBlender_CalculateBlend.
    rewrite Z.eqb_refl. unfold d2u8. cbn [dtrunc dmul ddiv dadd i2d f2d exactQ].
    change (inject_Z 180) with 180%Q. change (inject_Z 360) with 360%Q.
    change (inject_Z 255) with 255%Q. fold scaled. rewrite Hcast. reflexivity.
Qed.

Lemma CounterStrike_blend_witness :
  let sd := @Scenario.blended30 exactQ [Scenario.channel 0 0 0; Scenario.channel 0 0 0] in
  let e := @Scenario.entity_of exactQ (Some (Scenario.model_of sd []))
             CounterStrikeBlender 0 0 in
  (exists setting,
     @CounterStrikeBlender_CalculateBlend exactQ goldsrc sd 0 90%Q = Done (Some setting) /\
     0 <= setting <= 255 /\
     (inject_Z setting <= (180 + 90) / 360 * 255)%Q /\
     ((180 + 90) / 360 * 255 < inject_Z (setting + 1))%Q) /\
  @SetBlending exactQ goldsrc 0 200%Q e = Undefined BadCast.
Proof.
  intros sd e.
  destruct (@CounterStrike_blend_is_not_clamped goldsrc sd 90%Q) as [Hinside _].
  destruct (@CounterStrike_blend_is_not_clamped goldsrc sd 200%Q) as [_ Houtside].
  split.
  - apply Hinside; vm_compute; discriminate.
  - apply Houtside.
    + left. vm_compute. discriminate.
    + eexists. split; reflexivity.
    + reflexivity.
    + simpl. lia.
Defined.

(** ** The time step and the first update *)

Section Stepping.
Context {K : StudioConstants}.
#[local] Existing Instance exactQ.

(** [AdvanceFrame] leaves the model and the sequence index alone. *)
Lemma AdvanceFrame_keeps_sequence (e e' : StudioModelEntity) (now : double)
    (deltaTime maximum r : float) :
  AdvanceFrame now deltaTime maximum e = Done (e', r) ->
  _editableModel e' = _editableModel e /\ _sequence e' = _sequence e.
Proof.
  unfold AdvanceFrame. intros H.
  destruct (_editableModel e) as [model|] eqn:Hmodel;
    [|inversion H; subst; split; [exact Hmodel | reflexivity]].
  destruct (no_sequence model (_sequence e));
    [inversion H; subst; split; [exact Hmodel | reflexivity]|].
  apply bind_Done in H as (sd & _ & H). cbv zeta in H.
  destruct (feqb deltaTime (i2f 0) && _);
    [inversion H; subst; split; [exact Hmodel | reflexivity]|].
  apply bind_Done in H as (last & _ & H).
  destruct (seq_NumFrames sd <=? 1).
  - inversion H; subst. split; [exact Hmodel | reflexivity].
  - apply bind_Done in H as (frame & _ & H).
    inversion H; subst. split; [exact Hmodel | reflexivity].
Qed.

(** X15.  Over the rationals, with a maximum that is not negative, the time
    step [AdvanceFrame] returns is never more than the maximum. *)
Theorem AdvanceFrame_step_is_capped (e e' : StudioModelEntity) (now : double)
    (deltaTime maximum r : float) :
  (0 <= maximum)%Q ->
  AdvanceFrame now deltaTime maximum e = Done (e', r) ->
  (r <= maximum)%Q.
Proof.
  intros Hmax H. unfold AdvanceFrame in H.
  assert (Hzero : (@i2f exactQ 0 <= maximum)%Q) by exact Hmax.
  destruct (_editableModel e) as [model|]; [|inversion H; subst; exact Hzero].
  destruct (no_sequence model (_sequence e)); [inversion H; subst; exact Hzero|].
  apply bind_Done in H as (sd & _ & H). cbv zeta in H.
  destruct (feqb deltaTime (i2f 0) && _); [inversion H; subst; exact Hzero|].
  assert (Hne : negb (@feqb exactQ maximum (i2f (-1))) = true).
  { apply negb_true_iff. cbn [feqb i2f exactQ].
    destruct (Qeqb maximum (inject_Z (-1))) eqn:E; [|reflexivity].
    apply Qeqb_eq in E. exfalso. rewrite E in Hmax. revert Hmax.
    apply Qlt_not_le. reflexivity. }
  rewrite Hne in H.
  assert (Hcap : forall dt : Q, (@fmin exactQ dt maximum <= maximum)%Q).
  { intros dt. unfold fmin. cbn [fltb exactQ].
    destruct (Qltb maximum dt) eqn:E; [apply Qle_refl|].
    apply Qltb_ge in E. exact E. }
  apply bind_Done in H as (last & _ & H).
  destruct (seq_NumFrames sd <=? 1).
  - inversion H; subst. apply Hcap.
  - apply bind_Done in H as (frame & _ & H). inversion H; subst. apply Hcap.
Qed.

(** X16.  Over the rationals, the first [AdvanceFrame] of an entity, whose
    animation time is still 0, only records the time: with a maximum of -1 or
    not negative, on a current sequence of more than one frame and a frame
    within [[0, NumFrames - 1)], it returns a time step of 0 and leaves the
    frame and the event marker where they were, whatever the time elapsed and
    the looping mode. *)
Theorem first_AdvanceFrame_does_not_advance (e : StudioModelEntity) (sd : Sequence)
    (now : double) (deltaTime maximum : float) :
  current_sequence e sd ->
  1 < seq_NumFrames sd <= INT_MAX ->
  (_animTime e == 0)%Q ->
  (maximum == inject_Z (-1) \/ 0 <= maximum)%Q ->
  (0 <= _frame e)%Q -> (_frame e < inject_Z (seq_NumFrames sd - 1))%Q ->
  exists e' r,
    AdvanceFrame now deltaTime maximum e = Done (e', r) /\
    (r == 0)%Q /\
    (_frame e' == _frame e)%Q /\
    _lastEventCheck e' = _lastEventCheck e /\
    (e' = e \/ _animTime e' = now).
Proof.
  intros (model & Hmodel & Hseq) Hframes Hfirst Hmax Hf0 Hf1.
  unfold AdvanceFrame.
  rewrite Hmodel, (current_sequence_valid _ _ _ Hseq), Hseq. cbn [bind]. cbv zeta.
  destruct (feqb deltaTime (i2f 0) && _).
  { exists e, (i2f 0). split; [reflexivity|].
    split; [reflexivity|]. split; [reflexivity|]. split; [reflexivity | left; reflexivity]. }
  assert (E0 : @deqb exactQ (_animTime e) (i2d 0) = true) by (apply Qeqb_eq; exact Hfirst).
  rewrite E0.
  set (dt := if negb (@feqb exactQ maximum (i2f (-1))) then fmin (i2f 0) maximum else i2f 0).
  assert (Hdt : (dt == 0)%Q).
  { subst dt. destruct (negb (@feqb exactQ maximum (i2f (-1)))) eqn:E; [|reflexivity].
    unfold fmin. cbn [fltb i2f exactQ].
    destruct (Qltb maximum (inject_Z 0)) eqn:E'; [|reflexivity].
    apply Qltb_lt in E'. change (inject_Z 0) with 0%Q in E'.
    destruct Hmax as [Hmax|Hmax]; [|exfalso; lra].
    apply negb_true_iff in E. cbn [feqb i2f exactQ] in E.
    apply Qeqb_eq in Hmax. congruence. }
  unfold isub. rewrite as_int_fits by (unfold INT_MIN, INT_MAX in *; lia). cbn [bind].
  assert (HN : (seq_NumFrames sd <=? 1) = false) by (apply Z.leb_gt; lia).
  rewrite HN.
  assert (Hbelow : @fltb exactQ (_frame e) (i2f (seq_NumFrames sd - 1)) = true)
    by (apply Qltb_lt; exact Hf1).
  rewrite Hbelow. cbn [orb].
  cbn [fadd fmul exactQ].
  set (increment := (dt * seq_FPS sd * _frameRate e)%Q).
  assert (Hinc : (increment == 0)%Q) by (subst increment; rewrite Hdt; ring).
  set (last := seq_NumFrames sd - 1) in *.
  assert (HlastQ : (0 < inject_Z last)%Q) by (apply (inject_Z_lt_iff 0 last); lia).
  assert (Hquot : Qtrunc ((_frame e + increment) / inject_Z last) = 0).
  { assert (H0 : (0 <= (_frame e + increment) / inject_Z last)%Q)
      by (apply Qle_shift_div_l; [exact HlastQ | lra]).
    assert (H1 : ((_frame e + increment) / inject_Z last < 1)%Q)
      by (apply Qlt_shift_div_r; [exact HlastQ | lra]).
    destruct (Qtrunc_bounds _ H0) as [Hfloor _].
    pose proof (Qtrunc_nonneg _ H0) as Hq.
    assert (Hlt : (inject_Z (Qtrunc ((_frame e + increment) / inject_Z last)) < inject_Z 1)%Q)
      by (eapply Qle_lt_trans; [exact Hfloor | exact H1]).
    apply (proj1 (inject_Z_lt_iff _ _)) in Hlt. lia. }
  assert (Hwrap : wrap_frame (_frame e + increment)%Q last
                  = Done (_frame e + increment - inject_Z 0)%Q).
  { unfold wrap_frame, f2i. cbn [ftrunc fdiv fsub i2f exactQ]. rewrite Hquot.
    rewrite cast_to_fits by (unfold INT_MIN, INT_MAX; lia). cbn [bind].
    unfold imul. rewrite as_int_fits by (unfold INT_MIN, INT_MAX; lia). reflexivity. }
  assert (Hfinish : forall frame : Q, (frame == _frame e)%Q ->
            exists (e' : StudioModelEntity) (r : float),
              Done (with_frame e frame now
                      (if @fltb exactQ frame (_frame e)
                       then @fsub exactQ frame increment else _lastEventCheck e), dt)
                = Done (e', r) /\
              (r == 0)%Q /\
              (_frame e' == _frame e)%Q /\
              _lastEventCheck e' = _lastEventCheck e /\
              (e' = e \/ _animTime e' = now)).
  { intros frame Eframe.
    assert (Hnot : @fltb exactQ frame (_frame e) = false) by (apply Qltb_ge; lra).
    rewrite Hnot. eexists _, dt. split; [reflexivity|].
    cbn [_frame _lastEventCheck _animTime with_frame].
    split; [exact Hdt|]. split; [exact Eframe|].
    split; [reflexivity | right; reflexivity]. }
  destruct (shouldLoop (_loopingMode e) sd).
  - rewrite Hwrap. cbn [bind]. apply Hfinish.
    change (inject_Z 0) with 0%Q. lra.
  - assert (E : @fleb exactQ (i2f last) (_frame e + increment)%Q = false)
      by (apply Qleb_gt; cbn [i2f exactQ]; lra).
    rewrite E. cbn [bind]. apply Hfinish. lra.
Qed.

(** X17.  Over the rationals, on a current sequence of more than one frame:
    when [AdvanceFrame] takes the frame from below the last frame back to a
    smaller frame (the loop has wrapped), the [DispatchAnimEvents] that
    follows hands over the events due in the window it is left, from the
    marker to the new frame, and no event at or past the frame before the
    wrap is among them: the events between that frame and the end of the
    loop are left out. *)
Theorem wrap_leaves_late_events_out (e e1 : StudioModelEntity) (sd : Sequence)
    (now : double) (deltaTime maximum r : float) (allow : bool) :
  current_sequence e sd ->
  1 < seq_NumFrames sd <= INT_MAX ->
  (_frame e < inject_Z (seq_NumFrames sd - 1))%Q ->
  AdvanceFrame now deltaTime maximum e = Done (e1, r) ->
  (_frame e1 < _frame e)%Q ->
  exists e2,
    DispatchAnimEvents allow e1 =
      Done (e2, map handed_over
                  (filter (due sd (_lastEventCheck e1) (_frame e1) allow)
                          (seq_SortedEvents sd))) /\
    forall candidate,
      (_frame e <= inject_Z (ev_Frame candidate))%Q ->
      due sd (_lastEventCheck e1) (_frame e1) allow candidate = false.
Proof.
  intros (model & Hmodel & Hseq) Hframes Hbelow Hadvance Hwrapped.
  destruct (AdvanceFrame_keeps_sequence _ _ _ _ _ _ Hadvance) as [Hmodel1 Hseq1].
  assert (Hcurrent1 : current_sequence e1 sd).
  { exists model. rewrite Hmodel1, Hseq1. split; assumption. }
  assert (Hrange : INT_MIN < seq_NumFrames sd <= INT_MAX) by (unfold INT_MIN; lia).
  rewrite (DispatchAnimEvents_window sd Hrange allow (_lastEventCheck e1) (_frame e1) e1
             Hcurrent1 eq_refl eq_refl).
  assert (HN : (seq_NumFrames sd <=? 1) = false) by (apply Z.leb_gt; lia).
  rewrite HN. eexists. split; [reflexivity|].
  intros candidate Hlate. apply event_past_the_frame_is_not_due; lra.
Qed.
End Stepping.

Lemma AdvanceFrame_step_is_capped_witness :
  exists e',
    @AdvanceFrame exactQ goldsrc 9%Q 0%Q (1 # 10)%Q (@Scenario.looping30 exactQ)
      = Done (e', (1 # 10)%Q) /\
    ((1 # 10) <= (1 # 10))%Q.
Proof.
  eexists. split; [reflexivity|].
  eapply (@AdvanceFrame_step_is_capped goldsrc (@Scenario.looping30 exactQ) _
            9%Q 0%Q (1 # 10)%Q (1 # 10)%Q).
  - vm_compute. discriminate.
  - reflexivity.
Defined.

Lemma first_AdvanceFrame_witness :
  let e := with_frame (@Scenario.looping30 exactQ) 7%Q 0%Q 7%Q in
  exists e' r,
    @AdvanceFrame exactQ goldsrc 6%Q 1%Q (-1)%Q e = Done (e', r) /\
    (r == 0)%Q /\
    (_frame e' == 7)%Q /\
    _lastEventCheck e' = 7%Q /\
    (e' = e \/ _animTime e' = 6%Q).
Proof.
  intros e.
  apply (@first_AdvanceFrame_does_not_advance goldsrc e
           (@Scenario.sequence30 exactQ 30 1 []) 6%Q 1%Q (-1)%Q).
  - eexists. split; reflexivity.
  - unfold INT_MAX. simpl. lia.
  - reflexivity.
  - left. reflexivity.
  - vm_compute. discriminate.
  - reflexivity.
Defined.

Lemma wrap_leaves_late_events_out_witness :
  let events := [Scenario.event 5 1001; Scenario.event 27 1002] in
  let e := @Scenario.entity_of exactQ
             (Some (Scenario.model_of (Scenario.sequence30 10 1 events) []))
             StandardBlender 25 25 in
  let e1 := with_frame e 6%Q 6%Q (-4)%Q in
  exists e2,
    @DispatchAnimEvents exactQ goldsrc true e1 =
      Done (e2, [ {| ae_id := 1001; ae_options := String.EmptyString |} ]) /\
    forall candidate,
      (25 <= inject_Z (ev_Frame candidate))%Q ->
      @due exactQ goldsrc (Scenario.sequence30 10 1 events) (-4)%Q 6%Q true candidate
        = false.
Proof.
  intros events e e1.
  apply (@wrap_leaves_late_events_out goldsrc e e1 (Scenario.sequence30 10 1 events)
           6%Q 1%Q (-1)%Q 1%Q true).
  - eexists. split; reflexivity.
  - unfold INT_MAX. simpl. lia.
  - reflexivity.
  - reflexivity.
  - reflexivity.
Defined.

(** ** The chrome cache across draws *)

Section ChromeGenerations.
Context {A : Arith}.
Variable glm_normalize : Vec3 -> Vec3.
Variable glm_inverse : Mat4 -> Mat4.

(** The draw generation, an [unsigned int], never stays where it was. *)
Lemma generation_moves (count : Z) :
  0 <= count < 2 ^ 32 -> (count + 1) mod 2 ^ 32 <> count.
Proof.
  intros Hcount. destruct (Z.eq_dec count (2 ^ 32 - 1)) as [->|Hne].
  - vm_compute. discriminate.
  - rewrite Z.mod_small by lia. lia.
Qed.

(** X18.  A chrome cache entry filled in one draw is not used in the next:
    when [DrawModel] starts a draw (after the viewer origin has been set),
    the draw generation moves on, and the first [Chrome] for a bone whose
    stamp was the old generation computes the basis vectors again, from the
    viewer as it is now, stores them with the new stamp and returns the
    coordinates taken from them. *)
Theorem Chrome_recomputes_in_the_next_draw (r : StudioModelRenderer)
    (renderInfo : ModelRenderInfo) (studioModel : EditableStudioModel)
    (bone : Z) (normal viewerOrigin : Vec3) (boneTransform : Mat4) :
  0 <= _modelsDrawnCount r < 2 ^ 32 ->
  at_index (_chromeage r) bone = Done (_modelsDrawnCount r) ->
  at_index (_bonetransform r) bone = Done boneTransform ->
  bone < Z.of_nat (length (_chromeup r)) ->
  bone < Z.of_nat (length (_chromeright r)) ->
  let r1 := begin_draw (with_viewerOrigin r viewerOrigin) renderInfo studioModel in
  let basis := chrome_basis glm_normalize glm_inverse viewerOrigin (_viewerRight r)
                 boneTransform in
  exists r2,
    Chrome glm_normalize glm_inverse bone normal r1 =
      Done (r2, {| s_coord := chrome_coord (glm_dot normal (snd basis));
                   t_coord := chrome_coord (glm_dot normal (fst basis)) |}) /\
    _modelsDrawnCount r1 <> _modelsDrawnCount r /\
    at_index (_chromeage r2) bone = Done (_modelsDrawnCount r1) /\
    at_index (_chromeup r2) bone = Done (fst basis) /\
    at_index (_chromeright r2) bone = Done (snd basis).
Proof.
  intros Hcount Hage Hbone Hup Hright r1 basis.
  pose proof (at_index_Done _ _ _ Hage) as [Hin _].
  unfold Chrome. subst r1.
  cbn [_chromeage _modelsDrawnCount _bonetransform _viewerOrigin _viewerRight
       _chromeup _chromeright begin_draw with_viewerOrigin].
  rewrite Hage. cbn [bind].
  assert (Estale : (_modelsDrawnCount r =? (_modelsDrawnCount r + 1) mod 2 ^ 32) = false).
  { apply Z.eqb_neq. intros E. apply (generation_moves _ Hcount). now rewrite <- E. }
  rewrite Estale. cbn [negb]. rewrite Hbone. cbn [bind].
  fold basis. destruct basis as [upvec rightvec] eqn:Ebasis.
  rewrite (store_at_inside (_chromeup r) bone upvec) by lia.
  rewrite (store_at_inside (_chromeright r) bone rightvec) by lia.
  rewrite (store_at_inside (_chromeage r) bone _) by lia.
  cbn [bind _chromeright _chromeup with_chrome].
  assert (Hr : at_index (replace_nth (_chromeright r) (Z.to_nat bone) rightvec) bone
               = Done rightvec)
    by (apply (at_index_store_at (_chromeright r)), store_at_inside; lia).
  assert (Hu : at_index (replace_nth (_chromeup r) (Z.to_nat bone) upvec) bone
               = Done upvec)
    by (apply (at_index_store_at (_chromeup r)), store_at_inside; lia).
  rewrite Hr, Hu. cbn [bind fst snd].
  eexists. split; [reflexivity|].
  cbn [_chromeage _chromeup _chromeright with_chrome].
  split; [apply generation_moves; exact Hcount|].
  split; [apply (at_index_store_at (_chromeage r)), store_at_inside; lia|].
  split; assumption.
Qed.
End ChromeGenerations.

Lemma Chrome_recomputes_witness :
  let r := with_chrome (@Scenario.renderer exactQ 0) [1; 1]
             [Scenario.vec3 0 0 0; Scenario.vec3 0 0 0]
             [Scenario.vec3 0 0 0; Scenario.vec3 0 0 0] in
  let there := @Scenario.vec3 exactQ 9 9 9 in
  let info := @Scenario.render_info exactQ (Some (Scenario.studio_model 0)) in
  let r1 := begin_draw (with_viewerOrigin r there) info (Scenario.studio_model 0) in
  let basis := @chrome_basis exactQ (fun v => v) (fun m => m) there (_viewerRight r)
                 (Scenario.bone_at 0 0 20) in
  exists r2,
    @Chrome exactQ (fun v => v) (fun m => m) 1 (Scenario.vec3 0 0 1) r1 =
      Done (r2, {| s_coord := chrome_coord (glm_dot (Scenario.vec3 0 0 1) (snd basis));
                   t_coord := chrome_coord (glm_dot (Scenario.vec3 0 0 1) (fst basis)) |}) /\
    _modelsDrawnCount r1 <> 1 /\
    at_index (_chromeage r2) 1 = Done 2 /\
    at_index (_chromeup r2) 1 = Done (fst basis) /\
    at_index (_chromeright r2) 1 = Done (snd basis).
Proof.
  intros r there info r1 basis.
  apply (@Chrome_recomputes_in_the_next_draw exactQ (fun v => v) (fun m => m) r info
           (Scenario.studio_model 0) 1 (Scenario.vec3 0 0 1) there
           (Scenario.bone_at 0 0 20)).
  - simpl. lia.
  - reflexivity.
  - reflexivity.
  - simpl. lia.
  - simpl. lia.
Defined.

(** ** What shadow drawing issues *)

Section ShadowCalls.
Context {A : Arith} {K : StudioConstants}.

Lemma bracket_app (inside : bool) (first second : list GLCall) :
  bracket inside (first ++ second) =
    match bracket inside first with
    | Some inside' => bracket inside' second
    | None => None
    end.
Proof.
  revert inside; induction first as [|c first IH]; intros inside; [reflexivity|].
  cbn [app bracket]. destruct c, inside; try reflexivity; apply IH.
Qed.

Lemma adds_primitives_refl inside ctx : adds_primitives inside ctx ctx.
Proof.
  split; [reflexivity|]. split; [reflexivity|].
  exists []. split; [now rewrite app_nil_r | reflexivity].
Qed.

Lemma adds_primitives_trans inside ctx1 ctx2 ctx3 :
  adds_primitives inside ctx1 ctx2 -> adds_primitives inside ctx2 ctx3 ->
  adds_primitives inside ctx1 ctx3.
Proof.
  intros (M1 & T1 & l1 & E1 & B1) (M2 & T2 & l2 & E2 & B2).
  split; [congruence|]. split; [congruence|].
  exists (l1 ++ l2). split.
  - rewrite E2, E1. now rewrite app_assoc.
  - now rewrite bracket_app, B1.
Qed.

Lemma shadow_run_issues (r : StudioModelRenderer) h i : forall triCmds ctx triCmds' ctx',
  shadow_run r h i triCmds ctx = Done (triCmds', ctx') ->
  adds_primitives true ctx ctx'.
Proof.
  induction i as [|i IH]; intros triCmds ctx triCmds' ctx' H; cbn [shadow_run] in H.
  - inversion H; subst. apply adds_primitives_refl.
  - destruct triCmds as [|index rest]; [discriminate|].
    apply bind_Done in H as (vertex & _ & H).
    apply IH in H. eapply adds_primitives_trans; [|exact H].
    split; [reflexivity|]. split; [reflexivity|].
    exists [glVertex3fv (shadow_point (_lightvec r) h vertex)].
    split; reflexivity.
Qed.

Lemma shadow_commands_issues (r : StudioModelRenderer) h fuel : forall triCmds ctx ctx',
  shadow_commands fuel r h triCmds ctx = Done ctx' ->
  adds_primitives false ctx ctx'.
Proof.
  induction fuel as [|fuel IH]; intros triCmds ctx ctx' H;
    destruct triCmds as [|i rest]; cbn [shadow_commands] in H; try discriminate;
    destruct (i =? 0); try discriminate;
    try (inversion H; subst; apply adds_primitives_refl).
  apply bind_Done in H as (count & _ & H).
  apply bind_Done in H as ([rest' ctx1] & Hrun & H).
  apply shadow_run_issues in Hrun as (M1 & T1 & run & Hrun & Hbrun).
  apply IH in H. eapply adds_primitives_trans; [|exact H].
  split; [exact M1|]. split; [exact T1|].
  exists (glBegin (if i <? 0 then GL_TRIANGLE_FAN else GL_TRIANGLE_STRIP)
            :: run ++ [glEnd]).
  split.
  - cbn [calls gl]. rewrite Hrun. cbn [calls gl]. rewrite <- !app_assoc. reflexivity.
  - cbn [bracket]. rewrite bracket_app, Hbrun. reflexivity.
Qed.

Lemma shadow_meshes_issues (r : StudioModelRenderer) h meshes :
  forall drawnPolys ctx drawnPolys' ctx',
  0 <= drawnPolys < 2 ^ 32 ->
  shadow_meshes r h meshes drawnPolys ctx = Done (drawnPolys', ctx') ->
  adds_primitives false ctx ctx' /\
  drawnPolys' =
    (drawnPolys + fold_right (fun mesh n => mesh_NumTriangles mesh + n) 0 meshes)
      mod 2 ^ 32.
Proof.
  induction meshes as [|mesh meshes IH]; intros drawnPolys ctx drawnPolys' ctx' Hpolys H;
    cbn [shadow_meshes] in H.
  - inversion H; subst. split; [apply adds_primitives_refl|].
    cbn [fold_right]. rewrite Z.add_0_r, Z.mod_small; [reflexivity | exact Hpolys].
  - apply bind_Done in H as (ctx1 & Hcmds & H).
    apply shadow_commands_issues in Hcmds.
    apply IH in H as [Hrest Hcount]; [|apply Z.mod_pos_bound; lia].
    split; [eapply adds_primitives_trans; eassumption|].
    rewrite Hcount, Zplus_mod_idemp_l. cbn [fold_right]. f_equal. lia.
Qed.

(** What [DrawShadows] does, for a model without the "no shade light"
    flag. *)
Lemma DrawShadows_issues (r r' : StudioModelRenderer) (studioModel : EditableStudioModel)
    (model : Model) (fixZFighting wireframe : bool) (drawnPolys : Z) :
  _studioModel r = Some studioModel ->
  _model r = Some model ->
  Z.land (Flags studioModel) EF_NOSHADELIGHT = 0 ->
  DrawShadows fixZFighting wireframe r = Done (r', drawnPolys) ->
  adds_primitives false (_glContext r) (_glContext r') /\
  r' = with_gl r (_glContext r') /\
  drawnPolys =
    fold_right (fun mesh n => mesh_NumTriangles mesh + n) 0 (model_Meshes model)
      mod 2 ^ 32.
Proof.
  intros Hstudio Hmodel Hflag H. unfold DrawShadows in H.
  rewrite Hstudio, Hflag in H. cbn [Z.eqb] in H.
  destruct (_renderInfo r) as [renderInfo|] eqn:Hinfo; [|discriminate].
  cbv zeta in H.
  apply bind_Done in H as ([r1 polys] & Hinternal & H).
  inversion H; subst r' drawnPolys; clear H.
  unfold InternalDrawShadows in Hinternal.
  cbn [_renderInfo _model with_gl] in Hinternal. rewrite Hinfo, Hmodel in Hinternal.
  apply bind_Done in Hinternal as ([polys' ctx] & Hmeshes & Hinternal).
  inversion Hinternal; subst r1 polys; clear Hinternal.
  apply shadow_meshes_issues in Hmeshes as [(M & T & issued & Hissued & Hbracket) Hcount];
    [|lia].
  cbn [_glContext with_gl] in *.
  split; [|split; [reflexivity | rewrite Hcount; reflexivity]].
  cbn [calls gl GL_DEPTH_WRITEMASK texture_2d_enabled] in *.
  split; [|split].
  - destruct (texture_2d_enabled (_glContext r)); reflexivity.
  - destruct (texture_2d_enabled (_glContext r)) eqn:Etexture;
      cbn [texture_2d_enabled gl]; [reflexivity|].
    rewrite T. destruct wireframe; reflexivity.
  - exists ([glDepthMask (negb fixZFighting); glDisable GL_TEXTURE_2D;
             glBlendFunc_SRC_ALPHA_ONE_MINUS_SRC_ALPHA; glEnable GL_BLEND;
             (if wireframe
              then glColor4f (vx (_wireframeColor r)) (vy (_wireframeColor r))
                     (vz (_wireframeColor r)) (Transparency renderInfo)
              else glColor4f (i2f 0) (i2f 0) (i2f 0)
                     (d2f (dmul (ddiv (i2d 1) (i2d 2)) (f2d (Transparency renderInfo)))));
             glDepthFunc GL_LESS]
            ++ issued
            ++ glDepthFunc GL_LEQUAL
               :: (if texture_2d_enabled (_glContext r) then [glEnable GL_TEXTURE_2D] else [])
               ++ [glDisable GL_BLEND; glColor4f (i2f 1) (i2f 1) (i2f 1) (i2f 1);
                   glDepthMask (GL_DEPTH_WRITEMASK (_glContext r))]).
    split.
    + destruct (texture_2d_enabled (_glContext r)); cbn [calls gl];
        rewrite Hissued; destruct wireframe; cbn [calls gl app];
        rewrite <- ?app_assoc; reflexivity.
    + rewrite bracket_app.
      assert (E : forall c : GLCall,
                 match c with glColor4f _ _ _ _ => True | _ => False end ->
                 bracket false
                   [glDepthMask (negb fixZFighting); glDisable GL_TEXTURE_2D;
                    glBlendFunc_SRC_ALPHA_ONE_MINUS_SRC_ALPHA; glEnable GL_BLEND; c;
                    glDepthFunc GL_LESS] = Some false).
      { intros c Hc. destruct c; try contradiction. reflexivity. }
      rewrite E by (destruct wireframe; exact I).
      rewrite bracket_app, Hbracket.
      destruct (texture_2d_enabled (_glContext r)); reflexivity.
Qed.

(** X19.  The calls [DrawShadows] issues keep OpenGL's rule for immediate
    mode: every vertex is submitted between a [glBegin] and its [glEnd],
    state is changed only outside of them, and no primitive is left open. *)
Theorem shadows_are_well_bracketed (r r' : StudioModelRenderer)
    (fixZFighting wireframe : bool) (drawnPolys : Z) :
  DrawShadows fixZFighting wireframe r = Done (r', drawnPolys) ->
  exists issued,
    calls (_glContext r') = calls (_glContext r) ++ issued /\
    well_bracketed issued.
Proof.
  intros H.
  destruct (_studioModel r) as [studioModel|] eqn:Hstudio;
    [|unfold DrawShadows in H; rewrite Hstudio in H; discriminate].
  destruct (Z.eq_dec (Z.land (Flags studioModel) EF_NOSHADELIGHT) 0) as [Hflag|Hflag].
  - destruct (_model r) as [model|] eqn:Hmodel.
    + destruct (DrawShadows_issues r r' studioModel model _ _ _ Hstudio Hmodel Hflag H)
        as ((_ & _ & issued & Hissued & Hbracket) & _).
      exists issued. split; assumption.
    + exfalso. unfold DrawShadows in H. rewrite Hstudio, Hflag in H. cbn [Z.eqb] in H.
      destruct (_renderInfo r); [|discriminate]. cbv zeta in H.
      apply bind_Done in H as ([r1 polys] & Hinternal & _).
      unfold InternalDrawShadows in Hinternal.
      cbn [_renderInfo _model with_gl] in Hinternal. rewrite Hmodel in Hinternal.
      destruct (_renderInfo r); discriminate.
  - unfold DrawShadows in H. rewrite Hstudio in H.
    apply Z.eqb_neq in Hflag. rewrite Hflag in H. inversion H; subst.
    exists []. split; [now rewrite app_nil_r | reflexivity].
Qed.

Lemma state_after_app (first second : list GLCall) (s : GLState) :
  state_after (first ++ second) s = state_after second (state_after first s).
Proof. apply fold_left_app. Qed.

(** Drawing a shadow sets no state. *)
Lemma shadows_set_no_state (lightvec : Vec3) (originZ : float) (vertices : list Vec3)
    (drawing : list (list TriangleRun)) (s : GLState) :
  state_after (shadow_of_drawing lightvec originZ vertices drawing) s = s.
Proof.
  assert (Hkeep : forall issued,
             Forall (fun c => forall s', set_state s' c = s') issued ->
             forall s', state_after issued s' = s').
  { induction issued as [|c issued IH]; intros Hissued s'; [reflexivity|].
    inversion Hissued as [|c' issued' Hc Hrest]; subst.
    cbn [state_after fold_left]. rewrite Hc. apply IH. exact Hrest. }
  apply Hkeep. unfold shadow_of_drawing.
  apply Forall_flat_map, Forall_forall. intros runs _.
  apply Forall_flat_map, Forall_forall. intros run _.
  unfold shadow_of_run. constructor; [reflexivity|].
  apply Forall_app. split; [|repeat constructor].
  apply Forall_flat_map, Forall_forall. intros v _.
  unfold shadow_vertex. destruct (nth_error vertices (Z.to_nat (tv_vertex v)));
    repeat constructor.
Qed.

(** X20.  What [DrawShadows] leaves of the OpenGL state.  Nothing of the
    renderer but the OpenGL context changes, and the depth write mask and
    the 2D texture switch are afterwards what they were before.  The rest of
    the state it sets is not put back: for a model without the "no shade
    light" flag, whatever the state was, afterwards blending is disabled,
    the depth function is [GL_LEQUAL], the blend function is
    (SRC_ALPHA, ONE_MINUS_SRC_ALPHA) and the colour is opaque white.  For a
    model with the flag the state is untouched. *)
Theorem DrawShadows_state_afterwards (r r' : StudioModelRenderer)
    (studioModel : EditableStudioModel) (fixZFighting wireframe : bool)
    (drawnPolys : Z) :
  _studioModel r = Some studioModel ->
  DrawShadows fixZFighting wireframe r = Done (r', drawnPolys) ->
  r' = with_gl r (_glContext r') /\
  GL_DEPTH_WRITEMASK (_glContext r') = GL_DEPTH_WRITEMASK (_glContext r) /\
  texture_2d_enabled (_glContext r') = texture_2d_enabled (_glContext r) /\
  exists issued,
    calls (_glContext r') = calls (_glContext r) ++ issued /\
    forall s : GLState,
      st_depth_mask s = GL_DEPTH_WRITEMASK (_glContext r) ->
      st_texture_2d s = texture_2d_enabled (_glContext r) ->
      state_after issued s =
        if Z.land (Flags studioModel) EF_NOSHADELIGHT =? 0
        then {| st_depth_mask := st_depth_mask s;
                st_texture_2d := st_texture_2d s;
                st_blend := false;
                st_depth_func := GL_LEQUAL;
                st_alpha_blend_func := true;
                st_color := (i2f 1, i2f 1, i2f 1, i2f 1) |}
        else s.
Proof.
  intros Hstudio H.
  destruct (Z.eq_dec (Z.land (Flags studioModel) EF_NOSHADELIGHT) 0) as [Hflag|Hflag].
  - assert (Hsome : exists renderInfo model,
               _renderInfo r = Some renderInfo /\ _model r = Some model).
    { unfold DrawShadows in H. rewrite Hstudio, Hflag in H. cbn [Z.eqb] in H.
      destruct (_renderInfo r) as [renderInfo|] eqn:Hinfo; [|discriminate].
      cbv zeta in H. apply bind_Done in H as ([r1 polys] & Hinternal & _).
      unfold InternalDrawShadows in Hinternal.
      cbn [_renderInfo _model with_gl] in Hinternal. rewrite Hinfo in Hinternal.
      destruct (_model r) as [model|]; [eauto | discriminate]. }
    destruct Hsome as (renderInfo & model & Hinfo & Hmodel).
    destruct (DrawShadows_issues r r' studioModel model _ _ _ Hstudio Hmodel Hflag H)
      as ((M & T & _) & Hsame & _).
    split; [exact Hsame|]. split; [exact M|]. split; [exact T|].
    destruct (DrawShadows_decodes r studioModel renderInfo model fixZFighting wireframe
                Hstudio Hinfo Hmodel Hflag r' drawnPolys H) as [drawing Hdrawing].
    destruct (DrawShadows_draws r studioModel renderInfo model fixZFighting wireframe
                Hstudio Hinfo Hmodel Hflag drawing Hdrawing) as [polys Hdraws].
    rewrite Hdraws in H. injection H as Hr' _. clear Hsame M T. subst r'.
    exists (shadow_setup fixZFighting wireframe (_wireframeColor r) (Transparency renderInfo)
            ++ shadow_of_drawing (_lightvec r) (vz (Origin renderInfo)) (_xformverts r)
                 drawing
            ++ shadow_teardown (texture_2d_enabled (_glContext r))
                 (GL_DEPTH_WRITEMASK (_glContext r))).
    split; [rewrite <- calls_issue; reflexivity|].
    intros s Hmask Htexture. rewrite Hflag. cbn [Z.eqb].
    rewrite !state_after_app, shadows_set_no_state.
    destruct s as [mask texture blend func alpha color].
    cbn [st_depth_mask st_texture_2d] in *. subst mask texture.
    unfold shadow_setup, shadow_teardown.
    destruct wireframe, (texture_2d_enabled (_glContext r)); reflexivity.
  - unfold DrawShadows in H. rewrite Hstudio in H.
    apply Z.eqb_neq in Hflag. rewrite Hflag in *. inversion H; subst.
    split; [destruct r'; reflexivity|]. split; [reflexivity|]. split; [reflexivity|].
    exists []. split; [now rewrite app_nil_r | reflexivity].
Qed.

(** X21.  The polygon count [DrawShadows] returns for a model without the
    "no shade light" flag is the sum of the [NumTriangles] the meshes of
    the current model declare, as an [unsigned int]; the triangle commands
    drawn have no part in it. *)
Theorem shadow_polygons_are_the_declared_triangles (r r' : StudioModelRenderer)
    (studioModel : EditableStudioModel) (model : Model)
    (fixZFighting wireframe : bool) (drawnPolys : Z) :
  _studioModel r = Some studioModel ->
  _model r = Some model ->
  Z.land (Flags studioModel) EF_NOSHADELIGHT = 0 ->
  DrawShadows fixZFighting wireframe r = Done (r', drawnPolys) ->
  drawnPolys =
    fold_right (fun mesh n => mesh_NumTriangles mesh + n) 0 (model_Meshes model)
      mod 2 ^ 32.
Proof.
  intros Hstudio Hmodel Hflag H.
  apply (DrawShadows_issues r r' studioModel model _ _ _ Hstudio Hmodel Hflag H).
Qed.
End ShadowCalls.

Lemma shadows_are_well_bracketed_witness :
  let r := @Scenario.renderer exactQ 0 in
  exists r' drawnPolys issued,
    @DrawShadows exactQ goldsrc true false r = Done (r', drawnPolys) /\
    calls (_glContext r') = calls (_glContext r) ++ issued /\
    well_bracketed issued.
Proof.
  intros r.
  destruct (@DrawShadows exactQ goldsrc true false r) as [[r' drawnPolys]|] eqn:Hrun;
    [|discriminate Hrun].
  destruct (@shadows_are_well_bracketed exactQ goldsrc r r' true false drawnPolys Hrun)
    as (issued & Hissued & Hbracket).
  exists r', drawnPolys, issued. split; [reflexivity|]. split; assumption.
Defined.

(** On the scenario renderer, from a state with blending on and the depth
    function [GL_LESS]: afterwards blending is off and the depth function is
    [GL_LEQUAL]. *)
Lemma DrawShadows_state_witness :
  let r := @Scenario.renderer exactQ 0 in
  let s := @Build_GLState exactQ true true true GL_LESS false (0, 0, 0, 0)%Q in
  exists r' drawnPolys issued,
    @DrawShadows exactQ goldsrc true false r = Done (r', drawnPolys) /\
    r' = with_gl r (_glContext r') /\
    GL_DEPTH_WRITEMASK (_glContext r') = true /\
    texture_2d_enabled (_glContext r') = true /\
    calls (_glContext r') = calls (_glContext r) ++ issued /\
    @state_after exactQ issued s
    = @Build_GLState exactQ true true false GL_LEQUAL true (1, 1, 1, 1)%Q.
Proof.
  intros r s.
  destruct (@DrawShadows exactQ goldsrc true false r) as [[r' drawnPolys]|] eqn:Hrun;
    [|discriminate Hrun].
  destruct (@DrawShadows_state_afterwards exactQ goldsrc r r' (Scenario.studio_model 0)
              true false drawnPolys eq_refl Hrun)
    as (Hsame & Hmask & Htexture & issued & Hissued & Hstate).
  exists r', drawnPolys, issued. split; [reflexivity|].
  split; [exact Hsame|]. split; [exact Hmask|]. split; [exact Htexture|].
  split; [exact Hissued|].
  apply (Hstate s eq_refl eq_refl).
Defined.

Lemma shadow_polygons_witness :
  let r := @Scenario.renderer exactQ 0 in
  exists r',
    @DrawShadows exactQ goldsrc false true r = Done (r', 1) /\
    1 = fold_right (fun mesh n => mesh_NumTriangles mesh + n) 0 [@Scenario.strip] mod 2 ^ 32.
Proof.
  intros r.
  destruct (@DrawShadows exactQ goldsrc false true r) as [[r' drawnPolys]|] eqn:Hrun;
    [|discriminate Hrun].
  pose proof (@shadow_polygons_are_the_declared_triangles exactQ goldsrc r r'
                (Scenario.studio_model 0) {| model_Meshes := [Scenario.strip] |}
                false true drawnPolys eq_refl eq_refl eq_refl Hrun) as Hcount.
  exists r'. rewrite Hcount. split; reflexivity.
Defined.

(** ** Shadow drawing on well-formed command streams *)

Section ShadowStreams.
Context {A : Arith} {K : StudioConstants}.
Variable r : StudioModelRenderer.
Variable h : float.

Let vertices := Z.of_nat (length (_xformverts r)).

(** A run of [n] vertices is read to its end and nothing after it. *)
Lemma shadow_run_total (n : nat) : forall (run rest : list Z) (ctx : GLContext),
  length run = (4 * n)%nat ->
  (forall k, (k < n)%nat ->
             exists index, nth_error run (4 * k) = Some index /\ 0 <= index < vertices) ->
  exists ctx', shadow_run r h n (run ++ rest) ctx = Done (rest, ctx').
Proof.
  induction n as [|n IH]; intros run rest ctx Hlen Hindices.
  - destruct run; [|discriminate]. eexists. reflexivity.
  - destruct run as [|index run1]; [discriminate|].
    destruct (Hindices O ltac:(lia)) as (index' & Hnth & Hrange).
    cbn in Hnth. inversion Hnth; subst index'.
    cbn [app shadow_run].
    destruct (at_index_inside (_xformverts r) index Hrange) as [vertex Hvertex].
    rewrite Hvertex. cbn [bind].
    change (index :: run1 ++ rest) with ((index :: run1) ++ rest).
    rewrite skipn_app.
    replace (4 - length (index :: run1))%nat with O by lia.
    change (skipn 0 rest) with rest.
    apply IH.
    + rewrite length_skipn. lia.
    + intros k Hk. destruct (Hindices (S k) ltac:(lia)) as (i & Hi & Hr).
      exists i. split; [|exact Hr].
      rewrite nth_error_skipn. replace (4 + 4 * k)%nat with (4 * S k)%nat by lia.
      exact Hi.
Qed.

Lemma shadow_commands_total (triCmds : list Z) :
  command_stream vertices triCmds ->
  forall ctx, exists ctx', shadow_commands (length triCmds) r h triCmds ctx = Done ctx'.
Proof.
  induction 1 as [rest|i run rest Hnonzero Hint Hlen Hindices Hrest IH]; intros ctx.
  - eexists. reflexivity.
  - cbn [length shadow_commands].
    apply Z.eqb_neq in Hnonzero. rewrite Hnonzero.
    assert (Hcount : (if i <? 0 then isub 0 i else Done i) = Done (Z.abs i)).
    { destruct (i <? 0) eqn:E.
      - apply Z.ltb_lt in E. unfold isub.
        rewrite as_int_fits by (unfold INT_MIN, INT_MAX in *; lia). f_equal. lia.
      - apply Z.ltb_ge in E. f_equal. lia. }
    rewrite Hcount. cbn [bind].
    replace (Z.to_nat (Z.abs i)) with (Z.abs_nat i) by lia.
    destruct (shadow_run_total (Z.abs_nat i) run rest
                (gl (glBegin (if i <? 0 then GL_TRIANGLE_FAN else GL_TRIANGLE_STRIP)) ctx)
                Hlen Hindices) as [ctx1 Hrun].
    rewrite Hrun. cbn [bind].
    rewrite (shadow_commands_fuel r h (length (run ++ rest)) (length rest));
      [apply IH | rewrite length_app; lia | lia].
Qed.

Lemma shadow_meshes_total (meshes : list Mesh) :
  Forall (fun mesh => command_stream vertices (mesh_Triangles mesh)) meshes ->
  forall drawnPolys ctx, exists result,
    shadow_meshes r h meshes drawnPolys ctx = Done result.
Proof.
  induction 1 as [|mesh meshes Hmesh Hmeshes IH]; intros drawnPolys ctx.
  - eexists. reflexivity.
  - cbn [shadow_meshes].
    destruct (shadow_commands_total _ Hmesh ctx) as [ctx1 Hcmds].
    rewrite Hcmds. cbn [bind]. apply IH.
Qed.
End ShadowStreams.

(** X22.  [DrawShadows] has a defined outcome on well-formed triangle
    commands: when the renderer has its model, render info and current
    submodel set, and the command stream of every mesh is a sequence of runs,
    each a non-zero length followed by four entries a vertex whose first is
    an index into the transformed vertices, closed by a 0, the call reads
    nothing out of bounds and returns. *)
Theorem well_formed_streams_are_drawn {A : Arith} {K : StudioConstants}
    (r : StudioModelRenderer) (studioModel : EditableStudioModel)
    (renderInfo : ModelRenderInfo) (model : Model) (fixZFighting wireframe : bool) :
  _studioModel r = Some studioModel ->
  _renderInfo r = Some renderInfo ->
  _model r = Some model ->
  Forall (fun mesh => command_stream (Z.of_nat (length (_xformverts r)))
                        (mesh_Triangles mesh))
         (model_Meshes model) ->
  exists r' drawnPolys, DrawShadows fixZFighting wireframe r = Done (r', drawnPolys).
Proof.
  intros Hstudio Hinfo Hmodel Hstreams. unfold DrawShadows.
  rewrite Hstudio, Hinfo.
  destruct (Z.land (Flags studioModel) EF_NOSHADELIGHT =? 0); [|eauto].
  cbv zeta. unfold InternalDrawShadows. cbn [_renderInfo _model with_gl].
  rewrite Hinfo, Hmodel.
  match goal with
  | |- context [shadow_meshes ?r' ?h ?meshes ?d ?ctx] =>
    destruct (shadow_meshes_total r' h meshes Hstreams d ctx) as [[polys ctx'] Hmeshes];
      rewrite Hmeshes
  end.
  cbn [bind]. eauto.
Qed.

Lemma well_formed_streams_witness :
  exists r' drawnPolys,
    @DrawShadows exactQ goldsrc false false (@Scenario.renderer exactQ 0)
      = Done (r', drawnPolys).
Proof.
  apply (@well_formed_streams_are_drawn exactQ goldsrc (@Scenario.renderer exactQ 0)
           (Scenario.studio_model 0)
           (Scenario.render_info (Some (Scenario.studio_model 0)))
           {| model_Meshes := [Scenario.strip] |} false false eq_refl eq_refl eq_refl).
  constructor; [|constructor].
  apply (stream_run 3 3 [0; 0; 0; 0; 1; 1; 0; 0; 2; 2; 0; 0] [0]).
  - discriminate.
  - unfold INT_MIN, INT_MAX. lia.
  - reflexivity.
  - intros [|[|[|k]]] Hk; simpl in Hk; try lia;
      [exists 0 | exists 1 | exists 2]; (split; [reflexivity | simpl; lia]).
  - apply stream_end.
Defined.

(** ** Lighting, over the rationals *)

Lemma Done_inj {T} (a b : T) : Done a = Done b -> a = b.
Proof. intros H. now inversion H. Qed.

Section LightLevels.
Context {HC : HeaderConstants}.
#[local] Existing Instance exactQ.

Lemma fmax_same (x : float) : fmax x x = x.
Proof. unfold fmax. destruct (fltb x x); reflexivity. Qed.

Lemma fmax_lower (a b : float) : (a <= fmax a b)%Q.
Proof.
  unfold fmax. cbn [fltb exactQ]. destruct (Qltb a b) eqn:E.
  - apply Qltb_lt in E. apply Qlt_le_weak. exact E.
  - apply Qle_refl.
Qed.

(** The last step of [Lighting] on an illumination with three equal
    components [x], at least a tenth. *)
Lemma light_level (x : float) (lightcolor : Vec3) :
  (1 # 10 <= x)%Q ->
  let illum := {| vx := x; vy := x; vz := x |} in
  let max := fmax (fmax (vx illum) (vy illum)) (vz illum) in
  let lv :=
    vec3_mul (if fltb (i2f 1) max then vec3_scale illum (fdiv (i2f 1) max) else illum)
             lightcolor in
  exists level : Q,
    (1 # 10 <= level)%Q /\ (level <= 1)%Q /\
    (vx lv == level * vx lightcolor)%Q /\
    (vy lv == level * vy lightcolor)%Q /\
    (vz lv == level * vz lightcolor)%Q.
Proof.
  intros Hx. cbv zeta. cbn [vx vy vz]. rewrite !fmax_same.
  destruct (fltb (i2f 1) x) eqn:E.
  - apply Qltb_lt in E. change (inject_Z 1) with 1%Q in E. exists 1%Q.
    split; [vm_compute; discriminate|]. split; [apply Qle_refl|].
    cbn [vec3_mul vec3_scale vx vy vz fmul fdiv i2f exactQ].
    change (inject_Z 1) with 1%Q.
    assert (Eone : (x * (1 / x) == 1)%Q) by (field; lra).
    repeat split; rewrite Eone; reflexivity.
  - apply Qltb_ge in E. change (inject_Z 1) with 1%Q in E. exists x.
    split; [exact Hx|]. split; [exact E|].
    cbn [vec3_mul vx vy vz fmul exactQ]. repeat split; reflexivity.
Qed.

(** X23.  Over the rationals, with a shade light that is not negative, the
    light value [Lighting] writes for a vertex is the light colour scaled,
    the same on the three channels, by a level between a tenth and one: the
    vertex is never darker than a tenth of the light colour nor brighter than
    the light colour, whatever the normal, the bone's light vector, the
    ambient light and the lambert parameter.  With the full-bright flag the
    value is (1, 1, 1) and the light colour is not applied. *)
Theorem Lighting_scales_the_light_colour (ambientlight : Z) (shadelight lambert : float)
    (lightcolor : Vec3) (blightvec : list Vec3) (bone flags : Z) (normal lv : Vec3) :
  (0 <= shadelight)%Q ->
  Lighting ambientlight shadelight lambert lightcolor blightvec bone flags normal
    = Done lv ->
  (Z.land flags STUDIO_NF_FULLBRIGHT <> 0 ->
   lv = {| vx := 1%Q; vy := 1%Q; vz := 1%Q |}) /\
  (Z.land flags STUDIO_NF_FULLBRIGHT = 0 ->
   exists level : Q,
     (1 # 10 <= level)%Q /\ (level <= 1)%Q /\
     (vx lv == level * vx lightcolor)%Q /\
     (vy lv == level * vy lightcolor)%Q /\
     (vz lv == level * vz lightcolor)%Q).
Proof.
  intros Hshade H. unfold Lighting in H. cbv zeta in H.
  destruct (Z.land flags STUDIO_NF_FULLBRIGHT =? 0) eqn:Efull; cbn [negb] in H.
  2:{ apply Z.eqb_neq in Efull. split; [|contradiction].
      intros _. inversion H. reflexivity. }
  apply Z.eqb_eq in Efull. split; [contradiction|]. intros _.
  set (ambient := @fmax exactQ (fdiv (i2f 1) (i2f 10)) (fdiv (i2f ambientlight) (i2f 255)))
    in *.
  assert (Hambient : (1 # 10 <= ambient)%Q) by (subst ambient; apply fmax_lower).
  set (shade := @fdiv exactQ shadelight (i2f 255)) in *.
  assert (Hshade0 : (0 <= shade)%Q).
  { subst shade. cbn [fdiv i2f exactQ]. apply Qle_shift_div_l; [reflexivity | lra]. }
  apply bind_Done in H as (illum & Hillum & H). apply Done_inj in H. subst lv.
  assert (Hequal : exists x : Q, (1 # 10 <= x)%Q /\ illum = {| vx := x; vy := x; vz := x |}).
  { destruct (negb (Z.land flags STUDIO_NF_FLATSHADE =? 0)).
    - inversion Hillum; subst illum.
      exists (ambient + (4 # 5) * shade)%Q. split.
      + assert (0 <= (4 # 5) * shade)%Q by (apply Qmult_le_0_compat; [discriminate | exact Hshade0]).
        lra.
      + reflexivity.
    - apply bind_Done in Hillum as (lightvec & _ & Hillum).
      apply Done_inj in Hillum. subst illum.
      fold shade.
      set (lightcos0 := glm_dot normal lightvec).
      set (lightcos := if fltb (i2f 1) lightcos0 then i2f 1 else lightcos0).
      assert (Hcos : (lightcos <= 1)%Q).
      { subst lightcos. destruct (fltb (i2f 1) lightcos0) eqn:E;
          [apply Qle_refl | apply Qltb_ge in E; exact E]. }
      set (rr := if fltb lambert (i2f 1) then i2f 1 else lambert).
      assert (Hr : (1 <= rr)%Q).
      { subst rr. destruct (fltb lambert (i2f 1)) eqn:E;
          [apply Qle_refl | apply Qltb_ge in E; exact E]. }
      set (modified := fdiv (fadd lightcos (fsub rr (i2f 1))) rr).
      assert (Hmodified : (modified <= 1)%Q).
      { subst modified. cbn [fdiv fadd fsub i2f exactQ]. change (inject_Z 1) with 1%Q.
        apply Qle_shift_div_r; lra. }
      assert (Hproduct : (modified * shade <= 1 * shade)%Q)
        by (apply Qmult_le_compat_r; assumption).
      exists (if fltb (i2f 0) modified then ambient + shade - modified * shade
              else ambient + shade)%Q.
      split; [destruct (fltb (i2f 0) modified); lra|].
      unfold vec3_floor0, vec3_reduce, vec3_offset.
      destruct (fltb (i2f 0) modified); cbn [vx vy vz].
      + assert (E : fleb (fsub (fadd ambient shade) (fmul modified shade)) (i2f 0) = false)
          by (apply Qleb_gt; cbn [fadd fsub fmul i2f exactQ]; change (inject_Z 0) with 0%Q; lra).
        rewrite E. reflexivity.
      + assert (E : fleb (fadd ambient shade) (i2f 0) = false)
          by (apply Qleb_gt; cbn [fadd i2f exactQ]; change (inject_Z 0) with 0%Q; lra).
        rewrite E. reflexivity. }
  destruct Hequal as (x & Hx & ->).
  apply (light_level x lightcolor Hx).
Qed.
End LightLevels.

Lemma Lighting_witness :
  let white := @Scenario.vec3 exactQ 1 1 1 in
  exists (lv : @Vec3 exactQ) (level : Q),
    @Lighting exactQ goldsrc_header 32 192%Q (3 # 2)%Q white
      [Scenario.vec3 0 0 (-1)] 0 0 (Scenario.vec3 0 0 1) = Done lv /\
    (1 # 10 <= level)%Q /\ (level <= 1)%Q /\
    (vx lv == level * vx white)%Q /\
    (vy lv == level * vy white)%Q /\
    (vz lv == level * vz white)%Q.
Proof.
  intros white.
  destruct (@Lighting exactQ goldsrc_header 32 192%Q (3 # 2)%Q white
              [Scenario.vec3 0 0 (-1)] 0 0 (Scenario.vec3 0 0 1)) as [lv|] eqn:Hrun;
    [|discriminate Hrun].
  destruct (@Lighting_scales_the_light_colour goldsrc_header 32 192%Q (3 # 2)%Q
              white [Scenario.vec3 0 0 (-1)] 0 0 (Scenario.vec3 0 0 1) lv)
    as [_ Hlevel]; [vm_compute; discriminate | exact Hrun |].
  destruct (Hlevel eq_refl) as (level & Hbounds).
  exists lv, level. split; [reflexivity | exact Hbounds].
Defined.

(** ** A range of zero width, in binary32 *)

Lemma trunc_of_a_division_by_zero (prec emax : Z) (x : spec_float) (s : bool) :
  IEEE.trunc (SFdiv prec emax x (S754_zero s)) = None.
Proof. destruct x; reflexivity. Qed.

Section ZeroWidth.
Context {K : StudioConstants}.

Lemma codec_encode_zero_width (top : Z) (Start End_ value : @float ieee) (s : bool) :
  @fsub ieee End_ Start = S754_zero s ->
  @codec_encode ieee top Start End_ value = Undefined BadCast.
Proof.
  intros Hzero. unfold codec_encode, f2i. rewrite Hzero.
  change (@ftrunc ieee (@fdiv ieee (@fmul ieee (@i2f ieee top) (@fsub ieee value Start))
                                   (S754_zero s)))
    with (IEEE.trunc (SFdiv IEEE.prec32 IEEE.emax32
                            (@fmul ieee (@i2f ieee top) (@fsub ieee value Start))
                            (S754_zero s))).
  rewrite trunc_of_a_division_by_zero. reflexivity.
Qed.

(** X24.  In binary32 arithmetic, a bone controller whose range has no width
    ([End - Start] evaluates to a zero, as it does for [End == Start]) makes
    [SetController] and [SetMouth] divide by zero: the scaled value is an
    infinity or a NaN, its cast to [int] is undefined, and neither call has a
    defined outcome, whatever the value and the type of the controller. *)
Theorem zero_width_range_is_undefined (e : @StudioModelEntity ieee)
    (model : EditableStudioModel) (controller : Z) (bc : BoneController)
    (value : @float ieee) (s : bool) :
  _editableModel e = Some model ->
  @fsub ieee (bc_End bc) (bc_Start bc) = S754_zero s ->
  (at_index (BoneControllers model)
     (find_controller (BoneControllers model) controller 0) = Done bc ->
   exists why, @SetController ieee K controller value e = Undefined why) /\
  (at_index (BoneControllers model)
     (find_controller (BoneControllers model) STUDIO_MOUTH_CONTROLLER 0) = Done bc ->
   exists why, @SetMouth ieee K value e = Undefined why).
Proof.
  intros Hmodel Hzero. split; intros Hbc.
  - destruct (store_at (_controllerValues e) controller value) as [cv|why] eqn:Hcv.
    + rewrite (SetController_codec e model controller value bc cv Hmodel
                 (at_index_size_le _ _ _ Hbc) Hbc Hcv).
      destruct (codec_normalize _ _ _ _) as [normalized|why]; cbn [bind];
        [|eexists; reflexivity].
      rewrite (codec_encode_zero_width 255 _ _ normalized s Hzero).
      eexists. reflexivity.
    + unfold SetController. rewrite Hmodel. cbv zeta.
      rewrite (at_index_size_le _ _ _ Hbc), Hcv. eexists. reflexivity.
  - rewrite (SetMouth_codec e model value bc Hmodel (at_index_size_le _ _ _ Hbc) Hbc).
    destruct (codec_normalize _ _ _ _) as [normalized|why]; cbn [bind];
      [|eexists; reflexivity].
    rewrite (codec_encode_zero_width 64 _ _ normalized s Hzero).
    eexists. reflexivity.
Qed.
End ZeroWidth.

Lemma zero_width_range_witness :
  let stuck := @Scenario.controller ieee 0 1 5 5 in
  let model := Scenario.model_of (Scenario.blended30 []) [stuck] in
  let e := @Scenario.entity_of ieee (Some model) StandardBlender 0 0 in
  exists why, @SetController ieee goldsrc 0 (@i2f ieee 45) e = Undefined why.
Proof.
  intros stuck model e.
  destruct (@zero_width_range_is_undefined goldsrc e model 0 stuck (@i2f ieee 45) false
              eq_refl) as [Hcontroller _].
  - vm_compute. reflexivity.
  - apply Hcontroller. reflexivity.
Defined.

(** ** Setting the frame, over the rationals *)

Section SettingTheFrame.
Context {K : StudioConstants}.
#[local] Existing Instance exactQ.

(** X25.  Over the rationals, on a current sequence of [N] frames, more than
    one, [SetFrame] with a frame between 0 and [FRAME_LIMIT - N], where
    binary32 computes the wrap without rounding, takes off whole loops of
    [N - 1] frames: the frame it leaves differs from the one asked for by a
    whole number of loops, a frame already within [[0, N - 1)] is kept, and
    the frame [N - 1] itself comes out as 0.  The animation time is set and
    the event marker is left where it was. *)
Theorem SetFrame_takes_off_whole_loops (e : StudioModelEntity) (sd : Sequence)
    (now : double) (frame : float) :
  current_sequence e sd ->
  1 < seq_NumFrames sd <= INT_MAX ->
  (0 <= frame)%Q ->
  (frame + inject_Z (seq_NumFrames sd) <= inject_Z FRAME_LIMIT)%Q ->
  exists e' loops,
    SetFrame now frame e = Done e' /\
    0 <= loops /\
    (frame == _frame e' + inject_Z loops * inject_Z (seq_NumFrames sd - 1))%Q /\
    (0 <= _frame e')%Q /\ (_frame e' < inject_Z (seq_NumFrames sd - 1))%Q /\
    ((frame < inject_Z (seq_NumFrames sd - 1))%Q -> loops = 0) /\
    ((frame == inject_Z (seq_NumFrames sd - 1))%Q -> (_frame e' == 0)%Q) /\
    _animTime e' = now /\
    _lastEventCheck e' = _lastEventCheck e.
Proof.
  intros (model & Hmodel & Hseq) Hframes Hf Hlimit.
  assert (Hmax : (frame <= inject_Z INT_MAX)%Q).
  { assert (H1 : (inject_Z 1 < inject_Z (seq_NumFrames sd))%Q)
      by (apply inject_Z_lt_iff; lia).
    assert (H2 : (inject_Z FRAME_LIMIT <= inject_Z INT_MAX)%Q)
      by (apply inject_Z_le_iff; unfold FRAME_LIMIT, INT_MAX; lia).
    change (inject_Z 1) with 1%Q in H1. lra. }
  clear Hlimit.
  set (last := seq_NumFrames sd - 1) in *.
  assert (Hlast : 0 < last) by (subst last; lia).
  destruct (Qwrap_bounds frame last Hf Hlast) as (Hq & Hmul & Hlo & Hhi).
  set (q := Qtrunc (frame / inject_Z last)) in *.
  assert (Hp : q * last <= INT_MAX).
  { apply inject_Z_le_iff. eapply Qle_trans; eauto. }
  assert (Hq' : q <= INT_MAX) by nia.
  assert (Hne : feqb frame (i2f (-1)) = false).
  { cbn [feqb i2f exactQ]. destruct (Qeqb frame (inject_Z (-1))) eqn:E; [|reflexivity].
    apply Qeqb_eq in E. rewrite E in Hf. exfalso. revert Hf. apply Qlt_not_le.
    reflexivity. }
  assert (HN : (seq_NumFrames sd <=? 1) = false) by (apply Z.leb_gt; lia).
  unfold SetFrame.
  rewrite Hne, Hmodel, (current_sequence_valid _ _ _ Hseq), Hseq. cbn [bind].
  rewrite HN. unfold isub. rewrite as_int_fits by (unfold INT_MIN, INT_MAX in *; lia).
  cbn [bind]. fold last.
  unfold wrap_frame, f2i. cbn [ftrunc fdiv i2f fsub exactQ]. fold q.
  rewrite cast_to_fits by (unfold INT_MIN; lia). cbn [bind].
  unfold imul. rewrite as_int_fits by (unfold INT_MIN; nia). cbn [bind].
  exists (with_frame e (frame - inject_Z (q * last))%Q now (_lastEventCheck e)), q.
  cbn [_frame _animTime _lastEventCheck with_frame].
  assert (HlastQ : (0 < inject_Z last)%Q) by (apply (inject_Z_lt_iff 0 last); exact Hlast).
  split; [reflexivity|]. split; [exact Hq|].
  split; [rewrite inject_Z_mult; lra|].
  split; [exact Hlo|]. split; [exact Hhi|].
  split; [|split; [|split; reflexivity]].
  - intros Hbelow.
    assert (H1 : (inject_Z (q * last) < inject_Z last)%Q) by lra.
    apply (proj1 (inject_Z_lt_iff _ _)) in H1. nia.
  - intros Hat.
    assert (H1 : (inject_Z (q * last) <= inject_Z last)%Q) by lra.
    apply (proj1 (inject_Z_le_iff _ _)) in H1.
    assert (H2 : (inject_Z 0 < inject_Z (q * last))%Q)
      by (change (inject_Z 0) with 0%Q; lra).
    apply (proj1 (inject_Z_lt_iff _ _)) in H2.
    assert (Hone : q = 1) by nia.
    rewrite Hone, Z.mul_1_l. lra.
Qed.
End SettingTheFrame.

Lemma SetFrame_takes_off_witness :
  exists e' loops,
    @SetFrame exactQ 6%Q 64%Q (@Scenario.looping30 exactQ) = Done e' /\
    0 <= loops /\
    (64 == _frame e' + inject_Z loops * inject_Z (30 - 1))%Q /\
    (0 <= _frame e')%Q /\ (_frame e' < inject_Z (30 - 1))%Q /\
    ((64 < inject_Z (30 - 1))%Q -> loops = 0) /\
    ((64 == inject_Z (30 - 1))%Q -> (_frame e' == 0)%Q) /\
    _animTime e' = 6%Q /\
    _lastEventCheck e' = 0%Q.
Proof.
  apply (@SetFrame_takes_off_whole_loops (@Scenario.looping30 exactQ)
           (@Scenario.sequence30 exactQ 30 1 []) 6%Q 64%Q).
  - eexists. split; reflexivity.
  - unfold INT_MAX. simpl. lia.
  - vm_compute. discriminate.
  - vm_compute. discriminate.
Defined.

(** In binary32, within the limit: [SetFrame(64)] on the 30-frame sequence
    leaves 64 - 2 * 29 = 6, and the largest frame of the statement, 8388578,
    leaves 8388578 - 289261 * 29 = 9. *)
Lemma SetFrame_binary32_runs :
  frame_after (@SetFrame ieee (@i2d ieee 6) (@i2f ieee 64) (@Scenario.looping30 ieee))
    = Some (@i2f ieee 6)
  /\
  frame_after
    (@SetFrame ieee (@i2d ieee 6) (@i2f ieee 8388578) (@Scenario.looping30 ieee))
    = Some (@i2f ieee 9).
Proof. split; vm_compute; reflexivity. Qed.

(** ** What the setters leave alone *)

(** X26.  Each setter writes its own two fields and nothing else:
    [SetController] the encoded controllers and their real values, [SetMouth]
    the mouth setting and its real value, [SetBlending] the encoded blends
    and their real values.  So [SetMouth] does not reach the slot of
    [_controllerValues] at the mouth index that [GetControllerValue] reads,
    and none of the three moves the sequence, the frame or the event
    marker. *)
Theorem setters_write_their_own_fields {A : Arith} {K : StudioConstants}
    (e e' : StudioModelEntity) (controller blender : Z) (value : float) :
  (SetController controller value e = Done e' ->
   e' = with_controller e (_controller e') (_controllerValues e')) /\
  (SetMouth value e = Done e' ->
   e' = with_mouth e (_mouth e') (_mouthValue e')) /\
  (SetBlending blender value e = Done e' ->
   e' = with_blending e (_blending e') (_blendingValues e')).
Proof.
  split; [|split]; intros Hset.
  - unfold SetController in Hset.
    destruct (_editableModel e) as [model|];
      [|apply Done_inj in Hset; subst e'; destruct e; reflexivity].
    cbv zeta in Hset.
    destruct (size_le _ _); [apply Done_inj in Hset; subst e'; destruct e; reflexivity|].
    apply bind_Done in Hset as (controllerValues & _ & Hset).
    apply bind_Done in Hset as (bc' & _ & Hset).
    apply bind_Done in Hset as (normalized & _ & Hset).
    apply bind_Done in Hset as (setting & _ & Hset).
    apply bind_Done in Hset as (controllers & _ & Hset).
    apply Done_inj in Hset. subst e'. reflexivity.
  - unfold SetMouth in Hset.
    destruct (_editableModel e) as [model|];
      [|apply Done_inj in Hset; subst e'; destruct e; reflexivity].
    cbv zeta in Hset.
    destruct (size_le _ _); [apply Done_inj in Hset; subst e'; destruct e; reflexivity|].
    apply bind_Done in Hset as (bc' & _ & Hset).
    apply bind_Done in Hset as (normalized & _ & Hset).
    apply bind_Done in Hset as (setting & _ & Hset).
    apply Done_inj in Hset. subst e'. reflexivity.
  - unfold SetBlending in Hset.
    destruct (_editableModel e) as [model|];
      [|apply Done_inj in Hset; subst e'; destruct e; reflexivity].
    destruct ((blender <? 0) || (STUDIO_MAX_BLENDERS <=? blender));
      [apply Done_inj in Hset; subst e'; destruct e; reflexivity|].
    destruct (no_sequence model (_sequence e));
      [apply Done_inj in Hset; subst e'; destruct e; reflexivity|].
    apply bind_Done in Hset as (sd & _ & Hset).
    apply bind_Done in Hset as ([byte|] & _ & Hset);
      [|apply Done_inj in Hset; subst e'; destruct e; reflexivity].
    apply bind_Done in Hset as (blending & _ & Hset).
    apply bind_Done in Hset as (blendingValues & _ & Hset).
    apply Done_inj in Hset. subst e'. reflexivity.
Qed.

Lemma setters_write_their_own_fields_witness :
  let jaw := @Scenario.controller exactQ 4 8 0 90 in
  let model := Scenario.model_of (Scenario.blended30 []) [jaw] in
  let e := @Scenario.entity_of exactQ (Some model) StandardBlender 0 0 in
  let e' := with_mouth e 32 45%Q in
  @SetMouth exactQ goldsrc 45%Q e = Done e' /\
  _controllerValues e' = _controllerValues e /\
  e' = with_mouth e (_mouth e') (_mouthValue e').
Proof.
  intros jaw model e e'.
  destruct (@setters_write_their_own_fields exactQ goldsrc e e' 4 0 45%Q)
    as (_ & Hmouth & _).
  split; [reflexivity|]. split; [reflexivity|].
  apply Hmouth. reflexivity.
Defined.
